(** * ProxyScraperChecker: normalizer, deduplicator and checker engine

    A shallow embedding of the Go sources: the scraper's [truncateURL],
    [normalizeProxy], [isValidProxy] and [ScrapeProxies]; [ReadLines],
    [WriteLines], [AppendLine], [WriteFile], [RemoveDuplicates] and
    [ProgressBar] of utils.go; [LoadConfig] of config.go; the checker's
    [NewProxyChecker], [formatProxyOutput], [testProxy],
    [checkHTTPProxy], [checkSOCKS5Proxy], [updateProgress] and
    [CheckProxies]; and the parts of [main] that set up the
    configuration of a run and gather its candidates.  Of the libraries
    the code calls, the client of [net/http] (its redirects and its
    timeout), the line scanner of [bufio] and the file calls of [os] are
    modelled as far as the properties need them.

    Go strings are byte sequences and are modelled as [string] (a list of
    [ascii], i.e. of bytes).  [time.Duration] and [int] are 64-bit signed
    integers and are modelled as [Z] with the wrap-around written out
    where the code does arithmetic on them. *)

From Stdlib Require Import ZArith Ascii String List Lia Bool.
From Stdlib Require Import PrimFloat SpecFloat FloatOps.
From stdpp Require Import base list strings gmap.

Local Open Scope Z_scope.

(** ** The pieces of Go's [strings] and [fmt] packages that the code calls *)

Module GoStrings.

Fixpoint drop (n : nat) (s : string) : string :=
  match n, s with
  | O, _ => s
  | S n', String _ s' => drop n' s'
  | S _, EmptyString => EmptyString
  end.

Fixpoint take (n : nat) (s : string) : string :=
  match n, s with
  | O, _ => EmptyString
  | S n', String c s' => String c (take n' s')
  | S _, EmptyString => EmptyString
  end.

(** [strings.HasPrefix(s, prefix)] *)
Definition HasPrefix (s prefix : string) : bool := String.prefix prefix s.

(** [strings.TrimPrefix(s, prefix)]: [s] without the leading [prefix],
    or [s] itself when it does not start with [prefix]. *)
Definition TrimPrefix (s prefix : string) : string :=
  if HasPrefix s prefix then drop (String.length prefix) s else s.

(** [strings.Contains(s, substr)] *)
Fixpoint Contains (s substr : string) : bool :=
  HasPrefix s substr ||
  match s with
  | EmptyString => false
  | String _ s' => Contains s' substr
  end.

(** [strings.Split(s, sep)] for a one-byte separator (the code only
    splits on ":"): the pieces between the separators, one more than
    there are separators. *)
Fixpoint Split (s : string) (sep : ascii) : list string :=
  match s with
  | EmptyString => [EmptyString]
  | String c s' =>
      if Ascii.eqb c sep then EmptyString :: Split s' sep
      else match Split s' sep with
           | h :: t => String c h :: t
           | [] => [String c EmptyString]
           end
  end.

(** The test [c < '0' || c > '9'] negated. *)
Definition is_digit (c : ascii) : bool :=
  (Ascii.leb "0" c && Ascii.leb c "9")%char.

Fixpoint all_digits (s : string) : bool :=
  match s with
  | EmptyString => true
  | String c s' => is_digit c && all_digits s'
  end.

(** [fmt.Sprintf("%s:%s", a, b)] *)
Definition Sprintf_colon (a b : string) : string := a +:+ ":" +:+ b.

End GoStrings.
Import GoStrings.

(** ** Go's [regexp] on the three patterns of [normalizeProxy]

    Go's matcher returns the leftmost match and, among the matches that
    start there, the one a backtracking matcher finds first (greedy
    repetitions try the longest run first).  The patterns of the code use
    only single characters, bounded or unbounded greedy repetitions of
    [\d], concatenation and capture groups; [\d] is ASCII [0-9]. *)

Module regexp.

Inductive cclass : Type :=
| Digit                     (* \d *)
| Lit (c : ascii).          (* an escaped or plain literal, as \. and : *)

Definition cmatch (k : cclass) (c : ascii) : bool :=
  match k with
  | Digit => is_digit c
  | Lit c' => Ascii.eqb c c'
  end.

Inductive regex : Type :=
| Chr (k : cclass)
| Rep (k : cclass) (lo : nat) (hi : option nat)  (* k{lo,hi}; k+ is Rep k 1 None *)
| Cat (r1 r2 : regex)
| Group (r : regex).

Section Matcher.
Context {A : Type}.

(** Greedy repetition: consume one more character of the class when
    allowed, and fall back to stopping here when the rest fails. *)
Fixpoint rep (k : cclass) (lo : nat) (hi : option nat) (s : string)
    (cont : string → option A) : option A :=
  let stop := match lo with O => cont s | S _ => None end in
  match s with
  | String c s' =>
      if cmatch k c && negb (bool_decide (hi = Some O)) then
        match rep k (Nat.pred lo) (Nat.pred <$> hi) s' cont with
        | Some a => Some a
        | None => stop
        end
      else stop
  | EmptyString => stop
  end.

Fixpoint run (r : regex) (s : string) (caps : list string)
    (cont : string → list string → option A) : option A :=
  match r with
  | Chr k =>
      match s with
      | String c s' => if cmatch k c then cont s' caps else None
      | EmptyString => None
      end
  | Rep k lo hi => rep k lo hi s (fun s' => cont s' caps)
  | Cat r1 r2 => run r1 s caps (fun s' caps' => run r2 s' caps' cont)
  | Group r' =>
      run r' s caps (fun s' caps' =>
        cont s' (caps' ++ [take (String.length s - String.length s') s]))
  end.
End Matcher.

(** A match anchored at the start of [s]: the whole match followed by
    the captured groups. *)
Definition match_here (r : regex) (s : string) : option (list string) :=
  run r s [] (fun s' caps =>
    Some (take (String.length s - String.length s') s :: caps)).

(** [re.FindStringSubmatch(s)]; [None] is Go's [nil]. *)
Fixpoint FindStringSubmatch (r : regex) (s : string) : option (list string) :=
  match match_here r s with
  | Some m => Some m
  | None =>
      match s with
      | String _ s' => FindStringSubmatch r s'
      | EmptyString => None
      end
  end.

(** [re.FindString(s)]: the leftmost match, or the empty string. *)
Definition FindString (r : regex) (s : string) : string :=
  match FindStringSubmatch r s with
  | Some (m :: _) => m
  | _ => EmptyString
  end.

End regexp.
Import regexp.

(** ** The structs that JSON is decoded into *)

(** One element of [ProxyData.Data]. *)
Record ProxyEntry : Type := {
  IP : string;
  Port : string;
  ProxyPort : string;
  PortNum : string;
  PortNumber : string
}.

Record ProxyData : Type := { Data : list ProxyEntry }.

(** [ipData] of [testProxy]: the answer of the geolocation endpoint. *)
Module IpData.
Record t : Type := {
  Status : string;
  Country : string;
  CountryCode : string;
  Region : string;
  City : string;
  Query : string
}.
Definition zero : t :=
  {| Status := ""; Country := ""; CountryCode := ""; Region := ""; City := ""; Query := "" |}.
End IpData.

(** [headers] of [testProxy]: [struct { Headers map[string]string }]. *)
Record HeadersData : Type := { Headers : gmap string string }.

(** ** Go's [encoding/json], as far as the three [json.Unmarshal] calls
       of the code go

    [Unmarshal] first checks that the whole input is one well-formed JSON
    value (surrounded by optional white space, nested at most 10000
    deep), then stores it into the target.  A value of the wrong JSON
    kind for a field is an [UnmarshalTypeError]; decoding goes on, and
    the error is returned at the end, so the caller sees a non-nil error.
    [null] leaves a string or struct as it is and empties a slice or map.
    Object keys are matched to field names without regard to case. *)

Module GoJSON.

#[warnings="-register-all"] Inductive json : Type :=
| JNull
| JBool (b : bool)
| JNum (lexeme : string)
| JStr (s : string)
| JArr (elems : list json)
| JObj (members : list (string * json)).

Definition byte (c : ascii) : N := N_of_ascii c.
Definition chr (n : N) : ascii := ascii_of_N n.

Definition is_space (c : ascii) : bool :=
  Ascii.eqb c " " || Ascii.eqb c "009" || Ascii.eqb c "010" || Ascii.eqb c "013".

Fixpoint skip_ws (s : string) : string :=
  match s with
  | String c s' => if is_space c then skip_ws s' else s
  | EmptyString => s
  end.

Definition hex (c : ascii) : option N :=
  let n := byte c in
  if (48 <=? n)%N && (n <=? 57)%N then Some (n - 48)%N
  else if (97 <=? n)%N && (n <=? 102)%N then Some (n - 87)%N
  else if (65 <=? n)%N && (n <=? 70)%N then Some (n - 55)%N
  else None.

(** [getu4]: the code unit that four hexadecimal digits spell. *)
Definition hex4 (a b c d : ascii) : option N :=
  match hex a, hex b, hex c, hex d with
  | Some a, Some b, Some c, Some d => Some (a * 4096 + b * 256 + c * 16 + d)%N
  | _, _, _, _ => None
  end.

(** [utf8.EncodeRune] *)
Definition utf8_encode (r : N) : string :=
  if (r <? 128)%N then String (chr r) ""
  else if (r <? 2048)%N then
    String (chr (192 + r / 64)) (String (chr (128 + r mod 64)) "")
  else if (r <? 65536)%N then
    String (chr (224 + r / 4096))
      (String (chr (128 + (r / 64) mod 64)) (String (chr (128 + r mod 64)) ""))
  else
    String (chr (240 + r / 262144))
      (String (chr (128 + (r / 4096) mod 64))
        (String (chr (128 + (r / 64) mod 64)) (String (chr (128 + r mod 64)) ""))).

(** U+FFFD, which stands in for what is not well-formed. *)
Definition replacement : string := utf8_encode 65533.

Definition is_cont (c : ascii) : bool := (128 <=? byte c)%N && (byte c <=? 191)%N.

(** The number of continuation bytes of the well-formed UTF-8 sequence
    at the head of [s] ([utf8.DecodeRune]'s table); [None] when the
    bytes there are not well-formed UTF-8. *)
Definition utf8_tail (s : string) : option nat :=
  match s with
  | String c0 t =>
      let b0 := byte c0 in
      let conts (lo hi : N) (n : nat) :=
        match t with
        | String c1 t1 =>
            if (lo <=? byte c1)%N && (byte c1 <=? hi)%N then
              match n, t1 with
              | 1%nat, _ => Some 1%nat
              | 2%nat, String c2 _ => if is_cont c2 then Some 2%nat else None
              | 3%nat, String c2 (String c3 _) =>
                  if is_cont c2 && is_cont c3 then Some 3%nat else None
              | _, _ => None
              end
            else None
        | EmptyString => None
        end in
      if (b0 <? 128)%N then Some 0%nat
      else if (b0 <? 194)%N then None
      else if (b0 <? 224)%N then conts 128%N 191%N 1%nat
      else if (b0 =? 224)%N then conts 160%N 191%N 2%nat
      else if (b0 =? 237)%N then conts 128%N 159%N 2%nat
      else if (b0 <? 240)%N then conts 128%N 191%N 2%nat
      else if (b0 =? 240)%N then conts 144%N 191%N 3%nat
      else if (b0 <? 244)%N then conts 128%N 191%N 3%nat
      else if (b0 =? 244)%N then conts 128%N 143%N 3%nat
      else None
  | EmptyString => None
  end.

(** [out] put before the text of a parsed remainder. *)
Definition emit (out : string) (r : option (string * string)) : option (string * string) :=
  match r with
  | Some (txt, rest) => Some (out +:+ txt, rest)
  | None => None
  end.

(** The byte that a one-letter escape stands for. *)
Definition escape (e : ascii) : option N :=
  if Ascii.eqb e "034" then Some 34%N
  else if Ascii.eqb e "\" then Some 92%N
  else if Ascii.eqb e "/" then Some 47%N
  else if Ascii.eqb e "b" then Some 8%N
  else if Ascii.eqb e "f" then Some 12%N
  else if Ascii.eqb e "n" then Some 10%N
  else if Ascii.eqb e "r" then Some 13%N
  else if Ascii.eqb e "t" then Some 9%N
  else None.

(** The body of a string literal, after its opening quote: the decoded
    text and the input after the closing quote.  [pending] counts the
    continuation bytes of a UTF-8 sequence still to be copied.  A
    [\uXXXX] that is a surrogate stands for U+FFFD unless it is a high
    one followed by a low one, which together spell one character. *)
Fixpoint string_lit (pending : nat) (s : string) : option (string * string) :=
  match s with
  | EmptyString => None
  | String c s' =>
      match pending with
      | S p => emit (String c "") (string_lit p s')
      | O =>
          if Ascii.eqb c "034" then Some ("", s')
          else if Ascii.eqb c "\" then
            match s' with
            | EmptyString => None
            | String e s2 =>
                if Ascii.eqb e "u" then
                  match s2 with
                  | String a (String b (String c' (String d s3))) =>
                      match hex4 a b c' d with
                      | None => None
                      | Some rr =>
                          if (55296 <=? rr)%N && (rr <? 57344)%N then
                            match s3 with
                            | String bs (String u
                                (String a1 (String b1 (String c1 (String d1 s4))))) =>
                                match (if Ascii.eqb bs "\" && Ascii.eqb u "u"
                                       then hex4 a1 b1 c1 d1 else None) with
                                | Some r1 =>
                                    if (rr <? 56320)%N && (56320 <=? r1)%N && (r1 <? 57344)%N
                                    then emit (utf8_encode
                                                 ((rr - 55296) * 1024 + (r1 - 56320) + 65536)%N)
                                              (string_lit O s4)
                                    else emit replacement (string_lit O s3)
                                | None => emit replacement (string_lit O s3)
                                end
                            | _ => emit replacement (string_lit O s3)
                            end
                          else emit (utf8_encode rr) (string_lit O s3)
                      end
                  | _ => None
                  end
                else
                  match escape e with
                  | Some b => emit (String (chr b) "") (string_lit O s2)
                  | None => None
                  end
            end
          else if (byte c <? 32)%N then None
          else
            match utf8_tail s with
            | Some n => emit (String c "") (string_lit n s')
            | None => emit replacement (string_lit O s')
            end
      end
  end.

(** The digits at the head of [s] and what follows them. *)
Fixpoint digits (s : string) : string * string :=
  match s with
  | String c s' =>
      if is_digit c then let '(d, r) := digits s' in (String c d, r)
      else (EmptyString, s)
  | EmptyString => (EmptyString, s)
  end.

(** The parts of a number: an optional minus sign, an integer part
    without leading zeros, an optional fraction and an optional
    exponent. *)
Definition num_sign (s : string) : string * string :=
  match s with
  | String c s' => if Ascii.eqb c "-" then ("-", s') else ("", s)
  | EmptyString => ("", s)
  end.

Definition num_int (s : string) : option (string * string) :=
  match s with
  | String c s' =>
      if Ascii.eqb c "0" then Some ("0", s')
      else let '(d, r) := digits s in
           if String.eqb d "" then None else Some (d, r)
  | EmptyString => None
  end.

Definition num_frac (s : string) : option (string * string) :=
  match s with
  | String c s' =>
      if Ascii.eqb c "." then
        let '(d, r) := digits s' in
        if String.eqb d "" then None else Some ("." +:+ d, r)
      else Some ("", s)
  | EmptyString => Some ("", s)
  end.

Definition num_exp (s : string) : option (string * string) :=
  match s with
  | String e s' =>
      if Ascii.eqb e "e" || Ascii.eqb e "E" then
        let '(sg, s'') :=
          match s' with
          | String c t =>
              if Ascii.eqb c "+" || Ascii.eqb c "-" then (String c "", t) else ("", s')
          | EmptyString => ("", s')
          end in
        let '(d, r) := digits s'' in
        if String.eqb d "" then None else Some (String e "" +:+ sg +:+ d, r)
      else Some ("", s)
  | EmptyString => Some ("", s)
  end.

Definition number (s : string) : option (string * string) :=
  let '(sign, s1) := num_sign s in
  match num_int s1 with
  | None => None
  | Some (i, s2) =>
      match num_frac s2 with
      | None => None
      | Some (f, s3) =>
          match num_exp s3 with
          | None => None
          | Some (e, s4) => Some (sign +:+ i +:+ f +:+ e, s4)
          end
      end
  end.

Definition maxNestingDepth : N := 10000.

(** The three mutually recursive parts of the parser, each written over
    the parts it calls: a value, the elements of an array, and the
    members of an object.  [depth] is the number of arrays and objects
    that the text lies in. *)

(** One JSON value at the head of [s] (no leading white space), and the
    input after it. *)
Definition value_with
    (members : N → string → option (list (string * json) * string))
    (elems : N → string → option (list json * string))
    (depth : N) (s : string) : option (json * string) :=
  match s with
  | EmptyString => None
  | String c s1 =>
      if Ascii.eqb c "{" then
        if (depth <? maxNestingDepth)%N then
          match skip_ws s1 with
          | EmptyString => None
          | String c2 s2 =>
              if Ascii.eqb c2 "}" then Some (JObj [], s2)
              else
                match members (depth + 1)%N (skip_ws s1) with
                | Some (ms, s3) => Some (JObj ms, s3)
                | None => None
                end
          end
        else None
      else if Ascii.eqb c "[" then
        if (depth <? maxNestingDepth)%N then
          match skip_ws s1 with
          | EmptyString => None
          | String c2 s2 =>
              if Ascii.eqb c2 "]" then Some (JArr [], s2)
              else
                match elems (depth + 1)%N (skip_ws s1) with
                | Some (vs, s3) => Some (JArr vs, s3)
                | None => None
                end
          end
        else None
      else if Ascii.eqb c "034" then
        match string_lit O s1 with
        | Some (txt, s2) => Some (JStr txt, s2)
        | None => None
        end
      else if HasPrefix s "true" then Some (JBool true, drop 4 s)
      else if HasPrefix s "false" then Some (JBool false, drop 5 s)
      else if HasPrefix s "null" then Some (JNull, drop 4 s)
      else
        match number s with
        | Some (lx, s2) => Some (JNum lx, s2)
        | None => None
        end
  end.

(** The elements of an array from the first one on, up to the closing
    bracket. *)
Definition elems_with
    (value : N → string → option (json * string))
    (elems : N → string → option (list json * string))
    (depth : N) (s : string) : option (list json * string) :=
  match value depth s with
  | Some (v, s1) =>
      match skip_ws s1 with
      | EmptyString => None
      | String c s2 =>
          if Ascii.eqb c "," then
            match elems depth (skip_ws s2) with
            | Some (vs, s3) => Some (v :: vs, s3)
            | None => None
            end
          else if Ascii.eqb c "]" then Some ([v], s2)
          else None
      end
  | None => None
  end.

(** The members of an object from the first key on, up to the closing
    brace. *)
Definition members_with
    (value : N → string → option (json * string))
    (members : N → string → option (list (string * json) * string))
    (depth : N) (s : string) : option (list (string * json) * string) :=
  match s with
  | EmptyString => None
  | String q s1 =>
      if Ascii.eqb q "034" then
        match string_lit O s1 with
        | Some (key, s2) =>
            match skip_ws s2 with
            | EmptyString => None
            | String c s3 =>
                if Ascii.eqb c ":" then
                  match value depth (skip_ws s3) with
                  | Some (v, s4) =>
                      match skip_ws s4 with
                      | EmptyString => None
                      | String c' s5 =>
                          if Ascii.eqb c' "," then
                            match members depth (skip_ws s5) with
                            | Some (ms, s6) => Some ((key, v) :: ms, s6)
                            | None => None
                            end
                          else if Ascii.eqb c' "}" then Some ([(key, v)], s5)
                          else None
                      end
                  | None => None
                  end
                else None
            end
        | None => None
        end
      else None
  end.

Fixpoint value (fuel : nat) (depth : N) (s : string) : option (json * string) :=
  match fuel with
  | O => None
  | S f => value_with (λ d x, members f d x) (λ d x, elems f d x) depth s
  end
with elems (fuel : nat) (depth : N) (s : string) : option (list json * string) :=
  match fuel with
  | O => None
  | S f => elems_with (λ d x, value f d x) (λ d x, elems f d x) depth s
  end
with members (fuel : nat) (depth : N) (s : string)
    : option (list (string * json) * string) :=
  match fuel with
  | O => None
  | S f => members_with (λ d x, value f d x) (λ d x, members f d x) depth s
  end.

(** The fuel that [parse] gives: enough for every input (see
    [value_fuel_enough] below). *)
Definition parse_fuel (s : string) : nat := 2 * String.length s + 2.

(** The whole input as one JSON value, surrounded by optional white
    space. *)
Definition parse (s : string) : option json :=
  match value (parse_fuel s) 0 (skip_ws s) with
  | Some (v, rest) =>
      match skip_ws rest with
      | EmptyString => Some v
      | String _ _ => None
      end
  | None => None
  end.

(** *** Storing a parsed value into the structs of the code *)

Definition upper (c : ascii) : ascii :=
  if (97 <=? byte c)%N && (byte c <=? 122)%N then chr (byte c - 32) else c.

(** [foldName]: ASCII letters to upper case; the only other letters that
    fold to ASCII ones are U+017F (long s) and U+212A (Kelvin sign). *)
Fixpoint foldName (s : string) : string :=
  match s with
  | String "197" (String "191" s') => String "S" (foldName s')
  | String "226" (String "132" (String "170" s')) => String "K" (foldName s')
  | String c s' => String (upper c) (foldName s')
  | EmptyString => EmptyString
  end.

Definition key_is (name key : string) : bool :=
  String.eqb (foldName key) (foldName name).

(** A JSON value stored into a [string] that holds [cur]. *)
Definition store_string (cur : string) (v : json) : option string :=
  match v with
  | JStr s => Some s
  | JNull => Some cur
  | _ => None
  end.

(** The members of an object stored one after the other, in input order. *)
Fixpoint store_members {T : Type} (store : string → json → T → option T)
    (ms : list (string * json)) (t : T) : option T :=
  match ms with
  | [] => Some t
  | (k, v) :: ms' =>
      match store k v t with
      | Some t' => store_members store ms' t'
      | None => None
      end
  end.

Definition store_entry_field (k : string) (v : json) (e : ProxyEntry)
    : option ProxyEntry :=
  if key_is "ip" k then
    s ← store_string (IP e) v;
    Some {| IP := s; Port := Port e; ProxyPort := ProxyPort e;
            PortNum := PortNum e; PortNumber := PortNumber e |}
  else if key_is "port" k then
    s ← store_string (Port e) v;
    Some {| IP := IP e; Port := s; ProxyPort := ProxyPort e;
            PortNum := PortNum e; PortNumber := PortNumber e |}
  else if key_is "proxy_port" k then
    s ← store_string (ProxyPort e) v;
    Some {| IP := IP e; Port := Port e; ProxyPort := s;
            PortNum := PortNum e; PortNumber := PortNumber e |}
  else if key_is "port_num" k then
    s ← store_string (PortNum e) v;
    Some {| IP := IP e; Port := Port e; ProxyPort := ProxyPort e;
            PortNum := s; PortNumber := PortNumber e |}
  else if key_is "port_number" k then
    s ← store_string (PortNumber e) v;
    Some {| IP := IP e; Port := Port e; ProxyPort := ProxyPort e;
            PortNum := PortNum e; PortNumber := s |}
  else Some e.

Definition store_entry (e : ProxyEntry) (v : json) : option ProxyEntry :=
  match v with
  | JObj ms => store_members store_entry_field ms e
  | JNull => Some e
  | _ => None
  end.

Definition zero_entry : ProxyEntry :=
  {| IP := ""; Port := ""; ProxyPort := ""; PortNum := ""; PortNumber := "" |}.

(** An array stored into the slice [old]: element [i] is stored into the
    element the slice already has at [i], or into a zero one. *)
Fixpoint store_entries (old : list ProxyEntry) (vs : list json)
    : option (list ProxyEntry) :=
  match vs with
  | [] => Some []
  | v :: vs' =>
      e ← store_entry (hd zero_entry old) v;
      es ← store_entries (tl old) vs';
      Some (e :: es)
  end.

Definition store_ProxyData_field (k : string) (v : json) (d : ProxyData)
    : option ProxyData :=
  if key_is "data" k then
    match v with
    | JArr vs => es ← store_entries (Data d) vs; Some {| Data := es |}
    | JNull => Some {| Data := [] |}
    | _ => None
    end
  else Some d.

(** [json.Unmarshal(b, &data)] with [var data ProxyData]. *)
Definition Unmarshal_ProxyData (b : string) : option ProxyData :=
  match parse b with
  | Some (JObj ms) => store_members store_ProxyData_field ms {| Data := [] |}
  | Some JNull => Some {| Data := [] |}
  | _ => None
  end.

Definition store_ipData_field (k : string) (v : json) (d : IpData.t)
    : option IpData.t :=
  let '(IpData.Build_t st co cc rg ci qu) := d in
  if key_is "status" k then
    s ← store_string st v; Some (IpData.Build_t s co cc rg ci qu)
  else if key_is "country" k then
    s ← store_string co v; Some (IpData.Build_t st s cc rg ci qu)
  else if key_is "countryCode" k then
    s ← store_string cc v; Some (IpData.Build_t st co s rg ci qu)
  else if key_is "regionName" k then
    s ← store_string rg v; Some (IpData.Build_t st co cc s ci qu)
  else if key_is "city" k then
    s ← store_string ci v; Some (IpData.Build_t st co cc rg s qu)
  else if key_is "query" k then
    s ← store_string qu v; Some (IpData.Build_t st co cc rg ci s)
  else Some d.

(** [json.Unmarshal(body, &ipData)] *)
Definition Unmarshal_ipData (b : string) : option IpData.t :=
  match parse b with
  | Some (JObj ms) => store_members store_ipData_field ms IpData.zero
  | Some JNull => Some IpData.zero
  | _ => None
  end.

(** One member of the object stored into a [map[string]string]: the
    element starts as the empty string, and [null] leaves it so. *)
Definition store_map_entry (k : string) (v : json) (m : gmap string string)
    : option (gmap string string) :=
  s ← store_string "" v; Some (<[k := s]> m).

Definition store_headers_field (k : string) (v : json) (d : HeadersData)
    : option HeadersData :=
  if key_is "headers" k then
    match v with
    | JObj ms => m ← store_members store_map_entry ms (Headers d); Some {| Headers := m |}
    | JNull => Some {| Headers := ∅ |}
    | _ => None
    end
  else Some d.

(** [json.Unmarshal(body, &headers)] *)
Definition Unmarshal_headers (b : string) : option HeadersData :=
  match parse b with
  | Some (JObj ms) => store_members store_headers_field ms {| Headers := ∅ |}
  | Some JNull => Some {| Headers := ∅ |}
  | _ => None
  end.

End GoJSON.

(** ** The address normalizer: [normalizeProxy] and [isValidProxy] *)

(** [\d{1,3}\.\d{1,3}\.\d{1,3}\.\d{1,3}] *)
Definition quad : regex :=
  Cat (Rep Digit 1 (Some 3%nat)) (Cat (Chr (Lit "."))
  (Cat (Rep Digit 1 (Some 3%nat)) (Cat (Chr (Lit "."))
  (Cat (Rep Digit 1 (Some 3%nat)) (Cat (Chr (Lit "."))
       (Rep Digit 1 (Some 3%nat))))))).

(** [(\d{1,3}\.\d{1,3}\.\d{1,3}\.\d{1,3}):(\d+)] *)
Definition re : regex :=
  Cat (Group quad) (Cat (Chr (Lit ":")) (Group (Rep Digit 1 None))).

Definition ipRe : regex := quad.

(** [\d{1,5}] *)
Definition portRe : regex := Rep Digit 1 (Some 5%nat).

Section Normalizer.

(** [json.Unmarshal([]byte(proxy), &data)] for [data : ProxyData];
    [None] is a non-nil error.  The normalizer is defined over any
    decoder; [GoJSON.Unmarshal_ProxyData] below is the one of Go. *)
Variable Unmarshal : string → option ProxyData.

(** "Remove protocol prefix if exists" *)
Definition stripScheme (proxy : string) : string :=
  let proxy := TrimPrefix proxy "http://" in
  let proxy := TrimPrefix proxy "https://" in
  let proxy := TrimPrefix proxy "socks4://" in
  let proxy := TrimPrefix proxy "socks5://" in
  proxy.

(** "Try to parse as JSON": [Some] is the value returned from inside the
    [if], [None] means that control falls through to the patterns. *)
Definition jsonBranch (proxy : string) : option string :=
  if HasPrefix proxy "{" then
    match Unmarshal proxy with
    | Some data =>
        match Data data with
        | d0 :: _ =>
            let ip := IP d0 in
            (* Try different port field names *)
            let port := Port d0 in
            let port := if String.eqb port "" then ProxyPort d0 else port in
            let port := if String.eqb port "" then PortNum d0 else port in
            let port := if String.eqb port "" then PortNumber d0 else port in
            let port := if String.eqb port "" then "80" else port in
            Some (Sprintf_colon ip port)
        | [] => None
        end
    | None => None
    end
  else None.

Definition normalizeProxy (proxy : string) : string :=
  let proxy := stripScheme proxy in
  match jsonBranch proxy with
  | Some r => r
  | None =>
      (* Try to find IP:PORT pattern *)
      match FindStringSubmatch re proxy with
      | Some matches =>
          Sprintf_colon (default "" (matches !! 1%nat)) (default "" (matches !! 2%nat))
      | None =>
          (* Try to find IP and PORT separately *)
          let ip := FindString ipRe proxy in
          let port := FindString portRe proxy in
          if negb (String.eqb ip "") && negb (String.eqb port "")
          then Sprintf_colon ip port
          else ""
      end
  end.

Definition isValidProxy (proxy : string) : string * bool :=
  if String.eqb proxy "" then ("", false)
  else
    let normalized := normalizeProxy proxy in
    if String.eqb normalized "" then ("", false)
    else
      let parts := Split normalized ":" in
      if negb (length parts =? 2)%nat then ("", false)
      else
        let port := default "" (parts !! 1%nat) in
        if (String.length port =? 0)%nat || (5 <? String.length port)%nat
        then ("", false)
        else if negb (all_digits port) then ("", false)
        else (normalized, true).

End Normalizer.

(** ** The deduplicator: [RemoveDuplicates] of utils.go *)

(** One iteration of the loop: [seen] is a [map[string]struct{}] used
    as a set, [result] grows by [append]. *)
Definition RemoveDuplicates_body (st : gset string * list string) (proxy : string)
    : gset string * list string :=
  let '(seen, result) := st in
  if decide (proxy ∈ seen) then (seen, result)
  else ({[proxy]} ∪ seen, result ++ [proxy]).

Definition RemoveDuplicates (proxies : list string) : list string :=
  (foldl RemoveDuplicates_body (∅, []) proxies).2.

(** ** The configuration and its defaults: [LoadConfig] of config.go *)

(** [time.Duration]: a signed 64-bit count of nanoseconds. *)
Definition Duration : Type := Z.
Definition Millisecond : Duration := 1000000.
Definition Second : Duration := 1000000000.

Module ScraperConfig.
Record t : Type := {
  Timeout : Duration;
  UserAgent : string;
  Concurrent : Z;
  UserAgents : list string
}.
End ScraperConfig.

Module CheckerConfig.
Record t : Type := {
  Timeout : Duration;
  ConnectTimeout : Duration;
  Concurrent : Z;
  ConcurrentHTTP : Z;
  ConcurrentSOCKS5 : Z;
  CheckURLs : list string;
  TestURL : string;
  UserAgent : string;
  StrictCheck : bool;
  DetailedOutput : bool
}.
End CheckerConfig.

Record Config : Type := {
  Scraper : ScraperConfig.t;
  Checker : CheckerConfig.t
}.

(** The value of [var config Config] before [yaml.Unmarshal] fills it. *)
Definition zeroConfig : Config :=
  {| Scraper := {| ScraperConfig.Timeout := 0; ScraperConfig.UserAgent := "";
                   ScraperConfig.Concurrent := 0; ScraperConfig.UserAgents := [] |};
     Checker := {| CheckerConfig.Timeout := 0; CheckerConfig.ConnectTimeout := 0;
                   CheckerConfig.Concurrent := 0; CheckerConfig.ConcurrentHTTP := 0;
                   CheckerConfig.ConcurrentSOCKS5 := 0; CheckerConfig.CheckURLs := [];
                   CheckerConfig.TestURL := ""; CheckerConfig.UserAgent := "";
                   CheckerConfig.StrictCheck := false;
                   CheckerConfig.DetailedOutput := false |} |}.

Section Loading.

(** [os.ReadFile(path)] and [yaml.Unmarshal(data, &config)] on a zero
    [config]; [None] is a non-nil error. *)
Variable ReadFile : string → option string.
Variable yaml_Unmarshal : string → option Config.

Definition defaultUserAgent : string :=
  "Mozilla/5.0 (Windows NT 10.0; Win64; x64) AppleWebKit/537.36 (KHTML, like Gecko) Chrome/91.0.4472.124 Safari/537.36".

Definition LoadConfig (path : string) : option Config :=
  match ReadFile path with
  | None => None
  | Some data =>
      match yaml_Unmarshal data with
      | None => None
      | Some config =>
          let s := Scraper config in
          let k := Checker config in
          (* Set default values if not specified *)
          let sTimeout :=
            if ScraperConfig.Timeout s =? 0 then 10 * Second
            else ScraperConfig.Timeout s in
          let sUserAgent :=
            if String.eqb (ScraperConfig.UserAgent s) "" then defaultUserAgent
            else ScraperConfig.UserAgent s in
          let sUserAgents :=
            if (length (ScraperConfig.UserAgents s) =? 0)%nat then [sUserAgent]
            else ScraperConfig.UserAgents s in
          let sConcurrent :=
            if ScraperConfig.Concurrent s =? 0 then 10 else ScraperConfig.Concurrent s in
          (* Checker defaults *)
          let kTimeout :=
            if CheckerConfig.Timeout k =? 0 then
              if CheckerConfig.StrictCheck k then 3 * Second
              else 10 * Second
            else CheckerConfig.Timeout k in
          let kConnectTimeout :=
            if CheckerConfig.ConnectTimeout k =? 0 then
              if CheckerConfig.StrictCheck k then 3 * Second
              else 5 * Second
            else CheckerConfig.ConnectTimeout k in
          let kConcurrent :=
            if CheckerConfig.Concurrent k =? 0 then 100 else CheckerConfig.Concurrent k in
          let kConcurrentHTTP :=
            if CheckerConfig.ConcurrentHTTP k =? 0 then kConcurrent
            else CheckerConfig.ConcurrentHTTP k in
          let kConcurrentSOCKS5 :=
            if CheckerConfig.ConcurrentSOCKS5 k =? 0 then kConcurrent
            else CheckerConfig.ConcurrentSOCKS5 k in
          let kCheckURLs :=
            if (length (CheckerConfig.CheckURLs k) =? 0)%nat
            then ["http://checkip.amazonaws.com"]
            else CheckerConfig.CheckURLs k in
          let kTestURL :=
            if String.eqb (CheckerConfig.TestURL k) "" then hd "" kCheckURLs
            else CheckerConfig.TestURL k in
          let kUserAgent :=
            if String.eqb (CheckerConfig.UserAgent k) "" then sUserAgent
            else CheckerConfig.UserAgent k in
          (* DetailedOutput works only with StrictCheck *)
          let kDetailedOutput :=
            if negb (CheckerConfig.StrictCheck k) then false
            else CheckerConfig.DetailedOutput k in
          Some
            {| Scraper :=
                 {| ScraperConfig.Timeout := sTimeout;
                    ScraperConfig.UserAgent := sUserAgent;
                    ScraperConfig.Concurrent := sConcurrent;
                    ScraperConfig.UserAgents := sUserAgents |};
               Checker :=
                 {| CheckerConfig.Timeout := kTimeout;
                    CheckerConfig.ConnectTimeout := kConnectTimeout;
                    CheckerConfig.Concurrent := kConcurrent;
                    CheckerConfig.ConcurrentHTTP := kConcurrentHTTP;
                    CheckerConfig.ConcurrentSOCKS5 := kConcurrentSOCKS5;
                    CheckerConfig.CheckURLs := kCheckURLs;
                    CheckerConfig.TestURL := kTestURL;
                    CheckerConfig.UserAgent := kUserAgent;
                    CheckerConfig.StrictCheck := CheckerConfig.StrictCheck k;
                    CheckerConfig.DetailedOutput := kDetailedOutput |} |}
      end
  end.

(** [main], from "Load configuration" to "Update checker configuration
    with command line flags": the configuration that the run uses.
    [strictCheck] and [detailedOutput] are the values of the [--strict]
    and [--detailed] flags; [None] is the early [return] on an error. *)
Definition main_config (strictCheck detailedOutput : bool) : option Config :=
  match LoadConfig "config.yaml" with
  | None => None
  | Some config =>
      let k := Checker config in
      Some
        {| Scraper := Scraper config;
           Checker :=
             {| CheckerConfig.Timeout := CheckerConfig.Timeout k;
                CheckerConfig.ConnectTimeout := CheckerConfig.ConnectTimeout k;
                CheckerConfig.Concurrent := CheckerConfig.Concurrent k;
                CheckerConfig.ConcurrentHTTP := CheckerConfig.ConcurrentHTTP k;
                CheckerConfig.ConcurrentSOCKS5 := CheckerConfig.ConcurrentSOCKS5 k;
                CheckerConfig.CheckURLs := CheckerConfig.CheckURLs k;
                CheckerConfig.TestURL := CheckerConfig.TestURL k;
                CheckerConfig.UserAgent := CheckerConfig.UserAgent k;
                CheckerConfig.StrictCheck := strictCheck;
                CheckerConfig.DetailedOutput := detailedOutput |} |}
  end.

End Loading.

(** ** The checker engine: [ProxyChecker] and its methods *)

Inductive ProxyType : Type :=
| ProxyTypeHTTP
| ProxyTypeSOCKS5.

#[global] Instance ProxyType_eq_dec : EqDecision ProxyType.
Proof. solve_decision. Defined.

Module ProxyLocation.
Record t : Type := {
  Country : string;
  CountryCode : string;
  City : string;
  Region : string
}.
End ProxyLocation.

(** [Type] is a keyword here, so the field [Type] is [Type_]. *)
Record CheckResult : Type := {
  Proxy : string;
  Working : bool;
  Type_ : ProxyType;
  ProxyIP : string;
  Speed : Duration;
  Anonymous : bool;
  Location : option ProxyLocation.t
}.

(** [int] arithmetic wraps around at 64 bits. *)
Definition wrap64 (z : Z) : Z := (z + 2 ^ 63) mod 2 ^ 64 - 2 ^ 63.

(** The counters of [ProxyChecker] and its result channel: [ResultChan]
    holds the values sent and not yet received, oldest first, and
    [closed] tells whether [close(c.ResultChan)] has run. *)
Record ProxyChecker : Type := {
  ResultChan : list CheckResult;
  closed : bool;
  checkedHTTP : Z;
  checkedSOCKS5 : Z;
  workingHTTP : Z;
  workingSOCKS5 : Z;
  totalHTTP : Z;
  totalSOCKS5 : Z
}.

(** [make(chan CheckResult, 100)] *)
Definition ResultChan_cap : nat := 100.

Definition NewProxyChecker : ProxyChecker :=
  {| ResultChan := []; closed := false;
     checkedHTTP := 0; checkedSOCKS5 := 0; workingHTTP := 0; workingSOCKS5 := 0;
     totalHTTP := 0; totalSOCKS5 := 0 |}.

(** The body of [updateProgress], which runs with [progressMu] held. *)
Definition updateProgress (proxyType : ProxyType) (working : bool)
    (c : ProxyChecker) : ProxyChecker :=
  match proxyType with
  | ProxyTypeHTTP =>
      {| ResultChan := ResultChan c; closed := closed c;
         checkedHTTP := wrap64 (checkedHTTP c + 1);
         checkedSOCKS5 := checkedSOCKS5 c;
         workingHTTP := if working then wrap64 (workingHTTP c + 1) else workingHTTP c;
         workingSOCKS5 := workingSOCKS5 c;
         totalHTTP := totalHTTP c; totalSOCKS5 := totalSOCKS5 c |}
  | ProxyTypeSOCKS5 =>
      {| ResultChan := ResultChan c; closed := closed c;
         checkedHTTP := checkedHTTP c;
         checkedSOCKS5 := wrap64 (checkedSOCKS5 c + 1);
         workingHTTP := workingHTTP c;
         workingSOCKS5 := if working then wrap64 (workingSOCKS5 c + 1) else workingSOCKS5 c;
         totalHTTP := totalHTTP c; totalSOCKS5 := totalSOCKS5 c |}
  end.

(** *** The network as the checker sees it *)

(** [io.ReadAll(resp.Body)] *)
Inductive read_outcome : Type :=
| ReadError
| Body (body : string).

(** [client.Do(req)]: an error (refused or failed connection, a timeout
    of the client or of its transport, a malformed response) or a
    response with its status code and its body. *)
Inductive do_outcome : Type :=
| DoError
| Response (StatusCode : Z) (body : read_outcome).

(** The [http.Client] that a check builds: which kind of proxy it goes
    through, at which address, and its time limits. *)
Record Client : Type := {
  via : ProxyType;
  address : string;
  DialTimeout : Duration;
  TLSHandshakeTimeout : Duration;
  ResponseHeaderTimeout : Duration;
  ClientTimeout : Duration
}.

(** What lies outside the program: the libraries it calls and the
    network behind the candidate proxies. *)
Record World : Type := {
  (** [url.Parse("http://" + proxyStr)] returns a nil error *)
  url_Parse_ok : string → bool;
  (** [proxy.SOCKS5("tcp", proxyStr, nil, dialer)] returns a nil error *)
  SOCKS5_ok : string → bool;
  (** [http.NewRequest("GET", url, nil)] returns a nil error *)
  NewRequest_ok : string → bool;
  (** [client.Do(req)] for the GET request of a URL *)
  Do : Client → string → do_outcome;
  (** [time.Since(start)] at the end of the probes made with a client *)
  Since : Client → Duration;
  (** [json.Unmarshal] into [ipData] and into [headers] *)
  Unmarshal_ipData : string → option IpData.t;
  Unmarshal_headers : string → option HeadersData;
  (** [d.Round(time.Millisecond).String()] *)
  RoundMillisecondString : Duration → string
}.

Definition StatusOK : Z := 200.

Section Checking.

Variable W : World.
Variable config : Config.

(** The five results of [testProxy]. *)
Definition probe : Type := bool * string * Duration * bool * option ProxyLocation.t.

Definition failed : probe := (false, "", 0, false, None).

Definition testProxy (client : Client) : probe :=
  if negb (CheckerConfig.StrictCheck (Checker config)) then
    (* Simple check - just verify if proxy returns 200 OK *)
    if negb (NewRequest_ok W (CheckerConfig.TestURL (Checker config))) then failed
    else
      match Do W client (CheckerConfig.TestURL (Checker config)) with
      | DoError => failed
      | Response StatusCode _ =>
          (StatusCode =? StatusOK, "", Since W client, false, None)
      end
  else
    (* Strict check with multiple criteria *)
    (* 1. Check IP and location using ip-api.com *)
    if negb (NewRequest_ok W "http://ip-api.com/json") then failed
    else
      match Do W client "http://ip-api.com/json" with
      | DoError => failed
      | Response _ ReadError => failed
      | Response _ (Body body) =>
          (* Parse IP-API response *)
          match Unmarshal_ipData W body with
          | None => failed
          | Some ipData =>
              if negb (String.eqb (IpData.Status ipData) "success") then failed
              else
                let proxyIP := IpData.Query ipData in
                let location :=
                  {| ProxyLocation.Country := IpData.Country ipData;
                     ProxyLocation.CountryCode := IpData.CountryCode ipData;
                     ProxyLocation.City := IpData.City ipData;
                     ProxyLocation.Region := IpData.Region ipData |} in
                (* 2. Check anonymity by comparing headers *)
                if negb (NewRequest_ok W "https://httpbin.org/headers") then failed
                else
                  match Do W client "https://httpbin.org/headers" with
                  | DoError => failed
                  | Response _ ReadError => failed
                  | Response _ (Body body) =>
                      match Unmarshal_headers W body with
                      | None => failed
                      | Some headers =>
                          (* Check if proxy reveals real IP in headers *)
                          let isAnonymous :=
                            negb (existsb (fun kv => Contains kv.2 proxyIP)
                                    (map_to_list (Headers headers))) in
                          let totalTime := Since W client in
                          let working :=
                            (totalTime <? 2 * Second) && negb (String.eqb proxyIP "") in
                          (working, proxyIP, totalTime, isAnonymous, Some location)
                      end
                  end
          end
      end.

(** The shared effects of one check, in program order.  Each is one
    atomic step of its goroutine: a send on [ResultChan], or a call of
    [updateProgress] (atomic because of [progressMu]). *)
Inductive effect : Type :=
| Send (result : CheckResult)
| UpdateProgress (proxyType : ProxyType) (working : bool).

(** The [transport] and [client] that [checkHTTPProxy] builds. *)
Definition HTTP_client (proxyStr : string) : Client :=
  {| via := ProxyTypeHTTP; address := proxyStr;
     DialTimeout := CheckerConfig.ConnectTimeout (Checker config);
     TLSHandshakeTimeout := CheckerConfig.ConnectTimeout (Checker config);
     ResponseHeaderTimeout := CheckerConfig.Timeout (Checker config);
     ClientTimeout := CheckerConfig.Timeout (Checker config) |}.

(** The [transport] and [client] that [checkSOCKS5Proxy] builds; the
    connect timeout is the one of the dialer given to [proxy.SOCKS5]. *)
Definition SOCKS5_client (proxyStr : string) : Client :=
  {| via := ProxyTypeSOCKS5; address := proxyStr;
     DialTimeout := CheckerConfig.ConnectTimeout (Checker config);
     TLSHandshakeTimeout := CheckerConfig.ConnectTimeout (Checker config);
     ResponseHeaderTimeout := CheckerConfig.Timeout (Checker config);
     ClientTimeout := CheckerConfig.Timeout (Checker config) |}.

Definition checkHTTPProxy (proxyStr : string) : list effect * CheckResult :=
  if negb (url_Parse_ok W proxyStr) then
    ([UpdateProgress ProxyTypeHTTP false],
     {| Proxy := proxyStr; Working := false; Type_ := ProxyTypeHTTP;
        ProxyIP := ""; Speed := 0; Anonymous := false; Location := None |})
  else
    let client := HTTP_client proxyStr in
    let '(working, proxyIP, speed, anonymous, location) := testProxy client in
    let result :=
      {| Proxy := proxyStr; Working := working; Type_ := ProxyTypeHTTP;
         ProxyIP := proxyIP; Speed := speed; Anonymous := anonymous;
         Location := location |} in
    ([Send result; UpdateProgress ProxyTypeHTTP working], result).

Definition checkSOCKS5Proxy (proxyStr : string) : list effect * CheckResult :=
  if negb (SOCKS5_ok W proxyStr) then
    ([UpdateProgress ProxyTypeSOCKS5 false],
     {| Proxy := proxyStr; Working := false; Type_ := ProxyTypeSOCKS5;
        ProxyIP := ""; Speed := 0; Anonymous := false; Location := None |})
  else
    let client := SOCKS5_client proxyStr in
    let '(working, proxyIP, speed, anonymous, location) := testProxy client in
    let result :=
      {| Proxy := proxyStr; Working := working; Type_ := ProxyTypeSOCKS5;
         ProxyIP := proxyIP; Speed := speed; Anonymous := anonymous;
         Location := location |} in
    ([Send result; UpdateProgress ProxyTypeSOCKS5 working], result).

Definition formatProxyOutput (result : CheckResult) : string :=
  if negb (CheckerConfig.StrictCheck (Checker config))
     || negb (CheckerConfig.DetailedOutput (Checker config))
  then Proxy result
  else
    (* Format: proxy|ip|country|city|speed|anonymous *)
    let speed := RoundMillisecondString W (Speed result) in
    let anonymous := if Anonymous result then "Yes" else "No" in
    let location :=
      match Location result with
      | Some l =>
          if negb (String.eqb (ProxyLocation.City l) "")
          then ProxyLocation.City l +:+ ", " +:+ ProxyLocation.Country l
          else ProxyLocation.Country l
      | None => "Unknown"
      end in
    Proxy result +:+ "|" +:+ ProxyIP result +:+ "|" +:+ location +:+ "|"
      +:+ speed +:+ "|" +:+ anonymous.

(** *** [CheckProxies]: the goroutines and their interleavings *)

(** The atomic steps of one checking goroutine. *)
Inductive op : Type :=
| Acquire (proxyType : ProxyType)              (* sem <- struct{}{} *)
| Eff (e : effect)
| AppendLine (proxyType : ProxyType) (line : string)
| Release (proxyType : ProxyType).             (* <-sem, deferred *)

(** The body of [go func(p string) { ... }(proxy)] for one candidate. *)
Definition goroutine (proxyType : ProxyType) (p : string) : list op :=
  let '(effects, result) :=
    match proxyType with
    | ProxyTypeHTTP => checkHTTPProxy p
    | ProxyTypeSOCKS5 => checkSOCKS5Proxy p
    end in
  [Acquire proxyType]
  ++ (Eff <$> effects)
  ++ (if Working result then [AppendLine proxyType (formatProxyOutput result)] else [])
  ++ [Release proxyType].

(** A run of [CheckProxies]: the checker, the slots taken in the two
    semaphores, the lines that [out/http.txt] and [out/socks5.txt] have
    been given (the lines of the files as long as every write succeeds),
    what is left to do of every goroutine, and the results that the
    consumer of [ResultChan] (the loop [for result := range
    checker.ResultChan] of [main]) has received. *)
Record Run : Type := {
  checker : ProxyChecker;
  semHTTP : Z;
  semSOCKS5 : Z;
  outHTTP : list string;
  outSOCKS5 : list string;
  goroutines : list (list op);
  received : list CheckResult
}.

(** Who takes the next step: a checking goroutine, by its index in
    start order, or the consumer of [ResultChan]. *)
Inductive actor : Type :=
| Worker (i : nat)
| Consumer.

Definition with_checker (c : ProxyChecker) (r : Run) : Run :=
  {| checker := c; semHTTP := semHTTP r; semSOCKS5 := semSOCKS5 r;
     outHTTP := outHTTP r; outSOCKS5 := outSOCKS5 r;
     goroutines := goroutines r; received := received r |}.

Definition with_ResultChan (q : list CheckResult) (c : ProxyChecker) : ProxyChecker :=
  {| ResultChan := q; closed := closed c;
     checkedHTTP := checkedHTTP c; checkedSOCKS5 := checkedSOCKS5 c;
     workingHTTP := workingHTTP c; workingSOCKS5 := workingSOCKS5 c;
     totalHTTP := totalHTTP c; totalSOCKS5 := totalSOCKS5 c |}.

(** One atomic step of a goroutine on the shared state; [None] when the
    step cannot be taken now (a full semaphore, a full channel) or
    panics (a send on a closed channel).  A write to an output file that
    fails is only logged and changes nothing else in the run: [outHTTP]
    and [outSOCKS5] record the line that [AppendLine] is called with,
    and what the call leaves in the file is [Files.AppendLine]. *)
Definition perform (o : op) (r : Run) : option Run :=
  match o with
  | Acquire ProxyTypeHTTP =>
      if semHTTP r <? CheckerConfig.ConcurrentHTTP (Checker config) then
        Some {| checker := checker r; semHTTP := semHTTP r + 1; semSOCKS5 := semSOCKS5 r;
                outHTTP := outHTTP r; outSOCKS5 := outSOCKS5 r;
                goroutines := goroutines r; received := received r |}
      else None
  | Acquire ProxyTypeSOCKS5 =>
      if semSOCKS5 r <? CheckerConfig.ConcurrentSOCKS5 (Checker config) then
        Some {| checker := checker r; semHTTP := semHTTP r; semSOCKS5 := semSOCKS5 r + 1;
                outHTTP := outHTTP r; outSOCKS5 := outSOCKS5 r;
                goroutines := goroutines r; received := received r |}
      else None
  | Release ProxyTypeHTTP =>
      Some {| checker := checker r; semHTTP := semHTTP r - 1; semSOCKS5 := semSOCKS5 r;
              outHTTP := outHTTP r; outSOCKS5 := outSOCKS5 r;
              goroutines := goroutines r; received := received r |}
  | Release ProxyTypeSOCKS5 =>
      Some {| checker := checker r; semHTTP := semHTTP r; semSOCKS5 := semSOCKS5 r - 1;
              outHTTP := outHTTP r; outSOCKS5 := outSOCKS5 r;
              goroutines := goroutines r; received := received r |}
  | Eff (Send result) =>
      if negb (closed (checker r))
         && (length (ResultChan (checker r)) <? ResultChan_cap)%nat then
        Some (with_checker
                (with_ResultChan (ResultChan (checker r) ++ [result]) (checker r)) r)
      else None
  | Eff (UpdateProgress proxyType working) =>
      Some (with_checker (updateProgress proxyType working (checker r)) r)
  | AppendLine ProxyTypeHTTP line =>
      Some {| checker := checker r; semHTTP := semHTTP r; semSOCKS5 := semSOCKS5 r;
              outHTTP := outHTTP r ++ [line]; outSOCKS5 := outSOCKS5 r;
              goroutines := goroutines r; received := received r |}
  | AppendLine ProxyTypeSOCKS5 line =>
      Some {| checker := checker r; semHTTP := semHTTP r; semSOCKS5 := semSOCKS5 r;
              outHTTP := outHTTP r; outSOCKS5 := outSOCKS5 r ++ [line];
              goroutines := goroutines r; received := received r |}
  end.

Definition with_goroutines (gs : list (list op)) (r : Run) : Run :=
  {| checker := checker r; semHTTP := semHTTP r; semSOCKS5 := semSOCKS5 r;
     outHTTP := outHTTP r; outSOCKS5 := outSOCKS5 r;
     goroutines := gs; received := received r |}.

Definition step (a : actor) (r : Run) : option Run :=
  match a with
  | Worker i =>
      match goroutines r !! i with
      | Some (o :: rest) =>
          r' ← perform o r;
          Some (with_goroutines (<[i := rest]> (goroutines r')) r')
      | _ => None
      end
  | Consumer =>
      match ResultChan (checker r) with
      | result :: q =>
          Some {| checker := with_ResultChan q (checker r);
                  semHTTP := semHTTP r; semSOCKS5 := semSOCKS5 r;
                  outHTTP := outHTTP r; outSOCKS5 := outSOCKS5 r;
                  goroutines := goroutines r;
                  received := received r ++ [result] |}
      | [] => None
      end
  end.

(** The steps of a schedule, one after the other. *)
Fixpoint exec (schedule : list actor) (r : Run) : option Run :=
  match schedule with
  | [] => Some r
  | a :: schedule' => r' ← step a r; exec schedule' r'
  end.

Definition header : string := "Proxy|IP|Location|Response Time|Anonymous".

(** [CheckProxies] up to [wg.Wait()]: the totals are set, [WriteFile] is
    called with the header row for both output files when detailed
    output is on (what the call leaves in the file is
    [Files.WriteFile]), and one goroutine per candidate is started, the
    HTTP ones first.  [files] are the lines of the two output files at
    the call. *)
Definition start (c : ProxyChecker) (files : list string * list string)
    (httpProxies socks5Proxies : list string) : Run :=
  let detailed :=
    CheckerConfig.StrictCheck (Checker config)
    && CheckerConfig.DetailedOutput (Checker config) in
  {| checker :=
       {| ResultChan := ResultChan c; closed := closed c;
          checkedHTTP := checkedHTTP c; checkedSOCKS5 := checkedSOCKS5 c;
          workingHTTP := workingHTTP c; workingSOCKS5 := workingSOCKS5 c;
          totalHTTP := Z.of_nat (length httpProxies);
          totalSOCKS5 := Z.of_nat (length socks5Proxies) |};
     semHTTP := 0; semSOCKS5 := 0;
     outHTTP := if detailed then [header] else files.1;
     outSOCKS5 := if detailed then [header] else files.2;
     goroutines := (goroutine ProxyTypeHTTP <$> httpProxies)
                   ++ (goroutine ProxyTypeSOCKS5 <$> socks5Proxies);
     received := [] |}.

(** [wg.Wait()] returns when every goroutine has run to its end. *)
Definition all_done (r : Run) : bool :=
  forallb (fun g => bool_decide (g = [])) (goroutines r).

(** [CheckProxies] under a schedule: the state at its return, after
    [close(c.ResultChan)].  [None] when it does not return under this
    schedule: [make] panics on a negative semaphore size, a scheduled
    step cannot be taken, or goroutines are left unfinished. *)
Definition CheckProxies (schedule : list actor) (c : ProxyChecker)
    (files : list string * list string)
    (httpProxies socks5Proxies : list string) : option Run :=
  if (CheckerConfig.ConcurrentHTTP (Checker config) <? 0)
     || (CheckerConfig.ConcurrentSOCKS5 (Checker config) <? 0) then None
  else
    match exec schedule (start c files httpProxies socks5Proxies) with
    | Some r =>
        if all_done r && negb (closed (checker r)) then
          Some (with_checker
                  {| ResultChan := ResultChan (checker r); closed := true;
                     checkedHTTP := checkedHTTP (checker r);
                     checkedSOCKS5 := checkedSOCKS5 (checker r);
                     workingHTTP := workingHTTP (checker r);
                     workingSOCKS5 := workingSOCKS5 (checker r);
                     totalHTTP := totalHTTP (checker r);
                     totalSOCKS5 := totalSOCKS5 (checker r) |} r)
        else None
    | None => None
    end.

(** Everything sent on [ResultChan] so far, oldest first. *)
Definition published (r : Run) : list CheckResult :=
  received r ++ ResultChan (checker r).

End Checking.

(** ** [net/http]: what [client.Do] does with the GET of a check *)

(** Neither check sets [CheckRedirect] or a cookie jar on its client, so
    [Do] is the one of Go 1.24 with the default policy: it follows
    redirects, up to ten requests, and [Timeout], when positive, limits
    the time of the whole call. *)

(** One round trip of the transport for a GET that nothing cancels: an
    error (the dial, the TLS handshake or the wait for the response
    headers failed or ran into a time limit of the transport), or an
    answer: the time after which the client has it, in nanoseconds (the
    headers and, for a redirect that is followed, the start of the body
    that [Do] discards before it goes on), its status code, its Location
    header (empty when there is none), and what [io.ReadAll] gives on
    its body with the time that the client's timer has left ([None]:
    no timer). *)
Inductive round_trip : Type :=
| TransportError
| Answer (elapsed : N) (StatusCode : Z) (Location : string)
    (body : option Duration → read_outcome).

(** The network behind the candidate proxies. *)
Record Network : Type := {
  (** [RoundTrip] for the GET of a URL through the transport of a
      client, after the requests for [via] (the earlier requests of the
      same [Do], oldest first) *)
  RoundTrip : Client → list string → string → round_trip;
  (** [req.URL.Parse(loc)]: the Location header of a response, resolved
      against the URL of its request; [None] for one that does not
      parse *)
  URL_Parse : string → string → option string
}.

(** [redirectBehavior] for a GET without body. *)
Definition shouldRedirect (StatusCode : Z) : bool :=
  (StatusCode =? 301) || (StatusCode =? 302) || (StatusCode =? 303)
  || (StatusCode =? 307) || (StatusCode =? 308).

(** [c.deadline()]: the time that the client's timer leaves to a call of
    [Do]; "A Timeout of zero means no timeout", and so does a negative
    one ([if c.Timeout > 0]). *)
Definition deadline (client : Client) : option Duration :=
  if 0 <? ClientTimeout client then Some (ClientTimeout client) else None.

(** Something that takes [elapsed] ends before a timer with [left] on it
    fires. *)
Definition in_time (left : option Duration) (elapsed : N) : bool :=
  match left with
  | Some d => Z.of_N elapsed <? d
  | None => true
  end.

(** What is left on the timer after [elapsed]. *)
Definition time_left (left : option Duration) (elapsed : N) : option Duration :=
  (λ d, d - Z.of_N elapsed) <$> left.

Section Client.

Variable net : Network.
Variable client : Client.

(** The loop of [c.do]: send the request; return the response unless it
    is a redirect with a Location header; otherwise resolve the header
    and go on with the request for it, which [defaultCheckRedirect]
    refuses when ten requests have been made ([allowed] counts the
    requests that it still lets through).  The timer of the client runs
    from the start of the call: a response that is not there when it
    fires is an error. *)
Fixpoint Client_do (allowed : nat) (left : option Duration) (via : list string)
    (url : string) : do_outcome :=
  match allowed with
  | O => DoError                       (* "stopped after 10 redirects" *)
  | S allowed' =>
      match RoundTrip net client via url with
      | TransportError => DoError
      | Answer elapsed StatusCode Location body =>
          if negb (in_time left elapsed) then DoError   (* Client.Timeout exceeded *)
          else
            let left' := time_left left elapsed in
            if negb (shouldRedirect StatusCode) then Response StatusCode (body left')
            else if String.eqb Location "" then Response StatusCode (body left')
            else
              match URL_Parse net url Location with
              | None => DoError        (* "failed to parse Location header" *)
              | Some u => Client_do allowed' left' (via ++ [url]) u
              end
      end
  end.

(** [client.Do(req)] for the GET request of a URL. *)
Definition Client_Do (url : string) : do_outcome :=
  Client_do 10 (deadline client) [] url.

End Client.

(** The world in which the requests of the checks go over a network:
    its [Do] is the one of [net/http]. *)
Definition served_by (net : Network) (W : World) : World :=
  {| url_Parse_ok := url_Parse_ok W;
     SOCKS5_ok := SOCKS5_ok W;
     NewRequest_ok := NewRequest_ok W;
     Do := Client_Do net;
     Since := Since W;
     Unmarshal_ipData := Unmarshal_ipData W;
     Unmarshal_headers := Unmarshal_headers W;
     RoundMillisecondString := RoundMillisecondString W |}.

(** ** The rest of the scraper: [truncateURL] *)

(** [url[:maxLength-3] + "..."]: the slice expression panics when its
    bound is negative or beyond [len(url)]; [None] is that panic. *)
Definition truncateURL (url : string) (maxLength : Z) : option string :=
  if Z.of_nat (String.length url) <=? maxLength then Some url
  else
    let high := wrap64 (maxLength - 3) in
    if (high <? 0) || (Z.of_nat (String.length url) <? high) then None
    else Some (take (Z.to_nat high) url +:+ "...").

(** ** White space and lines, as [strings] and [bufio] see them *)

Module GoText.

(** The line feed, as a byte and as a string. *)
Definition LF : ascii := "010".
Definition newline : string := String LF "".

(** The white space of ASCII: tab, line feed, vertical tab, form feed,
    carriage return and space. *)
Definition asciiSpace (c : ascii) : bool :=
  let n := N_of_ascii c in
  ((9 <=? n)%N && (n <=? 13)%N) || (n =? 32)%N.

(** The white space beyond ASCII, in UTF-8: U+0085 and U+00A0 take two
    bytes; U+1680, U+2000 to U+200A, U+2028, U+2029, U+202F, U+205F and
    U+3000 take three. *)
Definition space2 (c0 c1 : ascii) : bool :=
  let '(a, b) := (N_of_ascii c0, N_of_ascii c1) in
  (a =? 194)%N && ((b =? 133)%N || (b =? 160)%N).

Definition space3 (c0 c1 c2 : ascii) : bool :=
  let '(a, b, c) := (N_of_ascii c0, N_of_ascii c1, N_of_ascii c2) in
  ((a =? 225)%N && (b =? 154)%N && (c =? 128)%N)
  || ((a =? 226)%N && (b =? 128)%N
      && (((128 <=? c)%N && (c <=? 138)%N) || (c =? 168)%N || (c =? 169)%N || (c =? 175)%N))
  || ((a =? 226)%N && (b =? 129)%N && (c =? 159)%N)
  || ((a =? 227)%N && (b =? 128)%N && (c =? 128)%N).

(** The bytes of [l] from its first rune on that is no white space
    ([unicode.IsSpace]).  With [backwards] the bytes of [l] come last
    byte first, as [strings.TrimRightFunc] walks them; bytes that are no
    valid UTF-8 are no white space either way. *)
Fixpoint skipSpace (backwards : bool) (l : list ascii) : list ascii :=
  match l with
  | c0 :: l1 =>
      if asciiSpace c0 then skipSpace backwards l1
      else
        match l1 with
        | c1 :: l2 =>
            if (if backwards then space2 c1 c0 else space2 c0 c1)
            then skipSpace backwards l2
            else
              match l2 with
              | c2 :: l3 =>
                  if (if backwards then space3 c2 c1 c0 else space3 c0 c1 c2)
                  then skipSpace backwards l3
                  else l
              | [] => l
              end
        | [] => l
        end
  | [] => []
  end.

(** [strings.TrimSpace(s)]: [s] without the white space at its two ends. *)
Definition TrimSpace (s : string) : string :=
  string_of_list_ascii
    (reverse (skipSpace true (reverse (skipSpace false (list_ascii_of_string s))))).

(** [dropCR] of [bufio]: without one carriage return at the end. *)
Fixpoint dropCR (data : string) : string :=
  match data with
  | String c EmptyString => if Ascii.eqb c "013" then "" else data
  | String c data' => String c (dropCR data')
  | EmptyString => ""
  end.

(** [bufio.MaxScanTokenSize] *)
Definition MaxScanTokenSize : Z := 64 * 1024.

(** The lines that [bufio.ScanLines] cuts a text into, before [dropCR]:
    the pieces between the line feeds, without the last piece when it is
    empty (the text is empty or ends with a line feed). *)
Definition rawLines (text : string) : list string :=
  let pieces := Split text LF in
  if String.eqb (List.last pieces "") "" then removelast pieces else pieces.

(** All calls of [scanner.Scan()] and [scanner.Text()] on a reader of
    [text], followed by [scanner.Err()]: the lines, or [None] for
    [bufio.ErrTooLong], which a line of [MaxScanTokenSize] bytes or more
    before its line feed causes. *)
Definition Scan (text : string) : option (list string) :=
  let raw := rawLines text in
  if forallb (λ line, Z.of_nat (String.length line) <? MaxScanTokenSize) raw
  then Some (dropCR <$> raw)
  else None.

End GoText.
Import GoText.

(** ** The file system, as [os] shows it to the program *)

Module os.

(** The files that exist with their contents, the paths that cannot be
    opened (for want of permission or of the directory), and the number
    of bytes that can still be written before the device is full. *)
Record FS : Type := {
  files : gmap string string;
  denied : gset string;
  room : nat
}.

(** [os.Open(name)] followed by reading the file to its end. *)
Definition Open (fs : FS) (name : string) : option string :=
  if decide (name ∈ denied fs) then None else files fs !! name.

(** [os.Create(name)], also the opening of [os.WriteFile]: the file
    exists and is empty afterwards. *)
Definition Create (fs : FS) (name : string) : option FS :=
  if decide (name ∈ denied fs) then None
  else Some {| files := <[name := ""]> (files fs);
               denied := denied fs;
               room := room fs + String.length (default "" (files fs !! name)) |}.

(** [os.OpenFile(name, os.O_APPEND|os.O_CREATE|os.O_WRONLY, 0644)] *)
Definition OpenFile_append (fs : FS) (name : string) : option FS :=
  if decide (name ∈ denied fs) then None
  else Some {| files := <[name := default "" (files fs !! name)]> (files fs);
               denied := denied fs;
               room := room fs |}.

(** [file.WriteString(s)] on the open file [name], whose writes go to
    its end: when the device has no room for all of [s], the bytes that
    fit are written and the error is not nil ([false]). *)
Definition WriteString (fs : FS) (name s : string) : FS * bool :=
  let old := default "" (files fs !! name) in
  if (String.length s <=? room fs)%nat then
    ({| files := <[name := old +:+ s]> (files fs);
        denied := denied fs;
        room := room fs - String.length s |}, true)
  else
    ({| files := <[name := old +:+ take (room fs) s]> (files fs);
        denied := denied fs;
        room := 0 |}, false).

End os.
Import os.

(** ** The file helpers of utils.go *)

Module Files.

(** [ReadLines]: [None] is the pair of [nil] and a non-nil error. *)
Definition ReadLines (fs : FS) (path : string) : option (list string) :=
  match Open fs path with
  | None => None
  | Some text =>
      match Scan text with
      | Some texts =>
          Some (foldl (λ lines text,
                         let line := TrimSpace text in
                         if negb (String.eqb line "") && negb (HasPrefix line "#")
                         then lines ++ [line] else lines)
                      [] texts)
      | None => None
      end
  end.

(** The loop of [WriteLines] on the created file. *)
Fixpoint WriteLines_loop (fs : FS) (path : string) (lines : list string) : FS * bool :=
  match lines with
  | [] => (fs, true)
  | line :: lines' =>
      let '(fs', ok) := WriteString fs path (line +:+ newline) in
      if ok then WriteLines_loop fs' path lines' else (fs', false)
  end.

(** [WriteLines]: the file system afterwards, and whether the error
    returned is nil. *)
Definition WriteLines (fs : FS) (path : string) (lines : list string) : FS * bool :=
  match Create fs path with
  | None => (fs, false)
  | Some fs' => WriteLines_loop fs' path lines
  end.

(** [AppendLine], from [mu.Lock()] to the deferred [mu.Unlock()]. *)
Definition AppendLine (fs : FS) (path line : string) : FS * bool :=
  match OpenFile_append fs path with
  | None => (fs, false)
  | Some fs' => WriteString fs' path (line +:+ newline)
  end.

(** [WriteFile]: [os.WriteFile(path, []byte(content+"\n"), 0644)] *)
Definition WriteFile (fs : FS) (path content : string) : FS * bool :=
  match Create fs path with
  | None => (fs, false)
  | Some fs' => WriteString fs' path (content +:+ newline)
  end.

End Files.

(** ** [ProgressBar] of utils.go *)

Section Bars.

(** [int(f)] for a [float64] whose integer part does not fit [int], or
    that is no number: Go leaves the result to the implementation. *)
Variable int_out_of_range : float → Z.

(** [float64(n)]: the nearest [float64], ties to even. *)
Definition float64_of_int (n : Z) : float := SF2Prim (binary_normalize 53 1024 n 0 false).

(** [int(f)]: the fraction is discarded. *)
Definition int_of_float64 (f : float) : Z :=
  match Prim2SF f with
  | S754_zero _ => 0
  | S754_finite s m e =>
      let magnitude := if 0 <=? e then Z.pos m * 2 ^ e else Z.pos m / 2 ^ (- e) in
      let z := if s then - magnitude else magnitude in
      if (- 2 ^ 63 <=? z) && (z <? 2 ^ 63) then z else int_out_of_range f
  | _ => int_out_of_range f
  end.

(** The two cells of a bar, U+2588 and U+2591 in UTF-8. *)
Definition fullCell : string := String "226" (String "150" (String "136" "")).
Definition emptyCell : string := String "226" (String "150" (String "145" "")).

Definition ProgressBar (percentage : float) (width : Z) : string :=
  let filled := int_of_float64 (PrimFloat.mul (PrimFloat.div percentage 100%float)
                                              (float64_of_int width)) in
  let filled := if width <? filled then width else filled in
  let bar := "[" in
  let bar :=
    foldl (λ bar i, if i <? filled then bar +:+ fullCell else bar +:+ emptyCell)
          bar (seqZ 0 width) in
  bar +:+ "]".

End Bars.

(** ** The scraper: [ScrapeProxies] *)

(** The sources as the scraper sees them. *)
Record Web : Type := {
  (** [http.NewRequest("GET", url, nil)] returns a nil error *)
  Request_ok : string → bool;
  (** [client.Do(req)] and [io.ReadAll(resp.Body)] for the GET of a URL,
      sent with a User-Agent header by a client with a [Timeout] *)
  Get : Duration → string → string → do_outcome
}.

Section Scraping.

Variable Unmarshal : string → option ProxyData.
Variable web : Web.

(** "Split response by newlines and filter valid proxies" *)
Definition localProxies (body : string) : list string :=
  foldl (λ localProxies line,
           let proxy := TrimSpace line in
           let '(normalized, ok) := isValidProxy Unmarshal proxy in
           if ok then localProxies ++ [normalized] else localProxies)
        [] (Split body LF).

(** The atomic steps of one scraping goroutine. *)
Inductive scrape_op : Type :=
| Take                                   (* semaphore <- struct{}{} *)
| DivideByZero                           (* i%len(userAgents) with no user agent *)
| Collect (localProxies : list string)   (* from mu.Lock() to mu.Unlock() *)
| Give.                                  (* <-semaphore, deferred *)

(** The body of [go func(i int, url string) { ... }(i, url)]. *)
Definition scraper (userAgents : list string) (timeout : Duration)
    (i : nat) (url : string) : list scrape_op :=
  [Take]
  ++ (if negb (Request_ok web url) then []
      else if (length userAgents =? 0)%nat then [DivideByZero]
      else
        (* Rotate user agents *)
        let userAgent := default "" (userAgents !! (i mod length userAgents)%nat) in
        match Get web timeout url userAgent with
        | DoError => []
        | Response _ ReadError => []
        | Response _ (Body body) => [Collect (localProxies body)]
        end)
  ++ [Give].

(** A run of [ScrapeProxies]: the variables shared under [mu], the slots
    taken in the semaphore and what is left to do of every goroutine. *)
Record Scrape : Type := {
  proxies : list string;
  completedURLs : Z;
  totalFound : Z;
  semaphore : Z;
  scrapers : list (list scrape_op)
}.

(** One atomic step of a goroutine; [None] when the step blocks (a full
    semaphore) or panics. *)
Definition scrape_perform (concurrent : Z) (o : scrape_op) (st : Scrape) : option Scrape :=
  match o with
  | Take =>
      if semaphore st <? concurrent then
        Some {| proxies := proxies st; completedURLs := completedURLs st;
                totalFound := totalFound st; semaphore := semaphore st + 1;
                scrapers := scrapers st |}
      else None
  | DivideByZero => None
  | Collect localProxies =>
      let proxies' := proxies st ++ localProxies in
      Some {| proxies := proxies';
              completedURLs := wrap64 (completedURLs st + 1);
              totalFound := Z.of_nat (length proxies');
              semaphore := semaphore st;
              scrapers := scrapers st |}
  | Give =>
      Some {| proxies := proxies st; completedURLs := completedURLs st;
              totalFound := totalFound st; semaphore := semaphore st - 1;
              scrapers := scrapers st |}
  end.

(** The next step of goroutine [i]. *)
Definition scrape_step (concurrent : Z) (i : nat) (st : Scrape) : option Scrape :=
  match scrapers st !! i with
  | Some (o :: rest) =>
      st' ← scrape_perform concurrent o st;
      Some {| proxies := proxies st'; completedURLs := completedURLs st';
              totalFound := totalFound st'; semaphore := semaphore st';
              scrapers := <[i := rest]> (scrapers st') |}
  | _ => None
  end.

Fixpoint scrape_exec (concurrent : Z) (schedule : list nat) (st : Scrape) : option Scrape :=
  match schedule with
  | [] => Some st
  | i :: schedule' => st' ← scrape_step concurrent i st; scrape_exec concurrent schedule' st'
  end.

(** [ScrapeProxies] under a schedule of its goroutines: the proxies
    returned after [wg.Wait()], or [None] when it does not return under
    this schedule: [make] panics on a negative size, a goroutine panics,
    a scheduled step blocks, or goroutines are left unfinished.  The
    goroutine that displays the progress only reads the shared variables
    and is left out, as is the [proxyType] that it prints. *)
Definition ScrapeProxies (schedule : list nat) (urls userAgents : list string)
    (timeout : Duration) (concurrent : Z) : option (list string) :=
  if concurrent <? 0 then None
  else
    match scrape_exec concurrent schedule
            {| proxies := []; completedURLs := 0; totalFound := 0; semaphore := 0;
               scrapers := imap (scraper userAgents timeout) urls |} with
    | Some st =>
        if forallb (λ g, bool_decide (g = [])) (scrapers st) then Some (proxies st)
        else None
    | None => None
    end.

End Scraping.

(** ** [main]: the candidates of a run *)

(** [main] for one family, from "Read existing proxies" to "Remove
    duplicates": [scraped] is what [ScrapeProxies] returned and [path]
    is the family's output file, [out/http.txt] or [out/socks5.txt]. *)
Definition main_candidates (fs : FS) (path : string) (scraped : list string) : list string :=
  (* existing, _ := src.ReadLines(path) *)
  let existing := default [] (Files.ReadLines fs path) in
  let proxies := if (0 <? length existing)%nat then scraped ++ existing else scraped in
  RemoveDuplicates proxies.

(** * The vocabulary of the properties *)

(** ** Patterns and addresses *)

(** Every byte of [w] is in the class [k]. *)
Fixpoint all_in (k : cclass) (w : string) : bool :=
  match w with
  | EmptyString => true
  | String c w' => cmatch k c && all_in k w'
  end.

(** [n] respects the upper bound of a repetition, if it has one. *)
Definition bounded (hi : option nat) (n : nat) : Prop :=
  match hi with
  | Some h => (n ≤ h)%nat
  | None => True
  end.

(** The words of a pattern. *)
Inductive matches : regex → string → Prop :=
| matches_Chr k c :
    cmatch k c = true → matches (Chr k) (String c "")
| matches_Rep k lo hi w :
    all_in k w = true → (lo ≤ String.length w)%nat → bounded hi (String.length w) →
    matches (Rep k lo hi) w
| matches_Cat r1 r2 w1 w2 :
    matches r1 w1 → matches r2 w2 → matches (Cat r1 r2) (w1 +:+ w2)
| matches_Group r w :
    matches r w → matches (Group r) w.

(** The words of a pattern with the texts of its groups, in the order in
    which the groups close. *)
Inductive captures : regex → string → list string → Prop :=
| captures_Chr k c :
    cmatch k c = true → captures (Chr k) (String c "") []
| captures_Rep k lo hi w :
    all_in k w = true → (lo ≤ String.length w)%nat → bounded hi (String.length w) →
    captures (Rep k lo hi) w []
| captures_Cat r1 r2 w1 w2 c1 c2 :
    captures r1 w1 c1 → captures r2 w2 c2 →
    captures (Cat r1 r2) (w1 +:+ w2) (c1 ++ c2)
| captures_Group r w c :
    captures r w c → captures (Group r) w (c ++ [w]).

(** The number of groups of a pattern. *)
Fixpoint groups (r : regex) : nat :=
  match r with
  | Chr _ | Rep _ _ _ => 0
  | Cat r1 r2 => groups r1 + groups r2
  | Group r' => S (groups r')
  end.

(** One group of a dotted quad: one to three ASCII digits. *)
Definition group (g : string) : Prop :=
  all_digits g = true ∧ (1 ≤ String.length g ≤ 3)%nat.

(** Four groups separated by dots. *)
Definition is_quad (w : string) : Prop :=
  ∃ a b c d, w = a +:+ "." +:+ b +:+ "." +:+ c +:+ "." +:+ d
             ∧ group a ∧ group b ∧ group c ∧ group d.

(** [w] occurs in [s]. *)
Definition occurs_in (w s : string) : Prop :=
  ∃ pre post, s = pre +:+ w +:+ post.

(** No byte of [s] is a colon. *)
Fixpoint no_colon (s : string) : bool :=
  match s with
  | EmptyString => true
  | String c s' => negb (Ascii.eqb c ":") && no_colon s'
  end.

(** The digits at the head of [s], at most [n] of them. *)
Fixpoint digit_prefix (n : nat) (s : string) : string :=
  match n, s with
  | S n', String c s' => if is_digit c then String c (digit_prefix n' s') else ""
  | _, _ => ""
  end.

(** From the first digit of [s] on, its digits up to five of them; empty
    when [s] has no digit. *)
Fixpoint first_digits (s : string) : string :=
  match s with
  | EmptyString => ""
  | String c s' => if is_digit c then digit_prefix 5 s else first_digits s'
  end.

(** ** Test inputs *)

(** JSON test inputs are written with single quotes in place of the
    double quotes: [jq "{'ip':'x'}"] is the text [{"ip":"x"}]. *)
Definition jq (s : string) : string :=
  string_of_list_ascii
    ((λ c, if Ascii.eqb c "'" then "034"%char else c) <$> list_ascii_of_string s).

(** ** Lists *)

(** The position of the first occurrence of [x] in [l] (the length of
    [l] when there is none). *)
Fixpoint first_index (x : string) (l : list string) : nat :=
  match l with
  | [] => 0
  | y :: l' => if decide (y = x) then 0 else S (first_index x l')
  end.

(** ** The probes seen from outside *)

(** The first result of [testProxy]: [working]. *)
Definition working_of (p : probe) : bool := p.1.1.1.1.

(** Step (a) of the strict check seen from outside: the answer of the
    geolocation endpoint through the client, when the request is built
    and made, the body is read and decodes as JSON, and the status in it
    is "success". *)
Definition geolocation (W : World) (client : Client) : option IpData.t :=
  if NewRequest_ok W "http://ip-api.com/json" then
    match Do W client "http://ip-api.com/json" with
    | Response _ (Body body) =>
        match Unmarshal_ipData W body with
        | Some ipData =>
            if String.eqb (IpData.Status ipData) "success" then Some ipData else None
        | None => None
        end
    | _ => None
    end
  else None.

(** Step (b): the headers echoed through the client, when the request is
    built and made, the body is read and decodes as JSON. *)
Definition echoed_headers (W : World) (client : Client) : option HeadersData :=
  if NewRequest_ok W "https://httpbin.org/headers" then
    match Do W client "https://httpbin.org/headers" with
    | Response _ (Body body) => Unmarshal_headers W body
    | _ => None
    end
  else None.

(** The request of the basic check is built, and [client.Do] returns a
    response with status 200 for it. *)
Definition test_URL_OK (W : World) (config : Config) (client : Client) : Prop :=
  NewRequest_ok W (CheckerConfig.TestURL (Checker config)) = true
  ∧ ∃ body, Do W client (CheckerConfig.TestURL (Checker config)) = Response 200 body.

(** The client of the check of candidate [p] of family [t], as the
    specification describes it: it goes through the candidate, with the
    configured connect timeout for the dial and the TLS handshake and
    the configured timeout for the response headers and for the request
    as a whole. *)
Definition client_of (config : Config) (t : ProxyType) (p : string) : Client :=
  {| via := t; address := p;
     DialTimeout := CheckerConfig.ConnectTimeout (Checker config);
     TLSHandshakeTimeout := CheckerConfig.ConnectTimeout (Checker config);
     ResponseHeaderTimeout := CheckerConfig.Timeout (Checker config);
     ClientTimeout := CheckerConfig.Timeout (Checker config) |}.

(** The basic check as the specification words it: the single GET of
    the test URL is answered with status 200 in less than the configured
    timeout. *)
Definition single_GET_200 (net : Network) (config : Config) (client : Client) : Prop :=
  ∃ elapsed loc body,
    RoundTrip net client [] (CheckerConfig.TestURL (Checker config))
      = Answer elapsed 200 loc body
    ∧ Z.of_N elapsed < CheckerConfig.Timeout (Checker config).

(** [GETs net client via url total code]: the GET of [url], made after
    the requests for [via], and the GETs that redirects lead to from
    there, ten requests at most with those for [via], are all answered,
    the last one after [total] nanoseconds in all with status [code] and
    nothing to follow: no redirect status, or no Location header. *)
Inductive GETs (net : Network) (client : Client) :
    list string → string → N → Z → Prop :=
| GETs_last via url elapsed code loc body :
    RoundTrip net client via url = Answer elapsed code loc body →
    shouldRedirect code = false ∨ loc = "" →
    GETs net client via url elapsed code
| GETs_redirect via url elapsed code loc body u total code' :
    RoundTrip net client via url = Answer elapsed code loc body →
    shouldRedirect code = true →
    loc ≠ "" →
    URL_Parse net url loc = Some u →
    (length via < 9)%nat →
    GETs net client (via ++ [url]) u total code' →
    GETs net client via url (elapsed + total) code'.

(** [total] nanoseconds are less than the timeout, when there is one (a
    timeout that is not positive sets no limit). *)
Definition within (timeout : Duration) (total : N) : Prop :=
  0 < timeout → Z.of_N total < timeout.

(** ** Concrete configurations and worlds *)

Definition basicConfig : Config :=
  {| Scraper := Scraper zeroConfig;
     Checker := {| CheckerConfig.Timeout := 10 * Second;
                   CheckerConfig.ConnectTimeout := 5 * Second;
                   CheckerConfig.Concurrent := 2;
                   CheckerConfig.ConcurrentHTTP := 2;
                   CheckerConfig.ConcurrentSOCKS5 := 2;
                   CheckerConfig.CheckURLs := ["http://checkip.amazonaws.com"];
                   CheckerConfig.TestURL := "http://checkip.amazonaws.com";
                   CheckerConfig.UserAgent := defaultUserAgent;
                   CheckerConfig.StrictCheck := false;
                   CheckerConfig.DetailedOutput := false |} |}.

Definition strictConfig : Config :=
  {| Scraper := Scraper zeroConfig;
     Checker := {| CheckerConfig.Timeout := 3 * Second;
                   CheckerConfig.ConnectTimeout := 3 * Second;
                   CheckerConfig.Concurrent := 2;
                   CheckerConfig.ConcurrentHTTP := 2;
                   CheckerConfig.ConcurrentSOCKS5 := 2;
                   CheckerConfig.CheckURLs := ["http://checkip.amazonaws.com"];
                   CheckerConfig.TestURL := "http://checkip.amazonaws.com";
                   CheckerConfig.UserAgent := defaultUserAgent;
                   CheckerConfig.StrictCheck := true;
                   CheckerConfig.DetailedOutput := false |} |}.

(** The strict check with detailed output. *)
Definition detailedConfig : Config :=
  {| Scraper := Scraper zeroConfig;
     Checker := {| CheckerConfig.Timeout := 3 * Second;
                   CheckerConfig.ConnectTimeout := 3 * Second;
                   CheckerConfig.Concurrent := 2;
                   CheckerConfig.ConcurrentHTTP := 2;
                   CheckerConfig.ConcurrentSOCKS5 := 2;
                   CheckerConfig.CheckURLs := ["http://checkip.amazonaws.com"];
                   CheckerConfig.TestURL := "http://checkip.amazonaws.com";
                   CheckerConfig.UserAgent := defaultUserAgent;
                   CheckerConfig.StrictCheck := true;
                   CheckerConfig.DetailedOutput := true |} |}.

(** A world in which every candidate but ["2.2.2.2:8080"] refuses the
    connection, [url.Parse] fails on the header row of a detailed output
    file, and the geolocation and echo endpoints answer as they do. *)
Definition sampleWorld : World :=
  {| url_Parse_ok := λ p, negb (String.eqb p header);
     SOCKS5_ok := λ _, true;
     NewRequest_ok := λ _, true;
     Do := λ client url,
       if String.eqb (address client) "2.2.2.2:8080" then
         if String.eqb url "http://ip-api.com/json" then
           Response 200
             (Body (jq "{'status':'success','country':'Iceland','city':'','query':'2.2.2.2'}"))
         else if String.eqb url "https://httpbin.org/headers" then
           Response 200
             (Body (jq "{'headers':{'Host':'httpbin.org','Accept-Encoding':'gzip'}}"))
         else Response 200 (Body "2.2.2.2")
       else DoError;
     Since := λ _, 850 * Millisecond;
     Unmarshal_ipData := GoJSON.Unmarshal_ipData;
     Unmarshal_headers := GoJSON.Unmarshal_headers;
     RoundMillisecondString := λ _, "850ms" |}.

(** A network in which the proxy 2.2.2.2:8080 answers the GET of the
    test URL after 400 ms with a redirect (302) to the https address of
    the same page, and the GET of that address after 450 ms with status
    200; the proxy 3.3.3.3:1080 answers the GET of the test URL after
    700 ms with status 200; nothing else is answered. *)
Definition redirectingNetwork : Network :=
  {| RoundTrip := λ client via url,
       if String.eqb (address client) "2.2.2.2:8080" then
         if String.eqb url "http://checkip.amazonaws.com" then
           Answer 400000000 302 "https://checkip.amazonaws.com/" (λ _, Body "")
         else if String.eqb url "https://checkip.amazonaws.com/" then
           Answer 450000000 200 "" (λ _, Body "2.2.2.2")
         else TransportError
       else if String.eqb (address client) "3.3.3.3:1080" then
         if String.eqb url "http://checkip.amazonaws.com" then
           Answer 700000000 200 "" (λ _, Body "3.3.3.3")
         else TransportError
       else TransportError;
     URL_Parse := λ url loc, Some loc |}.

(** The basic check with [timeout: -1s] in the configuration file. *)
Definition untimedConfig : Config :=
  {| Scraper := Scraper zeroConfig;
     Checker := {| CheckerConfig.Timeout := - (1 * Second);
                   CheckerConfig.ConnectTimeout := 5 * Second;
                   CheckerConfig.Concurrent := 2;
                   CheckerConfig.ConcurrentHTTP := 2;
                   CheckerConfig.ConcurrentSOCKS5 := 2;
                   CheckerConfig.CheckURLs := ["http://checkip.amazonaws.com"];
                   CheckerConfig.TestURL := "http://checkip.amazonaws.com";
                   CheckerConfig.UserAgent := defaultUserAgent;
                   CheckerConfig.StrictCheck := false;
                   CheckerConfig.DetailedOutput := false |} |}.

(** The same world, except that the echo endpoint cannot be reached
    through the proxy. *)
Definition echoFailsWorld : World :=
  {| url_Parse_ok := url_Parse_ok sampleWorld;
     SOCKS5_ok := SOCKS5_ok sampleWorld;
     NewRequest_ok := NewRequest_ok sampleWorld;
     Do := λ client url,
       if String.eqb url "https://httpbin.org/headers" then DoError
       else Do sampleWorld client url;
     Since := Since sampleWorld;
     Unmarshal_ipData := GoJSON.Unmarshal_ipData;
     Unmarshal_headers := GoJSON.Unmarshal_headers;
     RoundMillisecondString := RoundMillisecondString sampleWorld |}.

(** ** Runs of [CheckProxies] *)

(** What is left to do in all goroutines, weighed by [f]. *)
Definition count_ops (f : op → nat) (gs : list (list op)) : nat :=
  sum_list_with (sum_list_with f) gs.

(** The calls of [updateProgress] for a family, and the sends of results
    that satisfy [P]. *)
Definition is_update (t : ProxyType) (o : op) : nat :=
  match o with
  | Eff (UpdateProgress t' _) => if decide (t' = t) then 1 else 0
  | _ => 0
  end.

Definition is_send (P : CheckResult → bool) (o : op) : nat :=
  match o with
  | Eff (Send result) => if P result then 1 else 0
  | _ => 0
  end.

(** The results among [l] that satisfy [P]. *)
Definition count_results (P : CheckResult → bool) (l : list CheckResult) : nat :=
  sum_list_with (λ x, if P x then 1 else 0)%nat l.

(** [result] is the result of checking candidate [p] in family [t]. *)
Definition result_of (t : ProxyType) (p : string) (result : CheckResult) : bool :=
  String.eqb (Proxy result) p && bool_decide (Type_ result = t).

(** The transport of candidate [p] of family [t] can be built. *)
Definition constructed (W : World) (t : ProxyType) (p : string) : bool :=
  match t with
  | ProxyTypeHTTP => url_Parse_ok W p
  | ProxyTypeSOCKS5 => SOCKS5_ok W p
  end.

(** The counters and what is left to do add up to the totals, and the
    working counts stay below the checked counts. *)
Definition counters_inv (nH nS : Z) (r : Run) : Prop :=
  totalHTTP (checker r) = nH
  ∧ totalSOCKS5 (checker r) = nS
  ∧ checkedHTTP (checker r)
    + Z.of_nat (count_ops (is_update ProxyTypeHTTP) (goroutines r)) = nH
  ∧ checkedSOCKS5 (checker r)
    + Z.of_nat (count_ops (is_update ProxyTypeSOCKS5) (goroutines r)) = nS
  ∧ 0 ≤ workingHTTP (checker r) ≤ checkedHTTP (checker r)
  ∧ 0 ≤ workingSOCKS5 (checker r) ≤ checkedSOCKS5 (checker r).

(** Every result that satisfies [P] is either published or still to be
    sent. *)
Definition published_inv (P : CheckResult → bool) (n : nat) (r : Run) : Prop :=
  (count_results P (published r) + count_ops (is_send P) (goroutines r))%nat = n.

(** How often [p] stands in [l]. *)
Definition occurrences (p : string) (l : list string) : nat :=
  sum_list_with (λ p', if String.eqb p' p then 1 else 0)%nat l.

(** Two HTTP candidates, the first of them the header row that a
    detailed run left in [out/http.txt], and one SOCKS5 candidate; the
    goroutines take turns, and the consumer receives now and then. *)
Definition sampleSchedule : list actor :=
  [Worker 1; Worker 0; Worker 2; Worker 0; Worker 1; Worker 2; Consumer;
   Worker 1; Worker 0; Worker 2; Worker 1; Consumer; Worker 2; Worker 1].

(** The schedule that runs the goroutines one after the other and lets
    the consumer receive each result as soon as it is sent. *)
Definition turn (i : nat) (o : op) : list actor :=
  match o with
  | Eff (Send _) => [Worker i; Consumer]
  | _ => [Worker i]
  end.

Fixpoint sequential_from (i : nat) (gs : list (list op)) : list actor :=
  match gs with
  | [] => []
  | g :: gs' => flat_map (turn i) g ++ sequential_from (S i) gs'
  end.

Definition sequential (gs : list (list op)) : list actor := sequential_from 0 gs.

(** Between two goroutines of the sequential schedule: no semaphore slot
    is taken and the channel is empty and open. *)
Definition quiet (r : Run) : Prop :=
  semHTTP r = 0 ∧ semSOCKS5 r = 0
  ∧ ResultChan (checker r) = [] ∧ closed (checker r) = false.

(** A step on the shared state that is neither on a semaphore. *)
Definition inner (o : op) : Prop :=
  match o with
  | Eff _ | AppendLine _ _ => True
  | Acquire _ | Release _ => False
  end.

(** The fourth result of [testProxy]: [isAnonymous]. *)
Definition anonymous_of (p : probe) : bool := p.1.2.

(** The calls of [updateProgress] for a family that report a working
    candidate, and the lines appended to a family's file that satisfy
    [Q]. *)
Definition is_working_update (t : ProxyType) (o : op) : nat :=
  match o with
  | Eff (UpdateProgress t' true) => if decide (t' = t) then 1 else 0
  | _ => 0
  end.

Definition is_append (t : ProxyType) (Q : string → bool) (o : op) : nat :=
  match o with
  | AppendLine t' line => if decide (t' = t) then if Q line then 1 else 0 else 0
  | _ => 0
  end.

(** The lines among [l] that satisfy [Q]. *)
Definition count_lines (Q : string → bool) (l : list string) : nat :=
  sum_list_with (λ x, if Q x then 1 else 0)%nat l.

(** The lines that the output file of a family has been given. *)
Definition out_of (t : ProxyType) (r : Run) : list string :=
  match t with
  | ProxyTypeHTTP => outHTTP r
  | ProxyTypeSOCKS5 => outSOCKS5 r
  end.

(** The working counter of a family. *)
Definition working_count (t : ProxyType) (c : ProxyChecker) : Z :=
  match t with
  | ProxyTypeHTTP => workingHTTP c
  | ProxyTypeSOCKS5 => workingSOCKS5 c
  end.

(** The result of checking candidate [p] in family [t]. *)
Definition check (W : World) (config : Config) (t : ProxyType) (p : string) : CheckResult :=
  match t with
  | ProxyTypeHTTP => (checkHTTPProxy W config p).2
  | ProxyTypeSOCKS5 => (checkSOCKS5Proxy W config p).2
  end.

(** The candidates of [l] that the check of family [t] finds working and
    whose output line satisfies [Q]. *)
Definition working_lines (W : World) (config : Config) (t : ProxyType)
    (Q : string → bool) (l : list string) : nat :=
  sum_list_with
    (λ p, if Working (check W config t p) && Q (formatProxyOutput W config (check W config t p))
          then 1 else 0)%nat l.

(** The lines of a family's file and the lines still to be appended. *)
Definition lines_inv (t : ProxyType) (Q : string → bool) (n : nat) (r : Run) : Prop :=
  (count_lines Q (out_of t r) + count_ops (is_append t Q) (goroutines r))%nat = n.

(** The working counter of a family and the reports still to be made. *)
Definition working_inv (t : ProxyType) (n : Z) (r : Run) : Prop :=
  working_count t (checker r)
  + Z.of_nat (count_ops (is_working_update t) (goroutines r)) = n.

(** ** Semaphores and the result channel *)

(** The waits on the semaphore of a family, and the releases of it. *)
Definition is_acquire (t : ProxyType) (o : op) : nat :=
  match o with
  | Acquire t' => if decide (t' = t) then 1 else 0
  | _ => 0
  end.

Definition is_release (t : ProxyType) (o : op) : nat :=
  match o with
  | Release t' => if decide (t' = t) then 1 else 0
  | _ => 0
  end.

(** A goroutine with [g] left to do holds a slot of the semaphore of
    family [t]: it has taken the slot and has not given it back. *)
Definition holds (t : ProxyType) (g : list op) : bool :=
  (sum_list_with (is_acquire t) g =? 0)%nat
  && negb (sum_list_with (is_release t) g =? 0)%nat.

(** The goroutines that hold a slot of the semaphore of family [t]:
    the checks of that family that are under way. *)
Definition in_flight (t : ProxyType) (gs : list (list op)) : nat :=
  sum_list_with (λ g, if holds t g then 1 else 0)%nat gs.

(** The size of the semaphore of a family. *)
Definition slots (config : Config) (t : ProxyType) : Z :=
  match t with
  | ProxyTypeHTTP => CheckerConfig.ConcurrentHTTP (Checker config)
  | ProxyTypeSOCKS5 => CheckerConfig.ConcurrentSOCKS5 (Checker config)
  end.

(** The slots taken in the semaphore of a family. *)
Definition sem_of (t : ProxyType) (r : Run) : Z :=
  match t with
  | ProxyTypeHTTP => semHTTP r
  | ProxyTypeSOCKS5 => semSOCKS5 r
  end.

(** What is left of a checking goroutine: nothing, or steps on the
    shared state followed by the release, with the wait for the
    semaphore before them when it has not started. *)
Definition shaped (g : list op) : Prop :=
  g = []
  ∨ ∃ t ops, Forall inner ops
             ∧ (g = Acquire t :: ops ++ [Release t] ∨ g = ops ++ [Release t]).

(** The candidates of [l] whose transport can be built. *)
Definition constructed_among (W : World) (t : ProxyType) (l : list string) : nat :=
  sum_list_with (λ p, if constructed W t p then 1 else 0)%nat l.

(** The schedule that runs the checking goroutines one after the other,
    from the [i]-th on, while nothing receives from [ResultChan]. *)
Fixpoint unattended (i : nat) (gs : list (list op)) : list actor :=
  match gs with
  | [] => []
  | g :: gs' => replicate (length g) (Worker i) ++ unattended (S i) gs'
  end.

(** ** Columns *)

(** No byte of [s] is [c]. *)
Fixpoint no_byte (c : ascii) (s : string) : bool :=
  match s with
  | EmptyString => true
  | String x s' => negb (Ascii.eqb x c) && no_byte c s'
  end.

(** ** Runs of [ScrapeProxies] *)

(** The proxies that the steps [g] of a scraping goroutine add. *)
Definition collected (g : list scrape_op) : list string :=
  flat_map (λ o, match o with Collect localProxies => localProxies | _ => [] end) g.

(** What the goroutine of the [i]-th URL adds to the proxies: the valid
    lines of the body that the URL answers with, and nothing when the
    request cannot be built or made or the body cannot be read. *)
Definition harvest (U : string → option ProxyData) (web : Web)
    (userAgents : list string) (timeout : Duration) (i : nat) (url : string) : list string :=
  if negb (Request_ok web url) then []
  else if (length userAgents =? 0)%nat then []
  else
    match Get web timeout url (default "" (userAgents !! (i mod length userAgents)%nat)) with
    | Response _ (Body body) => localProxies U body
    | _ => []
    end.

(** The steps that divide by zero. *)
Definition is_panic (o : scrape_op) : nat :=
  match o with
  | DivideByZero => 1
  | _ => 0
  end.

(** The schedule that runs the scraping goroutines one after the other,
    from the [i]-th on. *)
Fixpoint one_by_one (i : nat) (gs : list (list scrape_op)) : list nat :=
  match gs with
  | [] => []
  | g :: gs' => replicate (length g) i ++ one_by_one (S i) gs'
  end.

(** A web that answers every URL but ["down"] with three lines, one of
    them no address. *)
Definition sampleWeb : Web :=
  {| Request_ok := λ url, negb (String.eqb url "bad url");
     Get := λ _ url _,
       if String.eqb url "down" then DoError
       else Response 200
              (Body ("1.2.3.4:80" +:+ newline +:+ "no proxy here" +:+ newline
                     +:+ " http://5.6.7.8:3128 " +:+ newline)) |}.

(** ** Files and lines *)

(** The text of a file that holds the [lines], each ended by a line
    feed. *)
Fixpoint unlines (lines : list string) : string :=
  match lines with
  | [] => ""
  | line :: lines' => line +:+ newline +:+ unlines lines'
  end.

(** An ASCII byte that is no white space. *)
Definition graphic (c : ascii) : bool :=
  (N_of_ascii c <? 128)%N && negb (asciiSpace c).

(** A line that a file gives back as it is: it starts and ends with
    ASCII bytes that are no white space, does not start with [#], holds
    no line feed, and is shorter than the limit of the scanner. *)
Definition plain_line (line : string) : bool :=
  match list_ascii_of_string line with
  | [] => false
  | c :: l =>
      graphic c && graphic (List.last l c) && negb (Ascii.eqb c "#")
      && no_byte LF line
      && (Z.of_nat (String.length line) <? MaxScanTokenSize)
  end.

(** The calls of [AppendLine] for [lines] on one file, one after the
    other, and whether all of them returned a nil error. *)
Definition AppendLines (fs : FS) (path : string) (lines : list string) : FS * bool :=
  foldl (λ st line,
           let '(fs', ok) := Files.AppendLine st.1 path line in (fs', st.2 && ok))
        (fs, true) lines.

(** The text of [path], empty when there is no such file. *)
Definition text_of (fs : FS) (path : string) : string :=
  default "" (files fs !! path).

(** ** Bars *)

(** [n] copies of a cell. *)
Fixpoint cells (cell : string) (n : nat) : string :=
  match n with
  | O => ""
  | S n' => cell +:+ cells cell n'
  end.

(** ** The JSON parser *)

(** What the three parts consume, given what the parts they call consume. *)
Definition consuming {T : Type} (parser : N → string → option (T * string)) : Prop :=
  ∀ d s x r, parser d s = Some (x, r) → (String.length r < String.length s)%nat.

(** * Properties *)

(** ** Strings *)

Section StringFacts.

Lemma app_cons c s t : String c s +:+ t = String c (s +:+ t).
Proof. reflexivity. Qed.

Lemma app_empty_l s : "" +:+ s = s.
Proof. reflexivity. Qed.

Lemma app_empty_r s : s +:+ "" = s.
Proof. induction s as [|c s IH]; [done|]. by rewrite app_cons, IH. Qed.

Lemma app_assoc' s t u : (s +:+ t) +:+ u = s +:+ t +:+ u.
Proof. induction s as [|c s IH]; [done|]. by rewrite !app_cons, IH. Qed.

Lemma length_app' s t : String.length (s +:+ t) = (String.length s + String.length t)%nat.
Proof. induction s as [|c s IH]; [done|]. rewrite app_cons. simpl. by rewrite IH. Qed.

Lemma take_app_exact w s : take (String.length w) (w +:+ s) = w.
Proof. induction w as [|c w IH]; [by destruct s|]. rewrite app_cons. simpl. by rewrite IH. Qed.

Lemma take_consumed w s : take (String.length (w +:+ s) - String.length s) (w +:+ s) = w.
Proof.
  rewrite length_app'.
  replace (String.length w + String.length s - String.length s)%nat
    with (String.length w) by lia.
  apply take_app_exact.
Qed.

Lemma take_consumed_eq w t s :
  s = w +:+ t → take (String.length s - String.length t) s = w.
Proof. intros ->. apply take_consumed. Qed.

Lemma eqb_empty_false c s : String.eqb (String c s) "" = false.
Proof. reflexivity. Qed.

End StringFacts.

(** ** The patterns: what the matcher finds *)

Section RegexFacts.

Context {A : Type}.

Lemma rep_sound k lo hi s (cont : string → option A) a :
  rep k lo hi s cont = Some a →
  ∃ w s', s = w +:+ s' ∧ all_in k w = true ∧ (lo ≤ String.length w)%nat
          ∧ bounded hi (String.length w) ∧ cont s' = Some a.
Proof.
  revert lo hi. induction s as [|c s IH]; intros lo hi H.
  - simpl in H. destruct lo; [|done].
    exists "", "". repeat split; simpl; auto. destruct hi; simpl; lia.
  - simpl in H.
    assert (Hstop : match lo with O => cont (String c s) | S _ => None end = Some a →
      ∃ w s', String c s = w +:+ s' ∧ all_in k w = true ∧ (lo ≤ String.length w)%nat
              ∧ bounded hi (String.length w) ∧ cont s' = Some a).
    { intros Hs. destruct lo; [|done].
      exists "", (String c s). repeat split; simpl; auto. destruct hi; simpl; lia. }
    destruct (cmatch k c) eqn:Hc; simpl in H; [|auto].
    case_bool_decide as Hhi; simpl in H; [auto|].
    destruct (rep k (Nat.pred lo) (Nat.pred <$> hi) s cont) eqn:Hrec; [|auto].
    injection H as ->.
    apply IH in Hrec as (w & s' & -> & Hw & Hlo & Hb & Hk).
    exists (String c w), s'. rewrite app_cons. repeat split; auto.
    + simpl. by rewrite Hc, Hw.
    + simpl. lia.
    + destruct hi as [h|]; simpl in *; [|done].
      destruct h; [done|]. simpl in Hb. lia.
Qed.

Lemma rep_zero k hi s (cont : string → option A) :
  is_Some (cont s) → is_Some (rep k 0 hi s cont).
Proof.
  intros Hs. destruct s as [|c s]; simpl; [done|].
  destruct (cmatch k c && negb (bool_decide (hi = Some 0%nat))); [|done].
  by destruct (rep k _ _ s cont).
Qed.

Lemma rep_complete k lo hi w s' (cont : string → option A) :
  all_in k w = true → (lo ≤ String.length w)%nat → bounded hi (String.length w) →
  is_Some (cont s') → is_Some (rep k lo hi (w +:+ s') cont).
Proof.
  revert lo hi. induction w as [|c w IH]; intros lo hi Hw Hlo Hb Hk.
  - simpl in Hlo. assert (lo = 0%nat) as -> by lia. by apply rep_zero.
  - rewrite app_cons. simpl in *. apply andb_prop in Hw as [Hc Hw]. rewrite Hc.
    assert (hi ≠ Some 0%nat) as Hhi.
    { intros ->. simpl in Hb. lia. }
    rewrite bool_decide_false by done. simpl.
    destruct (IH (Nat.pred lo) (Nat.pred <$> hi)) as [a Ha]; auto; [lia| |].
    + destruct hi as [h|]; simpl in *; [lia|done].
    + rewrite Ha. done.
Qed.

Lemma run_captures r s caps (cont : string → list string → option A) a :
  run r s caps cont = Some a →
  ∃ w s' c, s = w +:+ s' ∧ captures r w c ∧ cont s' (caps ++ c) = Some a.
Proof.
  revert s caps cont. induction r as [k|k lo hi|r1 IH1 r2 IH2|r IH]; intros s caps cont H.
  - destruct s as [|c s]; simpl in H; [done|].
    destruct (cmatch k c) eqn:Hc; [|done].
    exists (String c ""), s, []. rewrite app_nil_r.
    split; [done|]. split; [by constructor|done].
  - simpl in H. apply rep_sound in H as (w & s' & -> & Hw & Hlo & Hb & Hk).
    exists w, s', []. rewrite app_nil_r. split; [done|]. split; [by constructor|done].
  - simpl in H. apply IH1 in H as (w1 & s1 & c1 & -> & Hm1 & H).
    apply IH2 in H as (w2 & s2 & c2 & -> & Hm2 & H).
    exists (w1 +:+ w2), s2, (c1 ++ c2). rewrite app_assoc', app_assoc.
    split; [done|]. split; [by constructor|done].
  - simpl in H. apply IH in H as (w & s' & c & -> & Hm & H).
    exists w, s', (c ++ [w]). rewrite take_consumed in H. rewrite app_assoc.
    split; [done|]. split; [by constructor|exact H].
Qed.

Lemma captures_matches r w c : captures r w c → matches r w.
Proof. induction 1; by constructor. Qed.

Lemma run_sound r s caps (cont : string → list string → option A) a :
  run r s caps cont = Some a →
  ∃ w s' caps', s = w +:+ s' ∧ matches r w ∧ cont s' caps' = Some a.
Proof.
  intros (w & s' & c & -> & Hc & H)%run_captures.
  exists w, s', (caps ++ c). eauto using captures_matches.
Qed.

Lemma run_complete r w s' (cont : string → list string → option A) :
  matches r w → (∀ caps', is_Some (cont s' caps')) →
  ∀ caps, is_Some (run r (w +:+ s') caps cont).
Proof.
  intros Hm. revert s' cont.
  induction Hm as [k c Hc|k lo hi w Hw Hlo Hb|r1 r2 w1 w2 _ IH1 _ IH2|r w _ IH];
    intros s' cont Hk caps.
  - rewrite app_cons. simpl. rewrite Hc. apply Hk.
  - simpl. apply rep_complete; auto.
  - simpl. rewrite app_assoc'. apply IH1. intros caps1. by apply IH2.
  - simpl. apply IH. intros caps1. apply Hk.
Qed.

End RegexFacts.

Lemma match_here_sound r s l :
  match_here r s = Some l →
  ∃ w s' caps, s = w +:+ s' ∧ matches r w ∧ l = w :: caps.
Proof.
  unfold match_here. intros H.
  apply run_sound in H as (w & s' & caps & -> & Hm & H).
  injection H as <-. exists w, s', caps. by rewrite take_consumed.
Qed.

Lemma match_here_complete r w s' :
  matches r w → is_Some (match_here r (w +:+ s')).
Proof. intros Hm. unfold match_here. by apply run_complete. Qed.

Lemma FindStringSubmatch_sound r s l :
  FindStringSubmatch r s = Some l →
  ∃ pre w post caps, s = pre +:+ w +:+ post ∧ matches r w ∧ l = w :: caps.
Proof.
  induction s as [|c s IH]; simpl.
  - destruct (match_here r "") eqn:Hm; [|done]. intros [= ->].
    apply match_here_sound in Hm as (w & s' & caps & -> & Hm & ->).
    by exists "", w, s', caps.
  - destruct (match_here r (String c s)) eqn:Hm.
    + intros [= ->].
      apply match_here_sound in Hm as (w & s' & caps & -> & Hm & ->).
      by exists "", w, s', caps.
    + intros H. apply IH in H as (pre & w & post & caps & -> & Hw & ->).
      by exists (String c pre), w, post, caps.
Qed.

Lemma FindStringSubmatch_complete r pre w post :
  matches r w → is_Some (FindStringSubmatch r (pre +:+ w +:+ post)).
Proof.
  intros Hm. induction pre as [|c pre IH].
  - rewrite app_empty_l.
    destruct (match_here_complete r w post Hm) as [l Hl].
    destruct (w +:+ post) eqn:E; simpl; by rewrite Hl.
  - rewrite app_cons. simpl. by destruct (match_here r _).
Qed.

Lemma match_here_captures r s l :
  match_here r s = Some l →
  ∃ w s' c, s = w +:+ s' ∧ captures r w c ∧ l = w :: c.
Proof.
  unfold match_here. intros (w & s' & c & -> & Hc & H)%run_captures.
  injection H as <-. exists w, s', c. by rewrite take_consumed.
Qed.

Lemma FindStringSubmatch_captures r s l :
  FindStringSubmatch r s = Some l →
  ∃ pre w post c, s = pre +:+ w +:+ post ∧ captures r w c ∧ l = w :: c.
Proof.
  induction s as [|x s IH]; simpl.
  - destruct (match_here r "") eqn:Hm; [|done]. intros [= ->].
    apply match_here_captures in Hm as (w & s' & c & -> & Hm & ->).
    by exists "", w, s', c.
  - destruct (match_here r (String x s)) eqn:Hm.
    + intros [= ->].
      apply match_here_captures in Hm as (w & s' & c & -> & Hm & ->).
      by exists "", w, s', c.
    + intros H. apply IH in H as (pre & w & post & c & -> & Hw & ->).
      by exists (String x pre), w, post, c.
Qed.

(** *** The dotted quad *)

Lemma all_in_Digit w : all_in Digit w = all_digits w.
Proof. induction w as [|c w IH]; [done|]. simpl. by rewrite IH. Qed.

Lemma matches_group g : matches (Rep Digit 1 (Some 3%nat)) g ↔ group g.
Proof.
  unfold group. split.
  - inversion 1; subst. rewrite <- all_in_Digit. simpl in *. split; [done|lia].
  - intros [Hd [H1 H3]]. constructor; [by rewrite all_in_Digit|done|done].
Qed.

Lemma matches_dot w : matches (Chr (Lit ".")) w ↔ w = ".".
Proof.
  split.
  - inversion 1 as [k c Hc| | |]; subst. simpl in Hc.
    apply Ascii.eqb_eq in Hc. by subst.
  - intros ->. by constructor.
Qed.

Lemma matches_quad w : matches quad w ↔ is_quad w.
Proof.
  unfold quad, is_quad. split.
  - intros H.
    inversion H as [| |? ? a r1 Ha H1|]; subst; clear H.
    inversion H1 as [| |? ? p1 r2 Hp1 H2|]; subst; clear H1.
    inversion H2 as [| |? ? b r3 Hb H3|]; subst; clear H2.
    inversion H3 as [| |? ? p2 r4 Hp2 H4|]; subst; clear H3.
    inversion H4 as [| |? ? c r5 Hc H5|]; subst; clear H4.
    inversion H5 as [| |? ? p3 d Hp3 Hd|]; subst; clear H5.
    apply matches_dot in Hp1, Hp2, Hp3. subst.
    apply matches_group in Ha, Hb, Hc, Hd.
    by exists a, b, c, d.
  - intros (a & b & c & d & -> & Ha & Hb & Hc & Hd).
    apply matches_group in Ha, Hb, Hc, Hd.
    repeat (apply matches_Cat; [done || by apply matches_dot|]). done.
Qed.

Lemma is_digit_not_colon c : is_digit c = true → Ascii.eqb c ":" = false.
Proof. destruct c as [[] [] [] [] [] [] [] []]; vm_compute; congruence. Qed.

Lemma dot_not_colon : Ascii.eqb "." ":" = false.
Proof. reflexivity. Qed.

Lemma no_colon_app s t : no_colon (s +:+ t) = no_colon s && no_colon t.
Proof.
  induction s as [|c s IH]; [done|]. rewrite app_cons. simpl.
  by rewrite IH, andb_assoc.
Qed.

Lemma all_digits_no_colon s : all_digits s = true → no_colon s = true.
Proof.
  induction s as [|c s IH]; [done|]. simpl. intros [Hc Hs]%andb_prop.
  by rewrite (is_digit_not_colon _ Hc), IH.
Qed.

Lemma is_quad_no_colon w : is_quad w → no_colon w = true.
Proof.
  intros (a & b & c & d & -> & [Ha _] & [Hb _] & [Hc _] & [Hd _]).
  apply all_digits_no_colon in Ha, Hb, Hc, Hd.
  rewrite !no_colon_app. by rewrite Ha, Hb, Hc, Hd.
Qed.

Lemma is_quad_nonempty w : is_quad w → ∃ c w', w = String c w' ∧ is_digit c = true.
Proof.
  intros (a & b & c & d & -> & [Ha [Hl _]] & _).
  destruct a as [|x a]; simpl in Hl; [lia|].
  simpl in Ha. apply andb_prop in Ha as [Hx _].
  rewrite app_cons. eauto.
Qed.

(** *** Splitting on the colon *)

Lemma Split_no_colon s : no_colon s = true → Split s ":" = [s].
Proof.
  induction s as [|c s IH]; [done|]. simpl. intros [Hc Hs]%andb_prop.
  apply negb_true_iff in Hc. by rewrite Hc, IH.
Qed.

Lemma Split_colon a b :
  no_colon a = true → Split (a +:+ ":" +:+ b) ":" = a :: Split b ":".
Proof.
  induction a as [|c a IH]; [done|]. rewrite app_cons. simpl.
  intros [Hc Ha]%andb_prop. apply negb_true_iff in Hc. by rewrite Hc, IH.
Qed.

Lemma Split_nonempty s : Split s ":" ≠ [].
Proof.
  destruct s as [|c s]; simpl; [done|].
  destruct (Ascii.eqb c ":"); [done|]. by destruct (Split s ":").
Qed.

(** Joining the pieces with colons gives the string back. *)
Lemma concat_Split s : String.concat ":" (Split s ":") = s.
Proof.
  induction s as [|c s IH]; [done|]. simpl.
  pose proof (Split_nonempty s) as Hne.
  destruct (Split s ":") as [|h t]; [done|].
  destruct (Ascii.eqb c ":") eqn:Hc.
  - apply Ascii.eqb_eq in Hc as ->.
    change (String.concat ":" ("" :: h :: t)) with ("" +:+ ":" +:+ String.concat ":" (h :: t)).
    by rewrite IH.
  - destruct t as [|y t].
    + simpl in *. by rewrite IH.
    + change (String.concat ":" (String c h :: y :: t))
        with (String c h +:+ ":" +:+ String.concat ":" (y :: t)).
      rewrite <- IH.
      change (String.concat ":" (h :: y :: t)) with (h +:+ ":" +:+ String.concat ":" (y :: t)).
      done.
Qed.

Lemma Split_pieces_no_colon s : Forall (λ x, no_colon x = true) (Split s ":").
Proof.
  induction s as [|c s IH]; simpl; [by repeat constructor|].
  pose proof (Split_nonempty s) as Hne.
  destruct (Split s ":") as [|h t]; [done|].
  destruct (Ascii.eqb c ":") eqn:Hc.
  - by constructor.
  - inversion IH; subst. constructor; [|done]. simpl. by rewrite Hc.
Qed.

Lemma Split_two s h p :
  Split s ":" = [h; p] → s = h +:+ ":" +:+ p ∧ no_colon h = true ∧ no_colon p = true.
Proof.
  intros E. pose proof (concat_Split s) as Hc. pose proof (Split_pieces_no_colon s) as Hf.
  rewrite E in Hc, Hf.
  apply Forall_cons in Hf as [Hh Hf]. apply Forall_cons in Hf as [Hp _].
  split; [by rewrite <- Hc|done].
Qed.

(** *** The port pattern: the leftmost run of up to five digits *)

Lemma digit_prefix_all_digits n s : all_digits (digit_prefix n s) = true.
Proof.
  revert s. induction n as [|n IH]; intros [|c s]; simpl; try done.
  destruct (is_digit c) eqn:Hc; simpl; [|done]. by rewrite Hc, IH.
Qed.

Lemma digit_prefix_length n s : (String.length (digit_prefix n s) ≤ n)%nat.
Proof.
  revert s. induction n as [|n IH]; intros [|c s]; simpl; try lia.
  destruct (is_digit c); simpl; [|lia]. specialize (IH s). lia.
Qed.

Lemma digit_prefix_split n s :
  s = digit_prefix n s +:+ drop (String.length (digit_prefix n s)) s.
Proof.
  revert s. induction n as [|n IH]; intros [|c s]; simpl; try done.
  destruct (is_digit c); simpl; [|done]. rewrite app_cons. by rewrite <- IH.
Qed.

Lemma rep_Digit_total {A : Type} lo h s (g : string → A) :
  rep Digit lo (Some h) s (λ s', Some (g s')) =
  if decide (lo ≤ String.length (digit_prefix h s))%nat
  then Some (g (drop (String.length (digit_prefix h s)) s))
  else None.
Proof.
  revert lo h. induction s as [|c s IH]; intros lo h.
  - destruct h, lo; simpl; try done.
  - simpl. destruct h as [|h].
    + rewrite andb_false_r. destruct lo; simpl; done.
    + rewrite bool_decide_false by done. rewrite andb_true_r.
      destruct (is_digit c) eqn:Hc; simpl; rewrite ?Hc; simpl.
      * rewrite IH. destruct lo as [|lo]; simpl;
          repeat case_decide; try done; lia.
      * destruct lo; simpl; done.
Qed.

Lemma match_here_portRe s :
  match_here portRe s =
  if decide (1 ≤ String.length (digit_prefix 5 s))%nat then Some [digit_prefix 5 s] else None.
Proof.
  unfold match_here, portRe. cbn [run].
  rewrite (rep_Digit_total 1 5 s (λ s', [take (String.length s - String.length s') s])).
  case_decide; [|done]. do 2 f_equal.
  apply take_consumed_eq, digit_prefix_split.
Qed.

Lemma FindString_portRe s : FindString portRe s = first_digits s.
Proof.
  unfold FindString. induction s as [|c s IH]; [done|].
  cbn [FindStringSubmatch first_digits]. rewrite match_here_portRe.
  destruct (is_digit c) eqn:Hc.
  - rewrite decide_True; [done|]. simpl. rewrite Hc. simpl. lia.
  - rewrite decide_False; [done|]. simpl. rewrite Hc. simpl. lia.
Qed.

Lemma first_digits_all_digits s : all_digits (first_digits s) = true.
Proof.
  induction s as [|c s IH]; [done|]. cbn [first_digits].
  destruct (is_digit c); [apply digit_prefix_all_digits|done].
Qed.

Lemma first_digits_length s : (String.length (first_digits s) ≤ 5)%nat.
Proof.
  induction s as [|c s IH]; [simpl; lia|]. cbn [first_digits].
  destruct (is_digit c); [apply digit_prefix_length|done].
Qed.

Lemma first_digits_nonempty pre c rest :
  is_digit c = true → (1 ≤ String.length (first_digits (pre +:+ String c rest)))%nat.
Proof.
  intros Hc. induction pre as [|x pre IH].
  - rewrite app_empty_l. simpl. rewrite Hc. simpl. lia.
  - rewrite app_cons. cbn [first_digits].
    destruct (is_digit x) eqn:Hx; [|done]. simpl. rewrite Hx. simpl. lia.
Qed.

(** ** The normalizer and the validity check *)

Lemma isValidProxy_accepted U line normalized :
  isValidProxy U line = (normalized, true) →
  normalized = normalizeProxy U line
  ∧ (length (Split normalized ":") = 2)%nat
  ∧ (1 ≤ String.length (default "" (Split normalized ":" !! 1%nat)) ≤ 5)%nat
  ∧ all_digits (default "" (Split normalized ":" !! 1%nat)) = true.
Proof.
  unfold isValidProxy.
  destruct (String.eqb line ""); [done|].
  destruct (String.eqb (normalizeProxy U line) ""); [done|].
  destruct (length (Split (normalizeProxy U line) ":") =? 2)%nat eqn:Hlen; [|done].
  simpl.
  destruct (String.length _ =? 0)%nat eqn:H0; [done|].
  destruct (5 <? String.length _)%nat eqn:H5; [done|].
  destruct (all_digits _) eqn:Hd; [|done]. simpl.
  intros [= <-].
  apply Nat.eqb_eq in Hlen. apply Nat.eqb_neq in H0. apply Nat.ltb_ge in H5.
  repeat split; auto; lia.
Qed.




(** C8: a five-digit port is accepted without any range check on the
    port or on the octets, and a six-digit port is rejected. *)
Theorem isValidProxy_port_digits U :
  isValidProxy U "1.2.3.4:99999" = ("1.2.3.4:99999", true)
  ∧ isValidProxy U "1.2.3.4:123456" = ("", false)
  ∧ isValidProxy U "999.999.999.999:99999" = ("999.999.999.999:99999", true).
Proof. repeat split; reflexivity. Qed.

(** C9: the positive vectors of the normalizer, with Go's JSON decoder. *)
Theorem normalizeProxy_vectors :
  normalizeProxy GoJSON.Unmarshal_ProxyData "http://1.2.3.4:8080" = "1.2.3.4:8080"
  ∧ normalizeProxy GoJSON.Unmarshal_ProxyData "5.6.7.8:3128" = "5.6.7.8:3128"
  ∧ normalizeProxy GoJSON.Unmarshal_ProxyData
      (jq "{'data':[{'ip':'9.9.9.9','port':'1080'}]}") = "9.9.9.9:1080"
  ∧ normalizeProxy GoJSON.Unmarshal_ProxyData
      (jq "{'data':[{'ip':'9.9.9.9'}]}") = "9.9.9.9:80".
Proof. repeat split; vm_compute; reflexivity. Qed.

(** A line with no digit is rejected; a line that is no address and has
    a dotted quad and digits somewhere is made into one. *)
Theorem normalizeProxy_no_address U :
  normalizeProxy U "not a proxy" = ""
  ∧ isValidProxy U "not a proxy" = ("", false)
  ∧ normalizeProxy U "updated 2024-05-01 from 10.0.0.1" = "10.0.0.1:2024".
Proof. repeat split; reflexivity. Qed.

Lemma FindString_ipRe text :
  (∃ w, is_quad w ∧ occurs_in w text) →
  is_quad (FindString ipRe text) ∧ occurs_in (FindString ipRe text) text.
Proof.
  intros (w & Hw & pre & post & ->).
  destruct (FindStringSubmatch_complete ipRe pre w post) as [l Hl].
  { by apply matches_quad. }
  unfold FindString. rewrite Hl.
  apply FindStringSubmatch_sound in Hl as (pre' & ip & post' & caps & E & Hip & ->).
  split; [by apply matches_quad|]. by exists pre', post'.
Qed.

Lemma captures_length r w c : captures r w c → length c = groups r.
Proof.
  induction 1; simpl; try done.
  - rewrite length_app. lia.
  - rewrite length_app. simpl. lia.
Qed.

(** What the strict pattern matches: a dotted quad, a colon and digits,
    with the quad and the digits as its two groups. *)
Lemma captures_re w c :
  captures re w c →
  ∃ ip port,
    w = ip +:+ ":" +:+ port ∧ c = [ip; port]
    ∧ is_quad ip ∧ all_digits port = true ∧ (1 ≤ String.length port)%nat.
Proof.
  unfold re. intros H.
  inversion H as [| |? ? ip rest c1 c2 Hg Hrest|]; subst; clear H.
  inversion Hg as [| | |? ? cq Hq]; subst; clear Hg.
  inversion Hrest as [| |? ? colon port c3 c4 Hcolon Hport|]; subst; clear Hrest.
  inversion Hcolon as [k x Hx| | |]; subst; clear Hcolon.
  inversion Hport as [| | |? ? cp Hp]; subst; clear Hport.
  inversion Hp as [|? ? ? ? Hd Hlo _| |]; subst; clear Hp.
  pose proof (captures_length _ _ _ Hq) as Hlen. simpl in Hlen.
  destruct cq; [|done].
  simpl in Hx. apply Ascii.eqb_eq in Hx as ->.
  exists ip, port. rewrite all_in_Digit in Hd.
  repeat split; try done.
  apply matches_quad. by eapply captures_matches.
Qed.

Lemma FindStringSubmatch_re text l :
  FindStringSubmatch re text = Some l →
  ∃ ip port,
    l = [ip +:+ ":" +:+ port; ip; port]
    ∧ is_quad ip ∧ all_digits port = true ∧ (1 ≤ String.length port)%nat
    ∧ occurs_in (ip +:+ ":" +:+ port) text.
Proof.
  intros (pre & w & post & c & -> & Hc & ->)%FindStringSubmatch_captures.
  apply captures_re in Hc as (ip & port & -> & -> & Hip & Hd & Hlen).
  exists ip, port. repeat split; try done. by exists pre, post.
Qed.

Lemma plain_line_canonical U line normalized :
  jsonBranch U (stripScheme line) = None →
  isValidProxy U line = (normalized, true) →
  ∃ ip port,
    normalized = ip +:+ ":" +:+ port
    ∧ is_quad ip ∧ occurs_in ip (stripScheme line)
    ∧ all_digits port = true ∧ (1 ≤ String.length port ≤ 5)%nat.
Proof.
  intros Hjson (-> & Hlen & Hport & Hd)%isValidProxy_accepted.
  unfold normalizeProxy in *. rewrite Hjson in *.
  destruct (FindStringSubmatch re (stripScheme line)) as [l|] eqn:Hre.
  - apply FindStringSubmatch_re in Hre
      as (ip & port & -> & Hip & Hdig & Hl & pre & post & Hocc).
    cbn [lookup list_lookup default from_option] in *. unfold Sprintf_colon in *.
    rewrite Split_colon in Hport by by apply is_quad_no_colon.
    rewrite Split_no_colon in Hport by by apply all_digits_no_colon.
    simpl in Hport.
    exists ip, port. repeat split; try done; try lia.
    exists pre, (":" +:+ port +:+ post). rewrite Hocc. by rewrite !app_assoc'.
  - rewrite FindString_portRe in *.
    destruct (FindStringSubmatch ipRe (stripScheme line)) as [m|] eqn:Hip.
    + pose proof Hip as Hs.
      apply FindStringSubmatch_sound in Hs as (pre & ip & post & caps & Hocc & Hq & ->).
      apply matches_quad in Hq.
      unfold FindString in *. rewrite Hip in *.
      destruct (is_quad_nonempty _ Hq) as (x & ip' & -> & Hx).
      cbn [String.eqb negb andb] in *.
      destruct (first_digits (stripScheme line)) as [|y port'] eqn:Hfd; [done|].
      cbn [String.eqb negb] in *. unfold Sprintf_colon in *.
      pose proof (first_digits_all_digits (stripScheme line)) as Hall.
      pose proof (first_digits_length (stripScheme line)) as Hl5.
      rewrite Hfd in Hall, Hl5.
      exists (String x ip'), (String y port'). repeat split; try done.
      * by exists pre, post.
      * simpl. lia.
    + unfold FindString in *. rewrite Hip in *. done.
Qed.

(** A line that the JSON branch does not handle and that is accepted is
    in canonical form: a dotted quad that occurs in the line, a colon,
    and one to five digits. *)
Theorem accepted_plain_line_canonical U line normalized :
  jsonBranch U (stripScheme line) = None →
  isValidProxy U line = (normalized, true) →
  ∃ ip port,
    normalized = ip +:+ ":" +:+ port
    ∧ is_quad ip ∧ occurs_in ip (stripScheme line)
    ∧ all_digits port = true ∧ (1 ≤ String.length port ≤ 5)%nat.
Proof. apply plain_line_canonical. Qed.

Lemma accepted_plain_line_witness :
  ∃ ip port,
    "5.6.7.8:3128" = ip +:+ ":" +:+ port
    ∧ is_quad ip ∧ occurs_in ip (stripScheme "https://5.6.7.8:3128/")
    ∧ all_digits port = true ∧ (1 ≤ String.length port ≤ 5)%nat.
Proof.
  apply (accepted_plain_line_canonical GoJSON.Unmarshal_ProxyData
           "https://5.6.7.8:3128/" "5.6.7.8:3128"); reflexivity.
Defined.

(** C10: when neither the JSON branch nor the strict pattern handles the
    scheme-stripped text and the text contains a dotted quad, the
    fallback returns the quad that [ipRe] finds, a colon, and the
    leftmost run of up to five digits of the text; the result is not
    empty and [isValidProxy] accepts it.  For ["1.2.3.4"] the digits are
    the first group of the quad itself. *)
Theorem normalizeProxy_fallback U :
  (∀ input,
     jsonBranch U (stripScheme input) = None →
     FindStringSubmatch re (stripScheme input) = None →
     (∃ w, is_quad w ∧ occurs_in w (stripScheme input)) →
     let ip := FindString ipRe (stripScheme input) in
     let port := first_digits (stripScheme input) in
     is_quad ip ∧ occurs_in ip (stripScheme input)
     ∧ (1 ≤ String.length port ≤ 5)%nat
     ∧ normalizeProxy U input = ip +:+ ":" +:+ port
     ∧ normalizeProxy U input ≠ ""
     ∧ isValidProxy U input = (ip +:+ ":" +:+ port, true))
  ∧ normalizeProxy U "1.2.3.4" = "1.2.3.4:1"
  ∧ isValidProxy U "1.2.3.4" = ("1.2.3.4:1", true)
  ∧ isValidProxy U "1.2.3.4:1" = ("1.2.3.4:1", true).
Proof.
  split; [|repeat split; reflexivity].
  intros input Hjson Hre Hquad ip port.
  destruct (FindString_ipRe _ Hquad) as [Hip Hocc]. fold ip in Hip, Hocc.
  assert (Hport : (1 ≤ String.length port ≤ 5)%nat).
  { split; [|apply first_digits_length].
    destruct Hquad as (w & Hw & pre & post & E).
    apply is_quad_nonempty in Hw as (c & w' & -> & Hc).
    unfold port. rewrite E, app_cons. by apply first_digits_nonempty. }
  destruct (is_quad_nonempty _ Hip) as (c & ip' & Eip & Hc).
  assert (Hnorm : normalizeProxy U input = ip +:+ ":" +:+ port).
  { unfold normalizeProxy. rewrite Hjson, Hre. rewrite FindString_portRe.
    fold ip port. rewrite Eip. cbn [String.eqb negb andb].
    destruct port; [simpl in Hport; lia|]. done. }
  assert (Hne : ip +:+ ":" +:+ port ≠ "").
  { rewrite Eip. by rewrite app_cons. }
  repeat split; try done; try lia.
  { rewrite Hnorm. done. }
  unfold isValidProxy. rewrite Hnorm.
  destruct input as [|x input'].
  { destruct Hocc as (pre & post & E). rewrite Eip in E.
    destruct pre; discriminate E. }
  cbn [String.eqb].
  destruct (String.eqb (ip +:+ ":" +:+ port) "") eqn:E0.
  { apply String.eqb_eq in E0. done. }
  rewrite Split_colon by by apply is_quad_no_colon.
  rewrite Split_no_colon by apply all_digits_no_colon, first_digits_all_digits.
  simpl. fold port.
  destruct (String.length port =? 0)%nat eqn:H0.
  { apply Nat.eqb_eq in H0. lia. }
  destruct (5 <? String.length port)%nat eqn:H5.
  { apply Nat.ltb_lt in H5. lia. }
  simpl. unfold port at 1. by rewrite first_digits_all_digits.
Qed.

Lemma normalizeProxy_fallback_witness :
  is_quad (FindString ipRe (stripScheme "socks4://host 12.34.56.78 port 8080"))
  ∧ normalizeProxy GoJSON.Unmarshal_ProxyData "socks4://host 12.34.56.78 port 8080"
    = "12.34.56.78:12"
  ∧ isValidProxy GoJSON.Unmarshal_ProxyData "socks4://host 12.34.56.78 port 8080"
    = ("12.34.56.78:12", true).
Proof.
  destruct (proj1 (normalizeProxy_fallback GoJSON.Unmarshal_ProxyData)
              "socks4://host 12.34.56.78 port 8080")
    as (Hq & _ & _ & Hn & _ & Hv).
  - reflexivity.
  - reflexivity.
  - exists "12.34.56.78". split.
    + exists "12", "34", "56", "78". repeat split; simpl; lia.
    + by exists "host ", " port 8080".
  - split; [exact Hq|]. split; [exact Hn|exact Hv].
Defined.

(** ** The deduplicator *)

Lemma first_index_lt x l : x ∈ l → (first_index x l < length l)%nat.
Proof.
  induction l as [|y l IH]; [by intros ?%elem_of_nil|].
  intros Hx. simpl. case_decide; [lia|].
  apply elem_of_cons in Hx as [->|Hx]; [done|]. specialize (IH Hx). lia.
Qed.

Lemma first_index_app_l x l l' : x ∈ l → first_index x (l ++ l') = first_index x l.
Proof.
  induction l as [|y l IH]; [by intros ?%elem_of_nil|].
  intros Hx. simpl. case_decide; [done|].
  apply elem_of_cons in Hx as [->|Hx]; [done|]. by rewrite IH.
Qed.

Lemma first_index_app_r x l : x ∉ l → first_index x (l ++ [x]) = length l.
Proof.
  induction l as [|y l IH]; intros Hx; simpl.
  - by rewrite decide_True.
  - apply not_elem_of_cons in Hx as [Hne Hx]. rewrite decide_False by done.
    by rewrite IH.
Qed.

Lemma first_index_lookup x l : x ∈ l → l !! first_index x l = Some x.
Proof.
  induction l as [|y l IH]; [by intros ?%elem_of_nil|].
  intros Hx. simpl. case_decide as Hy; [by subst|].
  apply elem_of_cons in Hx as [->|Hx]; [done|]. by apply IH.
Qed.

Lemma first_index_first x l i : (i < first_index x l)%nat → l !! i ≠ Some x.
Proof.
  revert i. induction l as [|y l IH]; intros i; simpl; [lia|].
  case_decide as Hy; [lia|]. destruct i as [|i]; simpl.
  - congruence.
  - intros Hi. apply IH. lia.
Qed.

Lemma RemoveDuplicates_seen l :
  (foldl RemoveDuplicates_body (∅, []) l).1 = list_to_set l.
Proof.
  induction l as [|x l IH] using rev_ind; [done|].
  rewrite foldl_app. simpl.
  destruct (foldl RemoveDuplicates_body (∅, []) l) as [seen result]. simpl in *.
  subst seen. rewrite list_to_set_app_L. simpl. rewrite union_empty_r_L.
  case_decide as Hx; simpl.
  - apply set_eq. intros y. rewrite elem_of_union, elem_of_singleton.
    split; [by left|]. by intros [?| ->].
  - apply (comm_L (∪)).
Qed.

(** The loop, one more element at a time. *)
Lemma RemoveDuplicates_snoc l x :
  RemoveDuplicates (l ++ [x]) =
  if decide (x ∈ l) then RemoveDuplicates l else RemoveDuplicates l ++ [x].
Proof.
  unfold RemoveDuplicates. rewrite foldl_app. simpl.
  pose proof (RemoveDuplicates_seen l) as Hseen.
  destruct (foldl RemoveDuplicates_body (∅, []) l) as [seen result]. simpl in *.
  subst seen. case_decide as Hx; case_decide as Hx'; try done.
  - apply elem_of_list_to_set in Hx. done.
  - exfalso. apply Hx. by apply elem_of_list_to_set.
Qed.

Lemma RemoveDuplicates_elem_of l x : x ∈ RemoveDuplicates l ↔ x ∈ l.
Proof.
  induction l as [|y l IH] using rev_ind; [done|].
  rewrite RemoveDuplicates_snoc. case_decide as Hy.
  - rewrite IH, elem_of_app, list_elem_of_singleton.
    split; [by left|]. by intros [?| ->].
  - by rewrite !elem_of_app, IH.
Qed.

Lemma RemoveDuplicates_NoDup l : NoDup (RemoveDuplicates l).
Proof.
  induction l as [|y l IH] using rev_ind; [constructor|].
  rewrite RemoveDuplicates_snoc. case_decide as Hy; [done|].
  apply NoDup_app. split; [done|]. split; [|apply NoDup_singleton].
  intros x Hx ->%list_elem_of_singleton. apply Hy. by apply RemoveDuplicates_elem_of.
Qed.

Lemma RemoveDuplicates_order l i j x y :
  RemoveDuplicates l !! i = Some x → RemoveDuplicates l !! j = Some y →
  (i < j)%nat → (first_index x l < first_index y l)%nat.
Proof.
  revert i j x y. induction l as [|z l IH] using rev_ind; intros i j x y; [done|].
  rewrite RemoveDuplicates_snoc. case_decide as Hz.
  - intros Hi Hj Hij.
    assert (x ∈ l) by (apply RemoveDuplicates_elem_of; by eapply list_elem_of_lookup_2).
    assert (y ∈ l) by (apply RemoveDuplicates_elem_of; by eapply list_elem_of_lookup_2).
    rewrite !first_index_app_l by done. eauto.
  - intros Hi Hj Hij.
    assert (Hjl : (j < length (RemoveDuplicates l ++ [z]))%nat) by by eapply lookup_lt_Some.
    rewrite length_app in Hjl. simpl in Hjl.
    rewrite lookup_app_l in Hi by lia.
    assert (x ∈ l) by (apply RemoveDuplicates_elem_of; by eapply list_elem_of_lookup_2).
    rewrite (first_index_app_l x) by done.
    destruct (decide (j = length (RemoveDuplicates l))) as [->|Hne].
    + rewrite lookup_app_r in Hj by lia. rewrite Nat.sub_diag in Hj.
      injection Hj as <-. rewrite first_index_app_r by done.
      by apply first_index_lt.
    + rewrite lookup_app_l in Hj by lia.
      assert (y ∈ l) by (apply RemoveDuplicates_elem_of; by eapply list_elem_of_lookup_2).
      rewrite (first_index_app_l y) by done. eauto.
Qed.

Lemma RemoveDuplicates_length l :
  length (RemoveDuplicates l) = size (list_to_set l : gset string).
Proof.
  induction l as [|z l IH] using rev_ind; [done|].
  rewrite RemoveDuplicates_snoc, list_to_set_app_L. simpl.
  case_decide as Hz.
  - rewrite IH. f_equal.
    assert (z ∈ (list_to_set l : gset string)) by by apply elem_of_list_to_set.
    rewrite union_empty_r_L. apply set_eq. intros x.
    rewrite elem_of_union, elem_of_singleton. split; [by left|]. by intros [?| ->].
  - rewrite length_app, IH. simpl. rewrite size_union.
    + rewrite union_empty_r_L, size_singleton. lia.
    + rewrite union_empty_r_L. intros x Hx ->%elem_of_singleton.
      apply Hz. by apply elem_of_list_to_set in Hx.
Qed.

(** C7: the output has no repeated element, holds exactly the elements
    of the input, lists them in the order of their first occurrences in
    the input, and is as long as the input has distinct elements. *)
Theorem RemoveDuplicates_first_occurrences (proxies : list string) :
  NoDup (RemoveDuplicates proxies)
  ∧ (∀ x, x ∈ RemoveDuplicates proxies ↔ x ∈ proxies)
  ∧ (∀ i j x y,
       RemoveDuplicates proxies !! i = Some x →
       RemoveDuplicates proxies !! j = Some y →
       (i < j)%nat →
       (first_index x proxies < first_index y proxies)%nat)
  ∧ length (RemoveDuplicates proxies) = size (list_to_set proxies : gset string).
Proof.
  split; [apply RemoveDuplicates_NoDup|].
  split; [apply RemoveDuplicates_elem_of|].
  split; [apply RemoveDuplicates_order|apply RemoveDuplicates_length].
Qed.

Lemma RemoveDuplicates_NoDup_id l : NoDup l → RemoveDuplicates l = l.
Proof.
  induction l as [|x l IH] using rev_ind; [done|].
  intros (Hl & Hx & _)%NoDup_app. rewrite RemoveDuplicates_snoc.
  rewrite decide_False.
  - by rewrite IH.
  - intros Hin. apply (Hx x Hin). apply list_elem_of_here.
Qed.

(** Deduplicating a deduplicated list returns it unchanged. *)
Theorem RemoveDuplicates_idempotent (proxies : list string) :
  RemoveDuplicates (RemoveDuplicates proxies) = RemoveDuplicates proxies.
Proof. apply RemoveDuplicates_NoDup_id, RemoveDuplicates_NoDup. Qed.

(** ** The configuration of a run *)

Section LoadingFacts.

Variable ReadFile : string → option string.
Variable yaml_Unmarshal : string → option Config.

(** [LoadConfig] picks the defaults of the two timeouts by the
    [strict_check] value of the file. *)
Lemma LoadConfig_timeout_defaults path data parsed :
  ReadFile path = Some data →
  yaml_Unmarshal data = Some parsed →
  CheckerConfig.Timeout (Checker parsed) = 0 →
  CheckerConfig.ConnectTimeout (Checker parsed) = 0 →
  ∃ config,
    LoadConfig ReadFile yaml_Unmarshal path = Some config
    ∧ CheckerConfig.StrictCheck (Checker config) = CheckerConfig.StrictCheck (Checker parsed)
    ∧ CheckerConfig.Timeout (Checker config) =
        (if CheckerConfig.StrictCheck (Checker parsed) then 3 * Second else 10 * Second)
    ∧ CheckerConfig.ConnectTimeout (Checker config) =
        (if CheckerConfig.StrictCheck (Checker parsed) then 3 * Second else 5 * Second).
Proof.
  intros Hread Hyaml Ht Hc. unfold LoadConfig. rewrite Hread, Hyaml.
  eexists. split; [reflexivity|]. simpl. rewrite Ht, Hc. simpl. done.
Qed.

(** C4 fails on the code: with the timeouts and [strict_check] unset in
    [config.yaml], a run started with [--strict] is in strict mode and
    has the normal-mode defaults, 10 s and 5 s, because [main] sets
    [StrictCheck] after [LoadConfig] has chosen the defaults. *)
Theorem main_config_strict_flag_keeps_normal_defaults detailedOutput data parsed :
  ReadFile "config.yaml" = Some data →
  yaml_Unmarshal data = Some parsed →
  CheckerConfig.Timeout (Checker parsed) = 0 →
  CheckerConfig.ConnectTimeout (Checker parsed) = 0 →
  CheckerConfig.StrictCheck (Checker parsed) = false →
  ∃ config,
    main_config ReadFile yaml_Unmarshal true detailedOutput = Some config
    ∧ CheckerConfig.StrictCheck (Checker config) = true
    ∧ CheckerConfig.Timeout (Checker config) = 10 * Second
    ∧ CheckerConfig.ConnectTimeout (Checker config) = 5 * Second.
Proof.
  intros Hread Hyaml Ht Hc Hs. unfold main_config.
  destruct (LoadConfig_timeout_defaults _ _ _ Hread Hyaml Ht Hc)
    as (config & -> & _ & Ht' & Hc').
  rewrite Hs in Ht', Hc'.
  eexists. split; [reflexivity|]. simpl. done.
Qed.

End LoadingFacts.

Lemma main_config_strict_flag_witness :
  ∃ config,
    main_config (λ _, Some "") (λ _, Some zeroConfig) true false = Some config
    ∧ CheckerConfig.StrictCheck (Checker config) = true
    ∧ CheckerConfig.Timeout (Checker config) = 10 * Second
    ∧ CheckerConfig.ConnectTimeout (Checker config) = 5 * Second.
Proof.
  apply (main_config_strict_flag_keeps_normal_defaults
           (λ _, Some "") (λ _, Some zeroConfig) false "" zeroConfig);
    reflexivity.
Defined.

(** [LoadConfig] alone does what C4 says, for the mode that the file
    names: with both timeouts unset, 3 s and 3 s under [strict_check],
    10 s and 5 s otherwise. *)
Theorem LoadConfig_defaults_follow_the_file ReadFile yaml_Unmarshal path data parsed :
  ReadFile path = Some data →
  yaml_Unmarshal data = Some parsed →
  CheckerConfig.Timeout (Checker parsed) = 0 →
  CheckerConfig.ConnectTimeout (Checker parsed) = 0 →
  ∃ config,
    LoadConfig ReadFile yaml_Unmarshal path = Some config
    ∧ (CheckerConfig.StrictCheck (Checker parsed) = true →
       CheckerConfig.Timeout (Checker config) = 3 * Second
       ∧ CheckerConfig.ConnectTimeout (Checker config) = 3 * Second)
    ∧ (CheckerConfig.StrictCheck (Checker parsed) = false →
       CheckerConfig.Timeout (Checker config) = 10 * Second
       ∧ CheckerConfig.ConnectTimeout (Checker config) = 5 * Second).
Proof.
  intros Hread Hyaml Ht Hc.
  destruct (LoadConfig_timeout_defaults _ _ _ _ _ Hread Hyaml Ht Hc)
    as (config & Hload & _ & Ht' & Hc').
  exists config. split; [done|].
  split; intros Hs; rewrite Hs in Ht', Hc'; done.
Qed.

Lemma LoadConfig_defaults_witness :
  ∃ config,
    LoadConfig (λ _, Some "") (λ _, Some zeroConfig) "config.yaml" = Some config
    ∧ (CheckerConfig.StrictCheck (Checker zeroConfig) = true →
       CheckerConfig.Timeout (Checker config) = 3 * Second
       ∧ CheckerConfig.ConnectTimeout (Checker config) = 3 * Second)
    ∧ (CheckerConfig.StrictCheck (Checker zeroConfig) = false →
       CheckerConfig.Timeout (Checker config) = 10 * Second
       ∧ CheckerConfig.ConnectTimeout (Checker config) = 5 * Second).
Proof.
  apply (LoadConfig_defaults_follow_the_file
           (λ _, Some "") (λ _, Some zeroConfig) "config.yaml" "" zeroConfig);
    reflexivity.
Defined.

(** ** The two validation tiers *)

Section CheckingFacts.

Variable W : World.
Variable config : Config.

Lemma testProxy_basic client :
  CheckerConfig.StrictCheck (Checker config) = false →
  working_of (testProxy W config client) = true ↔ test_URL_OK W config client.
Proof.
  intros Hs. unfold testProxy, test_URL_OK, working_of. rewrite Hs. simpl.
  destruct (NewRequest_ok W _); simpl; [|split; [done|by intros [? _]]].
  destruct (Do W client _) as [|code body]; simpl.
  - split; [done|]. by intros [_ [? ?]].
  - unfold StatusOK. split.
    + intros ->%Z.eqb_eq. eauto.
    + intros [_ [? [= -> _]]]. done.
Qed.

Lemma testProxy_strict client :
  CheckerConfig.StrictCheck (Checker config) = true →
  working_of (testProxy W config client) = true ↔
    (∃ ipData, geolocation W client = Some ipData ∧ IpData.Query ipData ≠ "")
    ∧ is_Some (echoed_headers W client)
    ∧ Since W client < 2 * Second.
Proof.
  intros Hs. unfold testProxy, geolocation, echoed_headers, working_of.
  rewrite Hs. simpl.
  destruct (NewRequest_ok W "http://ip-api.com/json"); simpl;
    [|split; [done|by intros [[? [? _]] _]]].
  destruct (Do W client "http://ip-api.com/json") as [|code1 [|body1]]; simpl;
    try (split; [done|by intros [[? [? _]] _]]).
  destruct (Unmarshal_ipData W body1) as [ipData|]; simpl;
    [|split; [done|by intros [[? [? _]] _]]].
  destruct (String.eqb (IpData.Status ipData) "success"); simpl;
    [|split; [done|by intros [[? [? _]] _]]].
  destruct (NewRequest_ok W "https://httpbin.org/headers"); simpl;
    [|split; [done|by intros (_ & [? ?] & _)]].
  destruct (Do W client "https://httpbin.org/headers") as [|code2 [|body2]]; simpl;
    try (split; [done|by intros (_ & [? ?] & _)]).
  destruct (Unmarshal_headers W body2) as [headers|]; simpl;
    [|split; [done|by intros (_ & [? ?] & _)]].
  rewrite andb_true_iff, Z.ltb_lt, negb_true_iff. split.
  - intros [Ht Hq]. split; [|split; [by eexists|done]].
    exists ipData. split; [done|]. intros E. rewrite E in Hq. done.
  - intros ((d & [= <-] & Hq) & _ & Ht). split; [done|].
    by apply String.eqb_neq.
Qed.

Lemma checkHTTPProxy_Working proxyStr :
  Working (checkHTTPProxy W config proxyStr).2 = true ↔
  url_Parse_ok W proxyStr = true
  ∧ working_of (testProxy W config (HTTP_client config proxyStr)) = true.
Proof.
  unfold checkHTTPProxy, working_of.
  destruct (url_Parse_ok W proxyStr); simpl; [|split; [done|by intros [? _]]].
  destruct (testProxy W config _) as [[[[w i] sp] an] lo]. simpl. tauto.
Qed.

Lemma checkSOCKS5Proxy_Working proxyStr :
  Working (checkSOCKS5Proxy W config proxyStr).2 = true ↔
  SOCKS5_ok W proxyStr = true
  ∧ working_of (testProxy W config (SOCKS5_client config proxyStr)) = true.
Proof.
  unfold checkSOCKS5Proxy, working_of.
  destruct (SOCKS5_ok W proxyStr); simpl; [|split; [done|by intros [? _]]].
  destruct (testProxy W config _) as [[[[w i] sp] an] lo]. simpl. tauto.
Qed.

(** C1 (amended): in strict mode [testProxy] reports working exactly
    when the geolocation lookup succeeds (status "success") with a
    non-empty egress IP, the headers-echo probe is also made, read and
    decoded, and the time elapsed over both probes is under 2 seconds.
    The same holds for the result of a check of either family, whose
    transport must have been built. *)
Theorem strict_check_working :
  CheckerConfig.StrictCheck (Checker config) = true →
  (∀ client,
     working_of (testProxy W config client) = true ↔
       (∃ ipData, geolocation W client = Some ipData ∧ IpData.Query ipData ≠ "")
       ∧ is_Some (echoed_headers W client)
       ∧ Since W client < 2 * Second)
  ∧ (∀ proxyStr,
       Working (checkHTTPProxy W config proxyStr).2 = true ↔
       url_Parse_ok W proxyStr = true
       ∧ (∃ ipData, geolocation W (HTTP_client config proxyStr) = Some ipData
                    ∧ IpData.Query ipData ≠ "")
       ∧ is_Some (echoed_headers W (HTTP_client config proxyStr))
       ∧ Since W (HTTP_client config proxyStr) < 2 * Second)
  ∧ (∀ proxyStr,
       Working (checkSOCKS5Proxy W config proxyStr).2 = true ↔
       SOCKS5_ok W proxyStr = true
       ∧ (∃ ipData, geolocation W (SOCKS5_client config proxyStr) = Some ipData
                    ∧ IpData.Query ipData ≠ "")
       ∧ is_Some (echoed_headers W (SOCKS5_client config proxyStr))
       ∧ Since W (SOCKS5_client config proxyStr) < 2 * Second).
Proof.
  intros Hs. split; [intros; by apply testProxy_strict|]. split.
  - intros p. rewrite checkHTTPProxy_Working. by rewrite testProxy_strict.
  - intros p. rewrite checkSOCKS5Proxy_Working. by rewrite testProxy_strict.
Qed.

(** In strict mode, when both probes come back, the candidate is
    reported anonymous exactly when no echoed header value contains the
    egress IP. *)
Theorem strict_check_anonymous client ipData headers :
  CheckerConfig.StrictCheck (Checker config) = true →
  geolocation W client = Some ipData →
  echoed_headers W client = Some headers →
  anonymous_of (testProxy W config client) = true ↔
  ∀ name v, Headers headers !! name = Some v → Contains v (IpData.Query ipData) = false.
Proof.
  intros Hs. unfold testProxy, geolocation, echoed_headers, anonymous_of.
  rewrite Hs. simpl.
  destruct (NewRequest_ok W "http://ip-api.com/json"); simpl; [|done].
  destruct (Do W client "http://ip-api.com/json") as [|code1 [|body1]]; simpl; try done.
  destruct (Unmarshal_ipData W body1) as [d|]; simpl; [|done].
  destruct (String.eqb (IpData.Status d) "success"); simpl; [|done].
  intros [= ->].
  destruct (NewRequest_ok W "https://httpbin.org/headers"); simpl; [|done].
  destruct (Do W client "https://httpbin.org/headers") as [|code2 [|body2]]; simpl; try done.
  intros ->. simpl. rewrite negb_true_iff. split.
  - intros Hnone name v Hv. apply not_true_is_false. intros Hc.
    assert (Hex : existsb (λ kv : string * string, Contains kv.2 (IpData.Query ipData))
                    (map_to_list (Headers headers)) = true).
    { apply existsb_exists. exists (name, v). split; [|done].
      apply list_elem_of_In. by apply elem_of_map_to_list. }
    congruence.
  - intros Hall. apply not_true_is_false.
    intros ([name v] & Hin%list_elem_of_In%elem_of_map_to_list & Hc)%existsb_exists.
    simpl in Hc. rewrite (Hall _ _ Hin) in Hc. done.
Qed.

End CheckingFacts.

(** *** Concrete worlds *)

Example testProxy_strict_sample :
  testProxy sampleWorld strictConfig (HTTP_client strictConfig "2.2.2.2:8080")
  = (true, "2.2.2.2", 850 * Millisecond, true,
     Some {| ProxyLocation.Country := "Iceland"; ProxyLocation.CountryCode := "";
             ProxyLocation.City := ""; ProxyLocation.Region := "" |}).
Proof. vm_compute. reflexivity. Qed.

Example testProxy_basic_sample :
  testProxy sampleWorld basicConfig (SOCKS5_client basicConfig "2.2.2.2:8080")
  = (true, "", 850 * Millisecond, false, None).
Proof. vm_compute. reflexivity. Qed.

Lemma strict_check_working_witness :
  Working (checkHTTPProxy sampleWorld strictConfig "2.2.2.2:8080").2 = true
  ∧ ∃ ipData,
      geolocation sampleWorld (HTTP_client strictConfig "2.2.2.2:8080") = Some ipData
      ∧ IpData.Query ipData ≠ "".
Proof.
  pose proof (proj1 (proj2 (strict_check_working sampleWorld strictConfig eq_refl))
                "2.2.2.2:8080") as H.
  assert (Hw : Working (checkHTTPProxy sampleWorld strictConfig "2.2.2.2:8080").2 = true)
    by (vm_compute; reflexivity).
  split; [exact Hw|]. apply H in Hw as (_ & Hgeo & _). exact Hgeo.
Defined.

Lemma strict_check_anonymous_witness :
  ∃ ipData headers,
    geolocation sampleWorld (HTTP_client strictConfig "2.2.2.2:8080") = Some ipData
    ∧ echoed_headers sampleWorld (HTTP_client strictConfig "2.2.2.2:8080") = Some headers
    ∧ (anonymous_of
         (testProxy sampleWorld strictConfig (HTTP_client strictConfig "2.2.2.2:8080")) = true
       ↔ ∀ name v, Headers headers !! name = Some v →
                   Contains v (IpData.Query ipData) = false).
Proof.
  destruct (geolocation sampleWorld (HTTP_client strictConfig "2.2.2.2:8080"))
    as [ipData|] eqn:Hgeo; [|vm_compute in Hgeo; discriminate Hgeo].
  destruct (echoed_headers sampleWorld (HTTP_client strictConfig "2.2.2.2:8080"))
    as [headers|] eqn:Hecho; [|vm_compute in Hecho; discriminate Hecho].
  exists ipData, headers. split; [reflexivity|]. split; [reflexivity|].
  exact (strict_check_anonymous sampleWorld strictConfig
           (HTTP_client strictConfig "2.2.2.2:8080") ipData headers eq_refl Hgeo Hecho).
Defined.

(** C1 as stated fails: through a proxy that reaches the geolocation
    endpoint (status "success", egress IP 2.2.2.2) in 850 ms but not the
    echo endpoint, the candidate is not working although the lookup
    succeeded with a non-empty IP and the time is under 2 seconds. *)
Lemma strict_check_echo_failure_rejects :
  ¬ (working_of (testProxy echoFailsWorld strictConfig
                   (HTTP_client strictConfig "2.2.2.2:8080")) = true
     ↔ (∃ ipData,
          geolocation echoFailsWorld (HTTP_client strictConfig "2.2.2.2:8080") = Some ipData
          ∧ IpData.Query ipData ≠ "")
       ∧ Since echoFailsWorld (HTTP_client strictConfig "2.2.2.2:8080") < 2 * Second).
Proof.
  intros [_ H].
  assert (Hw : working_of (testProxy echoFailsWorld strictConfig
                             (HTTP_client strictConfig "2.2.2.2:8080")) = false)
    by (vm_compute; reflexivity).
  rewrite Hw in H. discriminate H. split.
  - eexists. split; [vm_compute; reflexivity|]. simpl. discriminate.
  - vm_compute. reflexivity.
Qed.

(** ** The basic check over the network *)

Lemma in_time_add left e total :
  in_time left (e + total) = in_time left e && in_time (time_left left e) total.
Proof.
  destruct left as [d|]; simpl; [|done].
  apply eq_true_iff_eq. rewrite andb_true_iff, !Z.ltb_lt. lia.
Qed.

Lemma in_time_deadline client total :
  in_time (deadline client) total = true ↔ within (ClientTimeout client) total.
Proof.
  unfold deadline, within. destruct (0 <? ClientTimeout client) eqn:E; simpl.
  - apply Z.ltb_lt in E. rewrite Z.ltb_lt. tauto.
  - apply Z.ltb_ge in E. split; [lia|done].
Qed.

Section BasicCheck.

Variable net : Network.
Variable W : World.
Variable config : Config.

(** [Do] returns a response exactly when the chain of GETs from its
    request comes to an end in time, and with the status of the last
    answer. *)
Lemma Client_do_Response client allowed left via url code :
  (S allowed + length via = 10)%nat →
  (∃ body, Client_do net client (S allowed) left via url = Response code body)
  ↔ ∃ total, GETs net client via url total code ∧ in_time left total = true.
Proof.
  revert left via url. induction allowed as [|allowed IH]; intros left via url Hlen;
    cbn [Client_do]; (split; [|intros (total & HG & Htotal)]).
  - destruct (RoundTrip net client via url) as [|e c loc body] eqn:Hrt; [by intros [? ?]|].
    destruct (in_time left e) eqn:Ht; simpl; [|by intros [? ?]].
    destruct (shouldRedirect c) eqn:Hr; simpl.
    + destruct (String.eqb loc "") eqn:Hloc.
      * apply String.eqb_eq in Hloc. intros [b [= <- _]].
        exists e. split; [|done]. eapply GETs_last; eauto.
      * destruct (URL_Parse net url loc); by intros [? ?].
    + intros [b [= <- _]]. exists e. split; [|done]. eapply GETs_last; eauto.
  - inversion HG as [via' url' e c loc body Hrt Hlast
                    |via' url' e c loc body u total' c' Hrt Hr Hloc Hu Hvia HG']; subst;
      [|lia].
    rewrite Hrt, Htotal. simpl. destruct Hlast as [->| ->]; simpl; [by eexists|].
    destruct (shouldRedirect code); simpl; by eexists.
  - destruct (RoundTrip net client via url) as [|e c loc body] eqn:Hrt; [by intros [? ?]|].
    destruct (in_time left e) eqn:Ht; simpl; [|by intros [? ?]].
    destruct (shouldRedirect c) eqn:Hr; simpl.
    + destruct (String.eqb loc "") eqn:Hloc.
      * apply String.eqb_eq in Hloc. intros [b [= <- _]].
        exists e. split; [|done]. eapply GETs_last; eauto.
      * apply String.eqb_neq in Hloc.
        destruct (URL_Parse net url loc) as [u|] eqn:Hu; [|by intros [? ?]].
        intros Hdo. apply IH in Hdo as (total & HG & Htotal).
        2:{ rewrite length_app. simpl. lia. }
        exists (e + total)%N. split.
        -- eapply GETs_redirect; eauto. lia.
        -- by rewrite in_time_add, Ht.
    + intros [b [= <- _]]. exists e. split; [|done]. eapply GETs_last; eauto.
  - inversion HG as [via' url' e c loc body Hrt Hlast
                    |via' url' e c loc body u total' c' Hrt Hr Hloc Hu Hvia HG']; subst.
    + rewrite Hrt, Htotal. simpl. destruct Hlast as [->| ->]; simpl; [by eexists|].
      destruct (shouldRedirect code); simpl; by eexists.
    + rewrite in_time_add in Htotal. apply andb_prop in Htotal as [Ht Htotal].
      rewrite Hrt, Ht, Hr. simpl.
      apply String.eqb_neq in Hloc. rewrite Hloc, Hu.
      apply IH; [rewrite length_app; simpl; lia|]. eauto.
Qed.

Lemma Client_Do_Response client url code :
  (∃ body, Client_Do net client url = Response code body)
  ↔ ∃ total, GETs net client [] url total code ∧ within (ClientTimeout client) total.
Proof.
  unfold Client_Do. rewrite Client_do_Response by done.
  by setoid_rewrite in_time_deadline.
Qed.

Lemma testProxy_basic_GETs client :
  CheckerConfig.StrictCheck (Checker config) = false →
  working_of (testProxy (served_by net W) config client) = true ↔
    NewRequest_ok W (CheckerConfig.TestURL (Checker config)) = true
    ∧ ∃ total,
        GETs net client [] (CheckerConfig.TestURL (Checker config)) total 200
        ∧ within (ClientTimeout client) total.
Proof.
  intros Hs. rewrite testProxy_basic by done. unfold test_URL_OK. simpl.
  by rewrite Client_Do_Response.
Qed.

Lemma check_Working t p :
  Working (check (served_by net W) config t p) = true ↔
  constructed W t p = true
  ∧ working_of (testProxy (served_by net W) config
                  match t with
                  | ProxyTypeHTTP => HTTP_client config p
                  | ProxyTypeSOCKS5 => SOCKS5_client config p
                  end) = true.
Proof.
  destruct t.
  - exact (checkHTTPProxy_Working (served_by net W) config p).
  - exact (checkSOCKS5Proxy_Working (served_by net W) config p).
Qed.

(** C5 (amended): in basic mode [testProxy] reports working exactly when
    the request is built and the GETs that [Do] makes, the one of the
    test URL and those that redirects lead to from there, ten at most,
    are all answered, the last one with status 200, before the timeout
    of the client has passed since the first was sent (a timeout that is
    not positive sets no limit).  The same holds for the result of a
    check of either family, whose transport must have been built and
    whose client goes through the candidate with the configured time
    limits.  Where the answer to the GET of the test URL is no redirect
    and the configured timeout is positive, that is the single GET of
    the specification: answered with status 200 in less than the
    timeout. *)
Theorem basic_check_working :
  CheckerConfig.StrictCheck (Checker config) = false →
  (∀ client,
     working_of (testProxy (served_by net W) config client) = true ↔
       NewRequest_ok W (CheckerConfig.TestURL (Checker config)) = true
       ∧ ∃ total,
           GETs net client [] (CheckerConfig.TestURL (Checker config)) total 200
           ∧ within (ClientTimeout client) total)
  ∧ (∀ t p,
     Working (check (served_by net W) config t p) = true ↔
       constructed W t p = true
       ∧ NewRequest_ok W (CheckerConfig.TestURL (Checker config)) = true
       ∧ ∃ total,
           GETs net (client_of config t p) [] (CheckerConfig.TestURL (Checker config))
             total 200
           ∧ within (CheckerConfig.Timeout (Checker config)) total)
  ∧ (∀ t p elapsed code loc body,
       RoundTrip net (client_of config t p) [] (CheckerConfig.TestURL (Checker config))
         = Answer elapsed code loc body →
       shouldRedirect code = false →
       0 < CheckerConfig.Timeout (Checker config) →
       Working (check (served_by net W) config t p) = true ↔
         constructed W t p = true
         ∧ NewRequest_ok W (CheckerConfig.TestURL (Checker config)) = true
         ∧ single_GET_200 net config (client_of config t p)).
Proof.
  intros Hs.
  assert (Hcheck : ∀ t p,
            Working (check (served_by net W) config t p) = true ↔
              constructed W t p = true
              ∧ NewRequest_ok W (CheckerConfig.TestURL (Checker config)) = true
              ∧ ∃ total,
                  GETs net (client_of config t p) []
                    (CheckerConfig.TestURL (Checker config)) total 200
                  ∧ within (CheckerConfig.Timeout (Checker config)) total).
  { intros t p. rewrite check_Working, testProxy_basic_GETs by done.
    by destruct t. }
  split; [intros client; by apply testProxy_basic_GETs|].
  split; [exact Hcheck|].
  intros t p elapsed code loc body Hrt Hr Hpos. rewrite Hcheck.
  split; intros (Hc & Hreq & H); (split; [done|split; [done|]]).
  - destruct H as (total & HG & Htotal).
    inversion HG as [? ? e c l b Hrt' _|? ? e c l b ? ? ? Hrt' Hr' _ _ _ _]; subst;
      rewrite Hrt in Hrt'; injection Hrt' as ? ? ? ?; subst; [|congruence].
    eexists _, _, _. split; [done|]. by apply Htotal.
  - destruct H as (e & l & b & Hrt' & Hlt). exists e. split.
    + eapply GETs_last; [exact Hrt'|]. by left.
    + by intros _.
Qed.

End BasicCheck.

(** C5 as stated fails.  Through the proxy 2.2.2.2:8080 the GET of the
    test URL is answered with status 302 and a Location header; [Do]
    follows it, the second GET is answered with status 200, and the
    candidate is working although the GET of the test URL did not have
    status 200.  And with [timeout: -1s] the client has no time limit:
    the candidate 3.3.3.3:1080, whose answer takes 700 ms, is working,
    although no answer comes within the configured timeout. *)
Lemma basic_check_follows_redirects :
  (Working (checkHTTPProxy (served_by redirectingNetwork sampleWorld) basicConfig
              "2.2.2.2:8080").2 = true
   ∧ (∃ elapsed body,
        RoundTrip redirectingNetwork (HTTP_client basicConfig "2.2.2.2:8080") []
          (CheckerConfig.TestURL (Checker basicConfig))
        = Answer elapsed 302 "https://checkip.amazonaws.com/" body)
   ∧ ¬ single_GET_200 redirectingNetwork basicConfig
         (HTTP_client basicConfig "2.2.2.2:8080"))
  ∧ (Working (checkSOCKS5Proxy (served_by redirectingNetwork sampleWorld) untimedConfig
                "3.3.3.3:1080").2 = true
     ∧ ¬ single_GET_200 redirectingNetwork untimedConfig
           (SOCKS5_client untimedConfig "3.3.3.3:1080")).
Proof.
  split; [split; [|split]|split].
  - vm_compute. reflexivity.
  - eexists _, _. vm_compute. reflexivity.
  - intros (e & l & b & Hrt & _). vm_compute in Hrt. discriminate Hrt.
  - vm_compute. reflexivity.
  - intros (e & l & b & Hrt & Hlt). vm_compute in Hrt. injection Hrt as <- _ _.
    vm_compute in Hlt. discriminate Hlt.
Qed.

Lemma basic_check_working_witness :
  Working (check (served_by redirectingNetwork sampleWorld) basicConfig
             ProxyTypeHTTP "2.2.2.2:8080") = true
  ∧ single_GET_200 redirectingNetwork basicConfig
      (client_of basicConfig ProxyTypeSOCKS5 "3.3.3.3:1080").
Proof.
  destruct (basic_check_working redirectingNetwork sampleWorld basicConfig eq_refl)
    as (_ & Hcheck & Hsingle).
  split.
  - apply Hcheck.
    split; [reflexivity|]. split; [reflexivity|].
    exists (400000000 + 450000000)%N. split.
    + apply (GETs_redirect redirectingNetwork _ [] "http://checkip.amazonaws.com"
               400000000 302 "https://checkip.amazonaws.com/" (λ _, Body "")
               "https://checkip.amazonaws.com/" 450000000 200);
        [reflexivity|reflexivity|discriminate|reflexivity|simpl; lia|].
      apply (GETs_last redirectingNetwork _ _ "https://checkip.amazonaws.com/"
               450000000 200 "" (λ _, Body "2.2.2.2")); [reflexivity|by left].
    + intros _. vm_compute. reflexivity.
  - apply (Hsingle ProxyTypeSOCKS5 "3.3.3.3:1080" 700000000%N 200 "" (λ _, Body "3.3.3.3"));
      [reflexivity|reflexivity|vm_compute; reflexivity|].
    vm_compute. reflexivity.
Defined.

(** ** Runs of [CheckProxies] *)

Lemma wrap64_small z : - 2 ^ 63 ≤ z < 2 ^ 63 → wrap64 z = z.
Proof. intros H. unfold wrap64. rewrite Z.mod_small; lia. Qed.

Lemma count_ops_insert f (gs : list (list op)) i o rest :
  gs !! i = Some (o :: rest) →
  count_ops f gs = (f o + count_ops f (<[i := rest]> gs))%nat.
Proof.
  unfold count_ops. revert i. induction gs as [|g gs IH]; intros [|i]; simpl; try done.
  - intros [= ->]. simpl. lia.
  - intros H. rewrite (IH _ H). lia.
Qed.

Lemma count_ops_all_done f gs :
  forallb (λ g, bool_decide (g = [])) gs = true → count_ops f gs = 0%nat.
Proof.
  unfold count_ops. induction gs as [|g gs IH]; simpl; [done|].
  intros [Hg Hgs]%andb_prop. apply bool_decide_eq_true in Hg as ->.
  simpl. by apply IH.
Qed.

Lemma count_ops_app f gs1 gs2 :
  count_ops f (gs1 ++ gs2) = (count_ops f gs1 + count_ops f gs2)%nat.
Proof. unfold count_ops. apply sum_list_with_app. Qed.

Lemma count_results_app P l1 l2 :
  count_results P (l1 ++ l2) = (count_results P l1 + count_results P l2)%nat.
Proof. unfold count_results. apply sum_list_with_app. Qed.

Section RunFacts.

Variable W : World.
Variable config : Config.

Lemma perform_goroutines o r r' :
  perform config o r = Some r' → goroutines r' = goroutines r.
Proof.
  destruct o as [[]|[result|t w]|[] line|[]]; simpl;
    repeat case_match; intros [= <-]; done.
Qed.

Lemma step_Worker i r r' :
  step config (Worker i) r = Some r' →
  ∃ o rest r1,
    goroutines r !! i = Some (o :: rest)
    ∧ perform config o r = Some r1
    ∧ r' = with_goroutines (<[i := rest]> (goroutines r)) r1.
Proof.
  simpl. destruct (goroutines r !! i) as [[|o rest]|] eqn:Hi; try done.
  destruct (perform config o r) as [r1|] eqn:Hp; [|done]. simpl. intros [= <-].
  exists o, rest, r1. by rewrite (perform_goroutines _ _ _ Hp).
Qed.

(** The effects of one check: one call of [updateProgress] for its
    family, and one send of its result unless the transport could not be
    built. *)
Lemma goroutine_updates t t' p :
  sum_list_with (is_update t') (goroutine W config t p)
  = if decide (t = t') then 1%nat else 0%nat.
Proof.
  unfold goroutine, checkHTTPProxy, checkSOCKS5Proxy.
  destruct t, t'; simpl;
    repeat (case_match; simpl; simplify_eq); try done.
Qed.

Lemma goroutine_sends t t' p p' :
  sum_list_with (is_send (result_of t' p')) (goroutine W config t p)
  = if constructed W t p && String.eqb p p' && bool_decide (t = t') then 1%nat else 0%nat.
Proof.
  unfold goroutine, checkHTTPProxy, checkSOCKS5Proxy, result_of.
  destruct t; simpl.
  - destruct (url_Parse_ok W p); simpl; [|done].
    destruct (testProxy W config _) as [[[[w i] sp] an] lo]. simpl.
    destruct (String.eqb p p'), t'; simpl; by destruct w.
  - destruct (SOCKS5_ok W p); simpl; [|done].
    destruct (testProxy W config _) as [[[[w i] sp] an] lo]. simpl.
    destruct (String.eqb p p'), t'; simpl; by destruct w.
Qed.

Lemma perform_counters nH nS o r r1 gs :
  nH < 2 ^ 63 → nS < 2 ^ 63 →
  perform config o r = Some r1 →
  count_ops (is_update ProxyTypeHTTP) (goroutines r)
    = (is_update ProxyTypeHTTP o + count_ops (is_update ProxyTypeHTTP) gs)%nat →
  count_ops (is_update ProxyTypeSOCKS5) (goroutines r)
    = (is_update ProxyTypeSOCKS5 o + count_ops (is_update ProxyTypeSOCKS5) gs)%nat →
  counters_inv nH nS r → counters_inv nH nS (with_goroutines gs r1).
Proof.
  intros HnH HnS Hp HH HS (HtH & HtS & HcH & HcS & HwH & HwS).
  unfold counters_inv. rewrite HH in HcH. rewrite HS in HcS.
  destruct o as [[]|[result|t w]|[] line|[]]; simpl in Hp;
    repeat case_match; simplify_eq; simpl in *;
    try (repeat split; lia).
  (* updateProgress *)
  destruct t, w; simpl in *; rewrite ?wrap64_small by lia; repeat split; lia.
Qed.

Lemma step_counters nH nS a r r' :
  nH < 2 ^ 63 → nS < 2 ^ 63 →
  step config a r = Some r' → counters_inv nH nS r → counters_inv nH nS r'.
Proof.
  intros HnH HnS Hstep Hinv. destruct a as [i|].
  - apply step_Worker in Hstep as (o & rest & r1 & Hi & Hp & ->).
    eapply perform_counters; eauto using count_ops_insert.
  - simpl in Hstep. destruct (ResultChan (checker r)) as [|x q]; [done|].
    injection Hstep as <-. exact Hinv.
Qed.

Lemma exec_counters nH nS schedule r r' :
  nH < 2 ^ 63 → nS < 2 ^ 63 →
  exec config schedule r = Some r' → counters_inv nH nS r → counters_inv nH nS r'.
Proof.
  intros HnH HnS. revert r. induction schedule as [|a schedule IH]; intros r; simpl.
  - by intros [= <-].
  - destruct (step config a r) as [r1|] eqn:Hstep; [|done]. simpl.
    intros Hexec Hinv. eapply IH; [done|]. by eapply step_counters.
Qed.

Lemma step_published P n a r r' :
  step config a r = Some r' → published_inv P n r → published_inv P n r'.
Proof.
  unfold published_inv, published. intros Hstep <-. destruct a as [i|].
  - apply step_Worker in Hstep as (o & rest & r1 & Hi & Hp & ->).
    rewrite (count_ops_insert _ _ _ _ _ Hi).
    destruct o as [[]|[result|t w]|[] line|[]]; simpl in Hp;
      repeat case_match; simplify_eq; simpl; try lia.
    + rewrite !count_results_app. simpl. lia.
    + by destruct t.
  - simpl in Hstep. destruct (ResultChan (checker r)) as [|x q] eqn:Hq; [done|].
    injection Hstep as <-. simpl. rewrite <- app_assoc. done.
Qed.

Lemma exec_published P n schedule r r' :
  exec config schedule r = Some r' → published_inv P n r → published_inv P n r'.
Proof.
  revert r. induction schedule as [|a schedule IH]; intros r; simpl.
  - by intros [= <-].
  - destruct (step config a r) as [r1|] eqn:Hstep; [|done]. simpl.
    intros Hexec Hinv. eapply IH; [done|]. by eapply step_published.
Qed.

(** The goroutines that [CheckProxies] starts. *)
Lemma start_updates c files httpProxies socks5Proxies :
  count_ops (is_update ProxyTypeHTTP)
    (goroutines (start W config c files httpProxies socks5Proxies)) = length httpProxies
  ∧ count_ops (is_update ProxyTypeSOCKS5)
      (goroutines (start W config c files httpProxies socks5Proxies)) = length socks5Proxies.
Proof.
  simpl. rewrite !count_ops_app. unfold count_ops.
  assert (Hsame : ∀ t l, sum_list_with (sum_list_with (is_update t))
                           (goroutine W config t <$> l) = length l).
  { intros t l. induction l as [|p l IH]; [done|]. simpl.
    rewrite goroutine_updates, decide_True by done. simpl. f_equal. exact IH. }
  assert (Hother : ∀ t t' l, t ≠ t' →
            sum_list_with (sum_list_with (is_update t'))
              (goroutine W config t <$> l) = 0%nat).
  { intros t t' l Hne. induction l as [|p l IH]; [done|]. simpl.
    rewrite goroutine_updates, decide_False by done. simpl. exact IH. }
  rewrite !Hsame. rewrite !Hother by done. lia.
Qed.

Lemma start_sends c files httpProxies socks5Proxies t p :
  count_ops (is_send (result_of t p))
    (goroutines (start W config c files httpProxies socks5Proxies))
  = if constructed W t p
    then occurrences p (match t with
                        | ProxyTypeHTTP => httpProxies
                        | ProxyTypeSOCKS5 => socks5Proxies
                        end)
    else 0%nat.
Proof.
  simpl. rewrite !count_ops_app. unfold count_ops, occurrences.
  assert (Hsame : ∀ t l, sum_list_with (sum_list_with (is_send (result_of t p)))
                           (goroutine W config t <$> l)
                         = if constructed W t p
                           then sum_list_with (λ p', if String.eqb p' p then 1 else 0)%nat l
                           else 0%nat).
  { intros t0 l. induction l as [|p' l IH]; simpl; [by destruct (constructed W t0 p)|].
    rewrite goroutine_sends, bool_decide_true by done. rewrite andb_true_r.
    change (list_fmap string (list op) (goroutine W config t0) l)
      with (goroutine W config t0 <$> l).
    rewrite IH.
    destruct (String.eqb p' p) eqn:E.
    - apply String.eqb_eq in E as ->. by destruct (constructed W t0 p).
    - rewrite andb_false_r. by destruct (constructed W t0 p). }
  assert (Hother : ∀ t0 l, t0 ≠ t →
            sum_list_with (sum_list_with (is_send (result_of t p)))
              (goroutine W config t0 <$> l) = 0%nat).
  { intros t0 l Hne. induction l as [|p' l IH]; [done|]. simpl.
    rewrite goroutine_sends, bool_decide_false by done. rewrite andb_false_r.
    exact IH. }
  destruct t.
  - rewrite Hsame, Hother by done. lia.
  - rewrite Hsame, Hother by done. lia.
Qed.

Lemma CheckProxies_returns schedule c files httpProxies socks5Proxies r :
  CheckProxies W config schedule c files httpProxies socks5Proxies = Some r →
  ∃ r0,
    exec config schedule (start W config c files httpProxies socks5Proxies) = Some r0
    ∧ all_done r0 = true
    ∧ goroutines r = goroutines r0
    ∧ published r = published r0
    ∧ checkedHTTP (checker r) = checkedHTTP (checker r0)
    ∧ checkedSOCKS5 (checker r) = checkedSOCKS5 (checker r0)
    ∧ workingHTTP (checker r) = workingHTTP (checker r0)
    ∧ workingSOCKS5 (checker r) = workingSOCKS5 (checker r0)
    ∧ totalHTTP (checker r) = totalHTTP (checker r0)
    ∧ totalSOCKS5 (checker r) = totalSOCKS5 (checker r0)
    ∧ closed (checker r) = true.
Proof.
  unfold CheckProxies. case_match; [done|].
  destruct (exec config schedule _) as [r0|] eqn:Hexec; [|done].
  destruct (all_done r0) eqn:Hdone; [|done]. simpl.
  case_match; [|done]. intros [= <-]. exists r0. by repeat split.
Qed.

Lemma CheckProxies_final_counters schedule files httpProxies socks5Proxies r :
  Z.of_nat (length httpProxies) < 2 ^ 63 →
  Z.of_nat (length socks5Proxies) < 2 ^ 63 →
  CheckProxies W config schedule NewProxyChecker files httpProxies socks5Proxies = Some r →
  counters_inv (Z.of_nat (length httpProxies)) (Z.of_nat (length socks5Proxies)) r
  ∧ count_ops (is_update ProxyTypeHTTP) (goroutines r) = 0%nat
  ∧ count_ops (is_update ProxyTypeSOCKS5) (goroutines r) = 0%nat.
Proof.
  intros HnH HnS Hret.
  apply CheckProxies_returns in Hret
    as (r0 & Hexec & Hdone & Hg & _ & HcH & HcS & HwH & HwS & HtH & HtS & _).
  assert (Hinit : counters_inv (Z.of_nat (length httpProxies))
                    (Z.of_nat (length socks5Proxies))
                    (start W config NewProxyChecker files httpProxies socks5Proxies)).
  { destruct (start_updates NewProxyChecker files httpProxies socks5Proxies) as [HH HS].
    unfold counters_inv. rewrite HH, HS. simpl. repeat split; lia. }
  pose proof (exec_counters _ _ _ _ _ HnH HnS Hexec Hinit) as Hfin.
  unfold counters_inv in *.
  rewrite Hg, HcH, HcS, HwH, HwS, HtH, HtS.
  split; [exact Hfin|]. split; by apply count_ops_all_done.
Qed.

(** C6: when [CheckProxies], called on a new checker, returns, both
    checked counters equal their totals, which are the lengths of the
    two input lists, and each working counter is at most its checked
    counter.  (A Go slice is shorter than 2^63, the bound assumed of the
    lists.) *)
Theorem CheckProxies_counters schedule files httpProxies socks5Proxies r :
  Z.of_nat (length httpProxies) < 2 ^ 63 →
  Z.of_nat (length socks5Proxies) < 2 ^ 63 →
  CheckProxies W config schedule NewProxyChecker files httpProxies socks5Proxies = Some r →
  totalHTTP (checker r) = Z.of_nat (length httpProxies)
  ∧ totalSOCKS5 (checker r) = Z.of_nat (length socks5Proxies)
  ∧ checkedHTTP (checker r) = totalHTTP (checker r)
  ∧ checkedSOCKS5 (checker r) = totalSOCKS5 (checker r)
  ∧ workingHTTP (checker r) ≤ checkedHTTP (checker r)
  ∧ workingSOCKS5 (checker r) ≤ checkedSOCKS5 (checker r).
Proof.
  intros HnH HnS Hret.
  destruct (CheckProxies_final_counters _ _ _ _ _ HnH HnS Hret)
    as ((HtH & HtS & HcH & HcS & HwH & HwS) & H0 & H0').
  rewrite H0 in HcH. rewrite H0' in HcS. repeat split; lia.
Qed.

(** The results published for a candidate of a family during a run that
    returns: one for each time the candidate stands in the family's
    list, and none when its transport cannot be built. *)
Lemma CheckProxies_published schedule files httpProxies socks5Proxies r t p :
  CheckProxies W config schedule NewProxyChecker files httpProxies socks5Proxies = Some r →
  count_results (result_of t p) (published r)
  = if constructed W t p
    then occurrences p (match t with
                        | ProxyTypeHTTP => httpProxies
                        | ProxyTypeSOCKS5 => socks5Proxies
                        end)
    else 0%nat.
Proof.
  intros Hret.
  apply CheckProxies_returns in Hret as (r0 & Hexec & Hdone & _ & -> & _).
  rewrite <- (start_sends NewProxyChecker files httpProxies socks5Proxies t p).
  assert (Hinit : published_inv (result_of t p)
            (count_ops (is_send (result_of t p))
               (goroutines (start W config NewProxyChecker files httpProxies socks5Proxies)))
            (start W config NewProxyChecker files httpProxies socks5Proxies)).
  { unfold published_inv, published. done. }
  pose proof (exec_published _ _ _ _ _ Hexec Hinit) as Hfin.
  unfold published_inv in Hfin.
  rewrite (count_ops_all_done _ _ Hdone) in Hfin. lia.
Qed.

(** C2 fails on the code: an HTTP candidate on which [url.Parse] fails
    is counted as checked, and no result for it is ever sent on
    [ResultChan]. *)
Theorem CheckProxies_parse_error_unpublished
    schedule files httpProxies socks5Proxies r p :
  Z.of_nat (length httpProxies) < 2 ^ 63 →
  Z.of_nat (length socks5Proxies) < 2 ^ 63 →
  CheckProxies W config schedule NewProxyChecker files httpProxies socks5Proxies = Some r →
  p ∈ httpProxies →
  url_Parse_ok W p = false →
  count_results (result_of ProxyTypeHTTP p) (published r) = 0%nat
  ∧ checkedHTTP (checker r) = Z.of_nat (length httpProxies).
Proof.
  intros HnH HnS Hret _ Hparse. split.
  - rewrite (CheckProxies_published _ _ _ _ _ ProxyTypeHTTP p Hret). simpl.
    by rewrite Hparse.
  - destruct (CheckProxies_final_counters _ _ _ _ _ HnH HnS Hret)
      as ((_ & _ & HcH & _) & H0 & _).
    rewrite H0 in HcH. lia.
Qed.

End RunFacts.

(** *** A run in the sample world *)

Example CheckProxies_sample :
  (λ r, (checkedHTTP (checker r), workingHTTP (checker r),
         checkedSOCKS5 (checker r), workingSOCKS5 (checker r),
         outHTTP r, Proxy <$> published r))
  <$> CheckProxies sampleWorld basicConfig sampleSchedule NewProxyChecker ([], [])
        [header; "2.2.2.2:8080"] ["3.3.3.3:1080"]
  = Some (2, 1, 1, 0, ["2.2.2.2:8080"], ["2.2.2.2:8080"; "3.3.3.3:1080"]).
Proof. vm_compute. reflexivity. Qed.

Lemma CheckProxies_counters_witness :
  Z.of_nat (length [header; "2.2.2.2:8080"]) < 2 ^ 63
  ∧ Z.of_nat (length ["3.3.3.3:1080"]) < 2 ^ 63
  ∧ ∃ r,
      CheckProxies sampleWorld basicConfig sampleSchedule NewProxyChecker ([], [])
        [header; "2.2.2.2:8080"] ["3.3.3.3:1080"] = Some r
      ∧ totalHTTP (checker r) = 2
      ∧ totalSOCKS5 (checker r) = 1
      ∧ checkedHTTP (checker r) = totalHTTP (checker r)
      ∧ checkedSOCKS5 (checker r) = totalSOCKS5 (checker r)
      ∧ workingHTTP (checker r) ≤ checkedHTTP (checker r)
      ∧ workingSOCKS5 (checker r) ≤ checkedSOCKS5 (checker r).
Proof.
  assert (H2 : Z.of_nat (length [header; "2.2.2.2:8080"]) < 2 ^ 63) by (simpl; lia).
  assert (H1 : Z.of_nat (length ["3.3.3.3:1080"]) < 2 ^ 63) by (simpl; lia).
  split; [exact H2|]. split; [exact H1|].
  destruct (CheckProxies sampleWorld basicConfig sampleSchedule NewProxyChecker ([], [])
              [header; "2.2.2.2:8080"] ["3.3.3.3:1080"]) as [r|] eqn:E.
  - exists r. split; [reflexivity|].
    exact (CheckProxies_counters sampleWorld basicConfig sampleSchedule ([], [])
             [header; "2.2.2.2:8080"] ["3.3.3.3:1080"] r H2 H1 E).
  - vm_compute in E. discriminate E.
Defined.

Lemma CheckProxies_parse_error_witness :
  url_Parse_ok sampleWorld header = false
  ∧ ∃ r,
      CheckProxies sampleWorld basicConfig sampleSchedule NewProxyChecker ([], [])
        [header; "2.2.2.2:8080"] ["3.3.3.3:1080"] = Some r
      ∧ count_results (result_of ProxyTypeHTTP header) (published r) = 0%nat
      ∧ checkedHTTP (checker r) = 2.
Proof.
  assert (H2 : Z.of_nat (length [header; "2.2.2.2:8080"]) < 2 ^ 63) by (simpl; lia).
  assert (H1 : Z.of_nat (length ["3.3.3.3:1080"]) < 2 ^ 63) by (simpl; lia).
  assert (Hin : header ∈ [header; "2.2.2.2:8080"]) by apply list_elem_of_here.
  split; [reflexivity|].
  destruct (CheckProxies sampleWorld basicConfig sampleSchedule NewProxyChecker ([], [])
              [header; "2.2.2.2:8080"] ["3.3.3.3:1080"]) as [r|] eqn:E.
  - exists r. split; [reflexivity|].
    exact (CheckProxies_parse_error_unpublished sampleWorld basicConfig sampleSchedule
             ([], []) [header; "2.2.2.2:8080"] ["3.3.3.3:1080"] r header H2 H1 E Hin
             eq_refl).
  - vm_compute in E. discriminate E.
Defined.

(** *** [CheckProxies] returns *)

Section Progress.

Variable W : World.
Variable config : Config.

Lemma exec_app s1 s2 r :
  exec config (s1 ++ s2) r = exec config s1 r ≫= exec config s2.
Proof.
  revert r. induction s1 as [|a s1 IH]; intros r; simpl; [done|].
  destruct (step config a r); simpl; [apply IH|done].
Qed.

Lemma exec_inner i ops tail r :
  Forall inner ops →
  ResultChan (checker r) = [] → closed (checker r) = false →
  goroutines r !! i = Some (ops ++ tail) →
  ∃ r',
    exec config (flat_map (turn i) ops) r = Some r'
    ∧ goroutines r' = <[i := tail]> (goroutines r)
    ∧ ResultChan (checker r') = [] ∧ closed (checker r') = false
    ∧ semHTTP r' = semHTTP r ∧ semSOCKS5 r' = semSOCKS5 r.
Proof.
  intros Hops. revert r. induction Hops as [|o ops Ho _ IH]; intros r Hq Hc Hi.
  - exists r. simpl in *. rewrite list_insert_id by done. done.
  - assert (Hlt : (i < length (goroutines r))%nat) by by eapply lookup_lt_Some.
    assert (Hnext : ∀ r1,
      goroutines r1 = <[i := ops ++ tail]> (goroutines r) →
      ResultChan (checker r1) = [] → closed (checker r1) = false →
      semHTTP r1 = semHTTP r → semSOCKS5 r1 = semSOCKS5 r →
      ∃ r', exec config (flat_map (turn i) ops) r1 = Some r'
            ∧ goroutines r' = <[i := tail]> (goroutines r)
            ∧ ResultChan (checker r') = [] ∧ closed (checker r') = false
            ∧ semHTTP r' = semHTTP r ∧ semSOCKS5 r' = semSOCKS5 r).
    { intros r1 Hg Hq1 Hc1 HsH HsS.
      destruct (IH r1 Hq1 Hc1) as (r' & Hexec & Hg' & ? & ? & ? & ?).
      { rewrite Hg. by apply list_lookup_insert_eq. }
      exists r'. rewrite Hg, list_insert_insert_eq in Hg'.
      repeat split; try done; congruence. }
    destruct o as [t|[result|t w]|t line|t]; try done.
    + (* a send, received at once *)
      cbn [flat_map turn app exec step]. simpl in Hi. rewrite Hi.
      cbn [perform]. rewrite Hc, Hq. simpl. apply Hnext; done.
    + cbn [flat_map turn app exec step]. simpl in Hi. rewrite Hi.
      cbn [perform]. simpl. apply Hnext; simpl; try done; by destruct t.
    + cbn [flat_map turn app exec step]. simpl in Hi. rewrite Hi.
      destruct t; cbn [perform]; simpl; apply Hnext; done.
Qed.

Lemma goroutine_shape t p :
  ∃ ops, goroutine W config t p = Acquire t :: ops ++ [Release t] ∧ Forall inner ops.
Proof.
  unfold goroutine.
  destruct (match t with
            | ProxyTypeHTTP => checkHTTPProxy W config p
            | ProxyTypeSOCKS5 => checkSOCKS5Proxy W config p
            end) as [effects result].
  eexists. split.
  - simpl. rewrite app_assoc. reflexivity.
  - apply Forall_app. split.
    + apply Forall_fmap. by apply Forall_true.
    + destruct (Working result); by repeat constructor.
Qed.

Lemma exec_goroutine i t p r :
  1 ≤ CheckerConfig.ConcurrentHTTP (Checker config) →
  1 ≤ CheckerConfig.ConcurrentSOCKS5 (Checker config) →
  quiet r →
  goroutines r !! i = Some (goroutine W config t p) →
  ∃ r',
    exec config (flat_map (turn i) (goroutine W config t p)) r = Some r'
    ∧ quiet r'
    ∧ goroutines r' = <[i := []]> (goroutines r).
Proof.
  intros HH HS (HsH & HsS & Hq & Hc) Hi.
  destruct (goroutine_shape t p) as (ops & Hshape & Hops). rewrite Hshape in *.
  assert (Hlt : (i < length (goroutines r))%nat) by by eapply lookup_lt_Some.
  change (Acquire t :: ops ++ [Release t]) with ([Acquire t] ++ ops ++ [Release t]).
  rewrite !flat_map_app, !exec_app.
  (* the semaphore is taken *)
  assert (Hacq : ∃ r1, exec config (flat_map (turn i) [Acquire t]) r = Some r1
            ∧ goroutines r1 = <[i := ops ++ [Release t]]> (goroutines r)
            ∧ ResultChan (checker r1) = [] ∧ closed (checker r1) = false
            ∧ semHTTP r1 = (if decide (t = ProxyTypeHTTP) then 1 else 0)
            ∧ semSOCKS5 r1 = (if decide (t = ProxyTypeSOCKS5) then 1 else 0)).
  { cbn [flat_map turn app exec step]. rewrite Hi.
    destruct t; cbn [perform]; rewrite ?HsH, ?HsS.
    - destruct (Z.ltb_spec 0 (CheckerConfig.ConcurrentHTTP (Checker config))); [|lia].
      simpl. eexists. split; [reflexivity|]. simpl. done.
    - destruct (Z.ltb_spec 0 (CheckerConfig.ConcurrentSOCKS5 (Checker config))); [|lia].
      simpl. eexists. split; [reflexivity|]. simpl. done. }
  destruct Hacq as (r1 & -> & Hg1 & Hq1 & Hc1 & HsH1 & HsS1). simpl.
  rewrite exec_app.
  (* the check *)
  destruct (exec_inner i ops [Release t] r1 Hops Hq1 Hc1)
    as (r2 & -> & Hg2 & Hq2 & Hc2 & HsH2 & HsS2).
  { rewrite Hg1. by apply list_lookup_insert_eq. }
  simpl. rewrite Hg1, list_insert_insert_eq in Hg2.
  (* the semaphore is given back *)
  cbn [flat_map turn app exec step]. rewrite Hg2, list_lookup_insert_eq by done.
  destruct t; cbn [perform]; simpl; eexists; (split; [reflexivity|]); simpl;
    rewrite ?Hg2, ?list_insert_insert_eq; unfold quiet; simpl;
    rewrite ?HsH2, ?HsS2, ?HsH1, ?HsS1; simpl; done.
Qed.

Lemma exec_sequential done todo r :
  1 ≤ CheckerConfig.ConcurrentHTTP (Checker config) →
  1 ≤ CheckerConfig.ConcurrentSOCKS5 (Checker config) →
  quiet r →
  Forall (λ g, g = []) done →
  Forall (λ g, ∃ t p, g = goroutine W config t p) todo →
  goroutines r = done ++ todo →
  ∃ r',
    exec config (sequential_from (length done) todo) r = Some r'
    ∧ all_done r' = true ∧ closed (checker r') = false.
Proof.
  intros HH HS Hquiet Hdone Htodo. revert done r Hquiet Hdone.
  induction Htodo as [|g todo (t & p & ->) _ IH]; intros done r Hquiet Hdone Hg.
  - exists r. simpl. split; [done|]. split; [|by destruct Hquiet as (_ & _ & _ & ?)].
    unfold all_done. rewrite Hg, app_nil_r. apply forallb_forall.
    intros g Hin%list_elem_of_In. rewrite Forall_forall in Hdone.
    apply bool_decide_eq_true. by apply Hdone.
  - simpl. rewrite exec_app.
    destruct (exec_goroutine (length done) t p r HH HS Hquiet) as (r1 & -> & Hq1 & Hg1).
    { rewrite Hg. by rewrite lookup_app_r, Nat.sub_diag by lia. }
    simpl.
    destruct (IH (done ++ [[]]) r1 Hq1) as (r' & Hexec & Hfin).
    + apply Forall_app. split; [done|]. by repeat constructor.
    + rewrite Hg1, Hg. rewrite insert_app_r_alt, Nat.sub_diag by lia. simpl.
      by rewrite <- app_assoc.
    + rewrite length_app in Hexec. simpl in Hexec. rewrite Nat.add_1_r in Hexec.
      exists r'. done.
Qed.

(** When both semaphores have room for one goroutine, [CheckProxies] on
    a new checker returns under the sequential schedule. *)
Lemma CheckProxies_sequential files httpProxies socks5Proxies :
  1 ≤ CheckerConfig.ConcurrentHTTP (Checker config) →
  1 ≤ CheckerConfig.ConcurrentSOCKS5 (Checker config) →
  is_Some
    (CheckProxies W config
       (sequential (goroutines (start W config NewProxyChecker files
                                  httpProxies socks5Proxies)))
       NewProxyChecker files httpProxies socks5Proxies).
Proof.
  intros HH HS. unfold CheckProxies.
  destruct (Z.ltb_spec (CheckerConfig.ConcurrentHTTP (Checker config)) 0); [lia|].
  destruct (Z.ltb_spec (CheckerConfig.ConcurrentSOCKS5 (Checker config)) 0); [lia|].
  simpl orb. cbv iota.
  destruct (exec_sequential []
              (goroutines (start W config NewProxyChecker files httpProxies socks5Proxies))
              (start W config NewProxyChecker files httpProxies socks5Proxies) HH HS)
    as (r' & Hexec & Hdone & Hclosed); try done.
  - simpl. apply Forall_app. split; apply Forall_fmap, Forall_true; intros p; simpl; eauto.
  - unfold sequential. change (length (@nil (list op))) with 0%nat in Hexec.
    rewrite Hexec, Hdone, Hclosed. simpl. by eexists.
Qed.

End Progress.

(** *** What a run leaves behind *)

Section Outputs.

Variable W : World.
Variable config : Config.

Lemma count_lines_app Q l1 l2 :
  count_lines Q (l1 ++ l2) = (count_lines Q l1 + count_lines Q l2)%nat.
Proof. unfold count_lines. apply sum_list_with_app. Qed.

Lemma step_lines t Q n a r r' :
  step config a r = Some r' → lines_inv t Q n r → lines_inv t Q n r'.
Proof.
  unfold lines_inv. intros Hstep <-. destruct a as [i|].
  - apply step_Worker in Hstep as (o & rest & r1 & Hi & Hp & ->).
    rewrite (count_ops_insert _ _ _ _ _ Hi).
    destruct o as [[]|[result|t' w]|[] line|[]]; simpl in Hp;
      repeat case_match; simplify_eq; destruct t; simpl;
      rewrite ?count_lines_app; simpl; lia.
  - simpl in Hstep. destruct (ResultChan (checker r)) as [|x q]; [done|].
    injection Hstep as <-. by destruct t.
Qed.

Lemma exec_lines t Q n schedule r r' :
  exec config schedule r = Some r' → lines_inv t Q n r → lines_inv t Q n r'.
Proof.
  revert r. induction schedule as [|a schedule IH]; intros r; simpl.
  - by intros [= <-].
  - destruct (step config a r) as [r1|] eqn:Hstep; [|done]. simpl.
    intros Hexec Hinv. eapply IH; [done|]. by eapply step_lines.
Qed.

Lemma step_working nH nS t n a r r' :
  nH < 2 ^ 63 → nS < 2 ^ 63 →
  step config a r = Some r' →
  counters_inv nH nS r → working_inv t n r → working_inv t n r'.
Proof.
  unfold working_inv. intros HnH HnS Hstep (_ & _ & HcH & HcS & HwH & HwS) <-.
  destruct a as [i|].
  - apply step_Worker in Hstep as (o & rest & r1 & Hi & Hp & ->).
    rewrite (count_ops_insert (is_working_update t) _ _ _ _ Hi).
    rewrite (count_ops_insert (is_update ProxyTypeHTTP) _ _ _ _ Hi) in HcH.
    rewrite (count_ops_insert (is_update ProxyTypeSOCKS5) _ _ _ _ Hi) in HcS.
    destruct o as [[]|[result|t' w]|[] line|[]]; simpl in Hp;
      repeat case_match; simplify_eq; destruct t; simpl in *; try lia.
    all: destruct t', w; simpl in *; rewrite ?wrap64_small by lia; lia.
  - simpl in Hstep. destruct (ResultChan (checker r)) as [|x q]; [done|].
    injection Hstep as <-. by destruct t.
Qed.

Lemma exec_working nH nS t n schedule r r' :
  nH < 2 ^ 63 → nS < 2 ^ 63 →
  exec config schedule r = Some r' →
  counters_inv nH nS r → working_inv t n r → working_inv t n r'.
Proof.
  intros HnH HnS. revert r. induction schedule as [|a schedule IH]; intros r; simpl.
  - by intros [= <-].
  - destruct (step config a r) as [r1|] eqn:Hstep; [|done]. simpl.
    intros Hexec Hc Hw. eapply IH; [done| |].
    + by eapply step_counters.
    + exact (step_working _ _ _ _ _ _ _ HnH HnS Hstep Hc Hw).
Qed.

Lemma goroutine_appends t t' Q p :
  sum_list_with (is_append t' Q) (goroutine W config t p)
  = if bool_decide (t = t')
       && Working (check W config t p)
       && Q (formatProxyOutput W config (check W config t p))
    then 1%nat else 0%nat.
Proof.
  unfold goroutine, check.
  destruct (match t with
            | ProxyTypeHTTP => checkHTTPProxy W config p
            | ProxyTypeSOCKS5 => checkSOCKS5Proxy W config p
            end) as [effects result] eqn:E.
  assert (Heff : sum_list_with (is_append t' Q) (Eff <$> effects) = 0%nat).
  { clear E. induction effects as [|e effects IH]; [done|]. simpl. exact IH. }
  assert (Hres : match t with
                 | ProxyTypeHTTP => (checkHTTPProxy W config p).2
                 | ProxyTypeSOCKS5 => (checkSOCKS5Proxy W config p).2
                 end = result).
  { destruct t; by rewrite E. }
  rewrite Hres. simpl. rewrite !sum_list_with_app, Heff.
  destruct (Working result), (Q (formatProxyOutput W config result)) eqn:HQ,
    t, t'; simpl; rewrite ?HQ; done.
Qed.

Lemma goroutine_working_updates t t' p :
  sum_list_with (is_working_update t') (goroutine W config t p)
  = if bool_decide (t = t') && Working (check W config t p) then 1%nat else 0%nat.
Proof.
  unfold goroutine, check, checkHTTPProxy, checkSOCKS5Proxy.
  destruct t; simpl.
  - destruct (url_Parse_ok W p); simpl; [|by destruct t'].
    destruct (testProxy W config _) as [[[[w i] sp] an] lo]. simpl.
    destruct w, t'; simpl; done.
  - destruct (SOCKS5_ok W p); simpl; [|by destruct t'].
    destruct (testProxy W config _) as [[[[w i] sp] an] lo]. simpl.
    destruct w, t'; simpl; done.
Qed.

Lemma start_appends c files httpProxies socks5Proxies t Q :
  count_ops (is_append t Q)
    (goroutines (start W config c files httpProxies socks5Proxies))
  = working_lines W config t Q
      (match t with
       | ProxyTypeHTTP => httpProxies
       | ProxyTypeSOCKS5 => socks5Proxies
       end).
Proof.
  cbn [start goroutines]. rewrite count_ops_app. unfold count_ops, working_lines.
  assert (Hall : ∀ t0 l,
            sum_list_with (sum_list_with (is_append t Q)) (goroutine W config t0 <$> l)
            = if bool_decide (t0 = t)
              then sum_list_with
                     (λ p, if Working (check W config t0 p)
                              && Q (formatProxyOutput W config (check W config t0 p))
                           then 1 else 0)%nat l
              else 0%nat).
  { intros t0 l. induction l as [|p l IH]; [by case_bool_decide|].
    rewrite fmap_cons. cbn [sum_list_with]. rewrite IH, goroutine_appends.
    case_bool_decide; simpl; done. }
  rewrite !Hall. destruct t; simpl; lia.
Qed.

Lemma start_working_updates c files httpProxies socks5Proxies t :
  count_ops (is_working_update t)
    (goroutines (start W config c files httpProxies socks5Proxies))
  = working_lines W config t (λ _, true)
      (match t with
       | ProxyTypeHTTP => httpProxies
       | ProxyTypeSOCKS5 => socks5Proxies
       end).
Proof.
  cbn [start goroutines]. rewrite count_ops_app. unfold count_ops, working_lines.
  assert (Hall : ∀ t0 l,
            sum_list_with (sum_list_with (is_working_update t)) (goroutine W config t0 <$> l)
            = if bool_decide (t0 = t)
              then sum_list_with
                     (λ p, if Working (check W config t0 p) && true then 1 else 0)%nat l
              else 0%nat).
  { intros t0 l. induction l as [|p l IH]; [by case_bool_decide|].
    rewrite fmap_cons. cbn [sum_list_with]. rewrite IH, goroutine_working_updates.
    case_bool_decide; simpl; [|done]. by rewrite andb_true_r. }
  rewrite !Hall. destruct t; simpl; lia.
Qed.

Lemma run_working_lines schedule files httpProxies socks5Proxies r t Q :
  Z.of_nat (length httpProxies) < 2 ^ 63 →
  Z.of_nat (length socks5Proxies) < 2 ^ 63 →
  CheckerConfig.StrictCheck (Checker config)
    && CheckerConfig.DetailedOutput (Checker config) = false →
  CheckProxies W config schedule NewProxyChecker files httpProxies socks5Proxies = Some r →
  let candidates := match t with
                    | ProxyTypeHTTP => httpProxies
                    | ProxyTypeSOCKS5 => socks5Proxies
                    end in
  working_count t (checker r)
    = Z.of_nat (working_lines W config t (λ _, true) candidates)
  ∧ count_lines Q (out_of t r)
    = (count_lines Q (match t with ProxyTypeHTTP => files.1 | ProxyTypeSOCKS5 => files.2 end)
       + working_lines W config t Q candidates)%nat.
Proof.
  intros HnH HnS Hdetailed Hret candidates.
  unfold CheckProxies in Hret. case_match; [done|].
  destruct (exec config schedule _) as [r0|] eqn:Hexec; [|done].
  destruct (all_done r0) eqn:Hdone; [|done]. simpl in Hret.
  case_match; [|done]. injection Hret as <-.
  set (r1 := start W config NewProxyChecker files httpProxies socks5Proxies) in *.
  assert (Hc : counters_inv (Z.of_nat (length httpProxies))
                 (Z.of_nat (length socks5Proxies)) r1).
  { destruct (start_updates W config NewProxyChecker files httpProxies socks5Proxies)
      as [HH HS].
    unfold counters_inv. fold r1 in HH, HS. rewrite HH, HS. simpl. repeat split; lia. }
  split.
  - assert (Hw : working_inv t
                   (Z.of_nat (working_lines W config t (λ _, true) candidates)) r1).
    { unfold working_inv, r1.
      rewrite start_working_updates. by destruct t. }
    pose proof (exec_working _ _ _ _ _ _ _ HnH HnS Hexec Hc Hw) as Hfin.
    unfold working_inv in Hfin. rewrite (count_ops_all_done _ _ Hdone) in Hfin.
    destruct t; simpl in *; lia.
  - assert (Hl : lines_inv t Q
                   (count_lines Q (match t with
                                   | ProxyTypeHTTP => files.1
                                   | ProxyTypeSOCKS5 => files.2
                                   end)
                    + working_lines W config t Q candidates) r1).
    { unfold lines_inv, r1. rewrite start_appends.
      destruct t; simpl; by rewrite Hdetailed. }
    pose proof (exec_lines _ _ _ _ _ _ Hexec Hl) as Hfin.
    unfold lines_inv in Hfin. rewrite (count_ops_all_done _ _ Hdone) in Hfin.
    destruct t; simpl in *; lia.
Qed.

Lemma count_lines_true l : count_lines (λ _, true) l = length l.
Proof. unfold count_lines. induction l as [|x l IH]; simpl; [done|]. by rewrite IH. Qed.

End Outputs.

(** The results published for a candidate whose transport is built:
    as many as the candidate stands in its family's list, so exactly one
    when the list has no duplicates. *)
Theorem CheckProxies_publishes_constructed
    W config schedule files httpProxies socks5Proxies r t p :
  CheckProxies W config schedule NewProxyChecker files httpProxies socks5Proxies = Some r →
  constructed W t p = true →
  count_results (result_of t p) (published r)
  = occurrences p (match t with
                   | ProxyTypeHTTP => httpProxies
                   | ProxyTypeSOCKS5 => socks5Proxies
                   end).
Proof.
  intros Hret Hc. rewrite (CheckProxies_published _ _ _ _ _ _ _ _ _ Hret).
  by rewrite Hc.
Qed.

Lemma CheckProxies_publishes_constructed_witness :
  constructed sampleWorld ProxyTypeHTTP "2.2.2.2:8080" = true
  ∧ ∃ r,
      CheckProxies sampleWorld basicConfig sampleSchedule NewProxyChecker ([], [])
        [header; "2.2.2.2:8080"] ["3.3.3.3:1080"] = Some r
      ∧ count_results (result_of ProxyTypeHTTP "2.2.2.2:8080") (published r)
        = occurrences "2.2.2.2:8080" [header; "2.2.2.2:8080"].
Proof.
  split; [reflexivity|].
  destruct (CheckProxies sampleWorld basicConfig sampleSchedule NewProxyChecker ([], [])
              [header; "2.2.2.2:8080"] ["3.3.3.3:1080"]) as [r|] eqn:E.
  - exists r. split; [reflexivity|].
    exact (CheckProxies_publishes_constructed sampleWorld basicConfig sampleSchedule
             ([], []) [header; "2.2.2.2:8080"] ["3.3.3.3:1080"] r ProxyTypeHTTP
             "2.2.2.2:8080" E eq_refl).
  - vm_compute in E. discriminate E.
Defined.

Lemma CheckProxies_sequential_witness :
  is_Some
    (CheckProxies sampleWorld basicConfig
       (sequential (goroutines (start sampleWorld basicConfig NewProxyChecker ([], [])
                                  [header; "2.2.2.2:8080"] ["3.3.3.3:1080"])))
       NewProxyChecker ([], []) [header; "2.2.2.2:8080"] ["3.3.3.3:1080"]).
Proof.
  apply (CheckProxies_sequential sampleWorld basicConfig ([], [])
           [header; "2.2.2.2:8080"] ["3.3.3.3:1080"]); simpl; lia.
Defined.

(** The end-to-end scenario: sources yielding 1.1.1.1:80, 2.2.2.2:8080
    and 1.1.1.1:80 again, and 3.3.3.3:8080 from the previous output
    file, make three candidates; in a world where only 2.2.2.2:8080
    passes the basic check, every run that returns has checked the
    three, counted one working, and left exactly the line 2.2.2.2:8080
    in the output file. *)
Theorem end_to_end_scenario schedule r :
  CheckProxies sampleWorld basicConfig schedule NewProxyChecker ([], [])
    (RemoveDuplicates (["1.1.1.1:80"; "2.2.2.2:8080"; "1.1.1.1:80"] ++ ["3.3.3.3:8080"]))
    [] = Some r →
  RemoveDuplicates (["1.1.1.1:80"; "2.2.2.2:8080"; "1.1.1.1:80"] ++ ["3.3.3.3:8080"])
    = ["1.1.1.1:80"; "2.2.2.2:8080"; "3.3.3.3:8080"]
  ∧ checkedHTTP (checker r) = 3
  ∧ workingHTTP (checker r) = 1
  ∧ outHTTP r = ["2.2.2.2:8080"].
Proof.
  assert (Hd : RemoveDuplicates
                 (["1.1.1.1:80"; "2.2.2.2:8080"; "1.1.1.1:80"] ++ ["3.3.3.3:8080"])
               = ["1.1.1.1:80"; "2.2.2.2:8080"; "3.3.3.3:8080"])
    by (vm_compute; reflexivity).
  rewrite Hd. intros Hret. split; [done|].
  assert (H3 : Z.of_nat (length ["1.1.1.1:80"; "2.2.2.2:8080"; "3.3.3.3:8080"]) < 2 ^ 63)
    by (simpl; lia).
  assert (H0 : Z.of_nat (length (@nil string)) < 2 ^ 63) by (simpl; lia).
  destruct (CheckProxies_final_counters _ _ _ _ _ _ _ H3 H0 Hret)
    as ((_ & _ & HcH & _) & Hz & _).
  rewrite Hz in HcH. simpl in HcH. split; [lia|].
  destruct (run_working_lines sampleWorld basicConfig schedule ([], []) _ _ r
              ProxyTypeHTTP (λ _, true) H3 H0 eq_refl Hret) as [Hw Hlen].
  destruct (run_working_lines sampleWorld basicConfig schedule ([], []) _ _ r
              ProxyTypeHTTP (λ l, negb (String.eqb l "2.2.2.2:8080")) H3 H0 eq_refl Hret)
    as [_ Hother].
  split; [exact Hw|].
  simpl out_of in Hlen, Hother. rewrite count_lines_true in Hlen.
  change (length (outHTTP r) = 1%nat) in Hlen.
  change (count_lines (λ l, negb (String.eqb l "2.2.2.2:8080")) (outHTTP r) = 0%nat)
    in Hother.
  destruct (outHTTP r) as [|x [|y l]]; try done.
  unfold count_lines in Hother. simpl in Hother.
  destruct (String.eqb x "2.2.2.2:8080") eqn:E; [|done].
  by apply String.eqb_eq in E as ->.
Qed.

Lemma end_to_end_scenario_witness :
  ∃ r,
    CheckProxies sampleWorld basicConfig
      [Worker 0; Worker 1; Worker 1; Worker 0; Consumer; Worker 0; Worker 0; Worker 2;
       Consumer; Worker 1; Worker 2; Worker 1; Consumer; Worker 2; Worker 1; Worker 2]
      NewProxyChecker ([], [])
      (RemoveDuplicates (["1.1.1.1:80"; "2.2.2.2:8080"; "1.1.1.1:80"] ++ ["3.3.3.3:8080"]))
      [] = Some r
    ∧ checkedHTTP (checker r) = 3
    ∧ workingHTTP (checker r) = 1
    ∧ outHTTP r = ["2.2.2.2:8080"].
Proof.
  destruct (CheckProxies sampleWorld basicConfig
      [Worker 0; Worker 1; Worker 1; Worker 0; Consumer; Worker 0; Worker 0; Worker 2;
       Consumer; Worker 1; Worker 2; Worker 1; Consumer; Worker 2; Worker 1; Worker 2]
      NewProxyChecker ([], [])
      (RemoveDuplicates (["1.1.1.1:80"; "2.2.2.2:8080"; "1.1.1.1:80"] ++ ["3.3.3.3:8080"]))
      []) as [r|] eqn:E.
  - exists r. split; [reflexivity|].
    exact (proj2 (end_to_end_scenario _ r E)).
  - vm_compute in E. discriminate E.
Defined.

(** ** The JSON parser never runs out of fuel *)

Section ParserFuel.

Import GoJSON.

Abbreviation len := String.length.

Lemma skip_ws_length s : (len (skip_ws s) ≤ len s)%nat.
Proof.
  induction s as [|c s IH]; simpl; [lia|]. destruct (is_space c); simpl; lia.
Qed.

Lemma emit_Some out x t r : emit out x = Some (t, r) → ∃ t', x = Some (t', r).
Proof. destruct x as [[t' r']|]; simpl; [|done]. intros [= _ ->]. eauto. Qed.

(** A string literal ends at a quote: at least one byte is read. *)
Lemma string_lit_consumes n :
  ∀ s, (len s ≤ n)%nat → ∀ p t r, string_lit p s = Some (t, r) → (len r < len s)%nat.
Proof.
  induction n as [|n IH]; intros s Hn p t r H.
  { destruct s; [done|simpl in Hn; lia]. }
  destruct s as [|c s']; [done|]. cbn [string_lit] in H. simpl in Hn.
  assert (Hrec : ∀ q x out, (len x ≤ len s')%nat →
            emit out (string_lit q x) = Some (t, r) → (len r < S (len s'))%nat).
  { intros q x out Hx [t' Hlit]%emit_Some. apply IH in Hlit; lia. }
  simpl.
  destruct p as [|p]; [|eapply Hrec; [|exact H]; lia].
  destruct (Ascii.eqb c "034"); [injection H as _ <-; lia|].
  destruct (Ascii.eqb c "\").
  - destruct s' as [|e s2]; [done|].
    destruct (Ascii.eqb e "u").
    + destruct s2 as [|a [|b [|c' [|d s3]]]]; try done.
      destruct (hex4 a b c' d) as [rr|]; [|done].
      destruct ((55296 <=? rr)%N && (rr <? 57344)%N);
        [|eapply Hrec; [|exact H]; simpl; lia].
      destruct s3 as [|bs [|u [|a1 [|b1 [|c1 [|d1 s4]]]]]];
        try (eapply Hrec; [|exact H]; simpl; lia).
      destruct (if Ascii.eqb bs "\" && Ascii.eqb u "u" then hex4 a1 b1 c1 d1 else None);
        [|eapply Hrec; [|exact H]; simpl; lia].
      destruct ((rr <? 56320)%N && (56320 <=? n0)%N && (n0 <? 57344)%N);
        eapply Hrec; try exact H; simpl; lia.
    + destruct (escape e); [|done]. eapply Hrec; [|exact H]. simpl. lia.
  - destruct (byte c <? 32)%N; [done|].
    destruct (utf8_tail (String c s')); eapply Hrec; try exact H; lia.
Qed.

Lemma digits_length s d r : digits s = (d, r) → len s = (len d + len r)%nat.
Proof.
  revert d r. induction s as [|c s IH]; intros d r; simpl.
  - by intros [= <- <-].
  - destruct (is_digit c); [|by intros [= <- <-]].
    destruct (digits s) as [d' r'] eqn:E. intros [= <- <-].
    simpl. by rewrite (IH _ _ eq_refl).
Qed.

Lemma digits_nonempty s d r :
  digits s = (d, r) → String.eqb d "" = false → (len r < len s)%nat.
Proof.
  intros H Hd. apply digits_length in H. destruct d; [done|]. simpl in H. lia.
Qed.

Lemma number_consumes s lx r : number s = Some (lx, r) → (len r < len s)%nat.
Proof.
  unfold number.
  destruct (num_sign s) as [sign s1] eqn:Hsign.
  assert (H1 : (len s1 ≤ len s)%nat).
  { unfold num_sign in Hsign. destruct s as [|c s']; [by injection Hsign as _ <-|].
    destruct (Ascii.eqb c "-"); injection Hsign as _ <-; simpl; lia. }
  destruct (num_int s1) as [[i s2]|] eqn:Hint; [|done].
  assert (H2 : (len s2 < len s1)%nat).
  { unfold num_int in Hint. destruct s1 as [|c s']; [done|].
    destruct (Ascii.eqb c "0"); [injection Hint as _ <-; simpl; lia|].
    destruct (digits (String c s')) as [d r'] eqn:E.
    destruct (String.eqb d "") eqn:Hd; [done|]. injection Hint as _ <-.
    by eapply digits_nonempty. }
  destruct (num_frac s2) as [[f s3]|] eqn:Hfrac; [|done].
  assert (H3 : (len s3 ≤ len s2)%nat).
  { unfold num_frac in Hfrac. destruct s2 as [|c s']; [by injection Hfrac as _ <-|].
    destruct (Ascii.eqb c "."); [|by injection Hfrac as _ <-].
    destruct (digits s') as [d r'] eqn:E.
    destruct (String.eqb d "") eqn:Hd; [done|]. injection Hfrac as _ <-.
    apply digits_length in E. simpl. lia. }
  destruct (num_exp s3) as [[e s4]|] eqn:Hexp; [|done].
  assert (H4 : (len s4 ≤ len s3)%nat).
  { unfold num_exp in Hexp. destruct s3 as [|c s']; [by injection Hexp as _ <-|].
    destruct (Ascii.eqb c "e" || Ascii.eqb c "E"); [|by injection Hexp as _ <-].
    destruct (match s' with
              | String c0 t =>
                  if Ascii.eqb c0 "+" || Ascii.eqb c0 "-" then (String c0 "", t) else ("", s')
              | EmptyString => ("", s')
              end) as [sg s''] eqn:Hsg.
    assert (len s'' ≤ len s')%nat.
    { destruct s' as [|c0 t]; [by injection Hsg as _ <-|].
      destruct (Ascii.eqb c0 "+" || Ascii.eqb c0 "-"); injection Hsg as _ <-; simpl; lia. }
    destruct (digits s'') as [d r'] eqn:E.
    destruct (String.eqb d "") eqn:Hd; [done|]. injection Hexp as _ <-.
    apply digits_length in E. simpl. lia. }
  intros [= _ <-]. lia.
Qed.

Lemma HasPrefix_drop s p :
  HasPrefix s p = true → (len (drop (len p) s) + len p)%nat = len s.
Proof.
  unfold HasPrefix. revert s. induction p as [|a p IH]; intros s; simpl.
  - destruct s; simpl; lia.
  - destruct s as [|b s]; simpl; [done|].
    destruct (ascii_dec a b); [|done]. intros H. rewrite <- (IH _ H). lia.
Qed.

Lemma value_with_consuming mem el :
  consuming mem → consuming el → consuming (value_with mem el).
Proof.
  intros Hmem Hel d s v r. unfold value_with.
  destruct s as [|c s1]; [done|].
  pose proof (skip_ws_length s1) as Hws.
  destruct (Ascii.eqb c "{").
  { destruct (d <? maxNestingDepth)%N; [|done].
    destruct (skip_ws s1) as [|c2 s2] eqn:E; [done|].
    destruct (Ascii.eqb c2 "}"); [intros [= _ <-]; simpl in *; lia|].
    destruct (mem (d + 1)%N (String c2 s2)) as [[ms s3]|] eqn:Hm; [|done].
    intros [= _ <-]. apply Hmem in Hm. simpl in *. lia. }
  destruct (Ascii.eqb c "[").
  { destruct (d <? maxNestingDepth)%N; [|done].
    destruct (skip_ws s1) as [|c2 s2] eqn:E; [done|].
    destruct (Ascii.eqb c2 "]"); [intros [= _ <-]; simpl in *; lia|].
    destruct (el (d + 1)%N (String c2 s2)) as [[vs s3]|] eqn:He; [|done].
    intros [= _ <-]. apply Hel in He. simpl in *. lia. }
  destruct (Ascii.eqb c "034").
  { destruct (string_lit 0 s1) as [[txt s2]|] eqn:Hl; [|done].
    intros [= _ <-]. apply (string_lit_consumes _ _ (le_n _)) in Hl. simpl. lia. }
  destruct (HasPrefix (String c s1) "true") eqn:Ht.
  { intros [= _ <-]. apply HasPrefix_drop in Ht. simpl in *. lia. }
  destruct (HasPrefix (String c s1) "false") eqn:Hf.
  { intros [= _ <-]. apply HasPrefix_drop in Hf. simpl in *. lia. }
  destruct (HasPrefix (String c s1) "null") eqn:Hn.
  { intros [= _ <-]. apply HasPrefix_drop in Hn. simpl in *. lia. }
  destruct (number (String c s1)) as [[lx s2]|] eqn:Hnum; [|done].
  intros [= _ <-]. by apply number_consumes in Hnum.
Qed.

Lemma elems_with_consuming val el :
  consuming val → consuming el → consuming (elems_with val el).
Proof.
  intros Hval Hel d s vs r. unfold elems_with.
  destruct (val d s) as [[v s1]|] eqn:Hv; [|done]. apply Hval in Hv.
  pose proof (skip_ws_length s1) as Hws.
  destruct (skip_ws s1) as [|c s2]; [done|].
  destruct (Ascii.eqb c ",").
  - pose proof (skip_ws_length s2) as Hws2.
    destruct (el d (skip_ws s2)) as [[vs' s3]|] eqn:He; [|done].
    intros [= _ <-]. apply Hel in He. simpl in *. lia.
  - destruct (Ascii.eqb c "]"); [|done]. intros [= _ <-]. simpl in *. lia.
Qed.

Lemma members_with_consuming val mem :
  consuming val → consuming mem → consuming (members_with val mem).
Proof.
  intros Hval Hmem d s ms r. unfold members_with.
  destruct s as [|q s1]; [done|].
  destruct (Ascii.eqb q "034"); [|done].
  destruct (string_lit 0 s1) as [[key s2]|] eqn:Hl; [|done].
  apply (string_lit_consumes _ _ (le_n _)) in Hl.
  pose proof (skip_ws_length s2) as Hws2.
  destruct (skip_ws s2) as [|c s3]; [done|].
  destruct (Ascii.eqb c ":"); [|done].
  pose proof (skip_ws_length s3) as Hws3.
  destruct (val d (skip_ws s3)) as [[v s4]|] eqn:Hv; [|done]. apply Hval in Hv.
  pose proof (skip_ws_length s4) as Hws4.
  destruct (skip_ws s4) as [|c' s5]; [done|].
  destruct (Ascii.eqb c' ",").
  - pose proof (skip_ws_length s5) as Hws5.
    destruct (mem d (skip_ws s5)) as [[ms' s6]|] eqn:Hm; [|done].
    intros [= _ <-]. apply Hmem in Hm. simpl in *. lia.
  - destruct (Ascii.eqb c' "}"); [|done]. intros [= _ <-]. simpl in *. lia.
Qed.

Lemma parser_consuming fuel :
  consuming (value fuel) ∧ consuming (elems fuel) ∧ consuming (members fuel).
Proof.
  induction fuel as [|f (IHv & IHe & IHm)]; [by repeat split|].
  split; [by apply value_with_consuming|].
  split; [by apply elems_with_consuming|by apply members_with_consuming].
Qed.

Lemma value_S f d s : value (S f) d s = value_with (members f) (elems f) d s.
Proof. reflexivity. Qed.

Lemma elems_S f d s : elems (S f) d s = elems_with (value f) (elems f) d s.
Proof. reflexivity. Qed.

Lemma members_S f d s : members (S f) d s = members_with (value f) (members f) d s.
Proof. reflexivity. Qed.

(** One more unit of fuel changes nothing once the fuel is twice the
    length of the text, and a little. *)
Lemma parser_stable fuel :
  (∀ d s, (2 * len s + 1 ≤ fuel)%nat → value (S fuel) d s = value fuel d s)
  ∧ (∀ d s, (2 * len s + 2 ≤ fuel)%nat → elems (S fuel) d s = elems fuel d s)
  ∧ (∀ d s, (2 * len s + 2 ≤ fuel)%nat → members (S fuel) d s = members fuel d s).
Proof.
  induction fuel as [|f (IHv & IHe & IHm)]; [repeat split; intros; lia|].
  destruct (parser_consuming f) as (Cv & Ce & Cm).
  split; [|split].
  - intros d s Hf. rewrite (value_S (S f)), (value_S f). unfold value_with.
    destruct s as [|c s1]; [done|]. simpl in Hf.
    pose proof (skip_ws_length s1) as Hws.
    rewrite (IHm (d + 1)%N (skip_ws s1)) by lia.
    rewrite (IHe (d + 1)%N (skip_ws s1)) by lia. done.
  - intros d s Hf. rewrite (elems_S (S f)), (elems_S f). unfold elems_with.
    rewrite (IHv d s) by lia.
    destruct (value f d s) as [[v s1]|] eqn:Hv; [|done]. apply Cv in Hv.
    pose proof (skip_ws_length s1) as Hws.
    destruct (skip_ws s1) as [|c s2]; [done|].
    pose proof (skip_ws_length s2) as Hws2. simpl in Hws.
    rewrite (IHe d (skip_ws s2)) by lia. done.
  - intros d s Hf. rewrite (members_S (S f)), (members_S f). unfold members_with.
    destruct s as [|q s1]; [done|]. simpl in Hf.
    destruct (Ascii.eqb q "034"); [|done].
    destruct (string_lit 0 s1) as [[key s2]|] eqn:Hl; [|done].
    apply (string_lit_consumes _ _ (le_n _)) in Hl.
    pose proof (skip_ws_length s2) as Hws2.
    destruct (skip_ws s2) as [|c s3]; [done|]. simpl in Hws2.
    pose proof (skip_ws_length s3) as Hws3.
    rewrite (IHv d (skip_ws s3)) by lia.
    destruct (value f d (skip_ws s3)) as [[v s4]|] eqn:Hv; [|done]. apply Cv in Hv.
    pose proof (skip_ws_length s4) as Hws4.
    destruct (skip_ws s4) as [|c' s5]; [done|]. simpl in Hws4.
    pose proof (skip_ws_length s5) as Hws5.
    rewrite (IHm d (skip_ws s5)) by lia. done.
Qed.

(** The fuel of [parse] is enough: no greater amount changes the value
    that is read. *)
Lemma value_fuel_enough s fuel d :
  (parse_fuel s ≤ fuel)%nat →
  value fuel d (skip_ws s) = value (parse_fuel s) d (skip_ws s).
Proof.
  unfold parse_fuel. pose proof (skip_ws_length s) as Hws.
  induction 1 as [|f Hf IH]; [done|].
  rewrite <- IH. apply (parser_stable f). lia.
Qed.

End ParserFuel.

(** ** [truncateURL] *)

Lemma length_take n s : String.length (take n s) = Nat.min n (String.length s).
Proof.
  revert s. induction n as [|n IH]; intros [|c s]; simpl; try done.
  by rewrite IH.
Qed.

Lemma truncateURL_fits (url : string) (maxLength : Z) :
  3 ≤ maxLength < 2 ^ 63 →
  ∃ short,
    truncateURL url maxLength = Some short
    ∧ Z.of_nat (String.length short) ≤ maxLength
    ∧ (Z.of_nat (String.length url) ≤ maxLength → short = url)
    ∧ (maxLength < Z.of_nat (String.length url) →
       short = take (Z.to_nat (maxLength - 3)) url +:+ "..."
       ∧ Z.of_nat (String.length short) = maxLength).
Proof.
  intros Hmax. unfold truncateURL.
  destruct (Z.leb_spec (Z.of_nat (String.length url)) maxLength) as [Hfit|Hlong].
  - exists url. repeat split; try done; lia.
  - rewrite wrap64_small by lia.
    destruct (Z.ltb_spec (maxLength - 3) 0) as [?|_]; [lia|].
    destruct (Z.ltb_spec (Z.of_nat (String.length url)) (maxLength - 3)) as [?|_]; [lia|].
    simpl. eexists. split; [done|].
    assert (Z.of_nat (String.length (take (Z.to_nat (maxLength - 3)) url +:+ "..."))
            = maxLength) as Hlen.
    { rewrite length_app', length_take. simpl. lia. }
    repeat split; try done; lia.
Qed.

Lemma truncateURL_None (url : string) (maxLength : Z) :
  - 2 ^ 63 ≤ maxLength < 2 ^ 63 →
  Z.of_nat (String.length url) < 2 ^ 63 - 3 →
  truncateURL url maxLength = None
  ↔ maxLength < 3 ∧ maxLength < Z.of_nat (String.length url).
Proof.
  intros Hmax Hlen. unfold truncateURL, wrap64.
  destruct (Z.leb_spec (Z.of_nat (String.length url)) maxLength) as [Hfit|Hlong].
  { split; [done|lia]. }
  destruct (Z.ltb_spec ((maxLength - 3 + 2 ^ 63) mod 2 ^ 64 - 2 ^ 63) 0) as [Hneg|Hpos];
    destruct (Z.ltb_spec (Z.of_nat (String.length url))
                ((maxLength - 3 + 2 ^ 63) mod 2 ^ 64 - 2 ^ 63)) as [Hbig|Hsmall];
    simpl.
  all: destruct (Z_lt_le_dec (maxLength - 3) (- 2 ^ 63)) as [Hw|Hw].
  all: try (rewrite (Z.mod_small (maxLength - 3 + 2 ^ 63)) in * by lia).
  all: try (replace (maxLength - 3 + 2 ^ 63) with ((maxLength - 3 + 2 ^ 63 + 2 ^ 64) + (-1) * 2 ^ 64) in * by lia;
            rewrite Z.mod_add in * by lia;
            rewrite (Z.mod_small (maxLength - 3 + 2 ^ 63 + 2 ^ 64)) in * by lia).
  all: split; intros; try done; try lia.
Qed.

(** [truncateURL] returns the URL itself when it is at most [maxLength]
    bytes long; a longer URL is cut to its first [maxLength-3] bytes,
    followed by three dots, [maxLength] bytes in all, when the limit is
    three or more; and for a limit below three that the URL exceeds the
    call panics, the slice bound [maxLength-3] being negative (or, for
    the three smallest values of [int], wrapping around to a bound
    beyond the end of the URL). *)
Theorem truncateURL_spec (url : string) (maxLength : Z) :
  - 2 ^ 63 ≤ maxLength < 2 ^ 63 →
  Z.of_nat (String.length url) < 2 ^ 63 - 3 →
  (Z.of_nat (String.length url) ≤ maxLength → truncateURL url maxLength = Some url)
  ∧ (3 ≤ maxLength < Z.of_nat (String.length url) →
     truncateURL url maxLength = Some (take (Z.to_nat (maxLength - 3)) url +:+ "...")
     ∧ Z.of_nat (String.length (take (Z.to_nat (maxLength - 3)) url +:+ "...")) = maxLength)
  ∧ (truncateURL url maxLength = None
     ↔ maxLength < 3 ∧ maxLength < Z.of_nat (String.length url)).
Proof.
  intros Hmax Hlen. split; [|split].
  - intros Hfit. unfold truncateURL.
    by destruct (Z.leb_spec (Z.of_nat (String.length url)) maxLength); [|lia].
  - intros [H3 Hlong].
    destruct (truncateURL_fits url maxLength) as (short & -> & _ & _ & Hcut); [lia|].
    destruct (Hcut Hlong) as [-> Hl]. done.
  - by apply truncateURL_None.
Qed.

Lemma truncateURL_spec_witness :
  truncateURL "https://raw.githubusercontent.com/ShiftyTR/Proxy-List/master/http.txt" 20
    = Some "https://raw.githu..."
  ∧ truncateURL "http://a.example" 2 = None.
Proof.
  destruct (truncateURL_spec
              "https://raw.githubusercontent.com/ShiftyTR/Proxy-List/master/http.txt" 20)
    as (_ & Hcut & _); [lia|simpl; lia|].
  destruct (truncateURL_spec "http://a.example" 2) as (_ & _ & Hpanic); [lia|simpl; lia|].
  split.
  - apply Hcut. simpl. lia.
  - apply Hpanic. simpl. lia.
Defined.

(** ** [ProgressBar] *)

Section BarFacts.

Variable int_out_of_range : float → Z.

Lemma cells_app cell m n : cells cell (m + n) = cells cell m +:+ cells cell n.
Proof.
  induction m as [|m IH]; [done|]. simpl. by rewrite IH, app_assoc'.
Qed.

Lemma cells_snoc cell n : cells cell n +:+ cell = cells cell (S n).
Proof.
  replace (S n) with (n + 1)%nat by lia. rewrite cells_app. simpl.
  by rewrite app_empty_r.
Qed.

Lemma bar_loop (filled : Z) (cell : string) (test : bool) (l : list Z) (bar : string) :
  Forall (λ i, (i <? filled) = test) l →
  (if test then cell = fullCell else cell = emptyCell) →
  foldl (λ bar i, if i <? filled then bar +:+ fullCell else bar +:+ emptyCell) bar l
  = bar +:+ cells cell (length l).
Proof.
  intros Hl Hcell. revert bar.
  induction Hl as [|i l Hi _ IH]; intros bar; simpl.
  - by rewrite app_empty_r.
  - rewrite IH, Hi. destruct test; subst cell; by rewrite app_assoc'.
Qed.

(** Whatever the percentage is (above 100, negative, no number), the bar
    is [width] cells between brackets, the filled cells first; their
    number is the scaled percentage, cut down to [width] and up to 0. *)
Theorem ProgressBar_cells (percentage : float) (width : Z) :
  let scaled :=
    int_of_float64 int_out_of_range
      (PrimFloat.mul (PrimFloat.div percentage 100) (float64_of_int width)) in
  let filled := Z.to_nat (Z.min scaled width) in
  (filled ≤ Z.to_nat width)%nat
  ∧ ProgressBar int_out_of_range percentage width
    = "[" +:+ cells fullCell filled +:+ cells emptyCell (Z.to_nat width - filled) +:+ "]".
Proof.
  intros scaled filled. split; [lia|].
  unfold ProgressBar. fold scaled.
  set (limit := if width <? scaled then width else scaled).
  assert (limit = Z.min scaled width) as Hlimit.
  { unfold limit. destruct (Z.ltb_spec width scaled); lia. }
  destruct (Z_le_gt_dec width 0) as [Hw|Hw].
  { replace (seqZ 0 width) with (@nil Z).
    2:{ unfold seqZ. by replace (Z.to_nat width) with 0%nat by lia. }
    replace filled with 0%nat by lia. by replace (Z.to_nat width) with 0%nat by lia. }
  replace width with (Z.of_nat filled + Z.of_nat (Z.to_nat width - filled)) at 1 by lia.
  rewrite seqZ_app by lia. rewrite foldl_app.
  rewrite (bar_loop limit emptyCell false (seqZ (0 + Z.of_nat filled) _)).
  2:{ apply Forall_forall. intros i [Hi1 Hi2]%elem_of_seqZ. apply Z.ltb_ge. lia. }
  2:{ done. }
  rewrite (bar_loop limit fullCell true).
  2:{ apply Forall_forall. intros i [Hi1 Hi2]%elem_of_seqZ. apply Z.ltb_lt. lia. }
  2:{ done. }
  rewrite !length_seqZ, !Nat2Z.id. by rewrite !app_assoc'.
Qed.

End BarFacts.

(** The bars of [displayProgress], 30 cells wide, on a machine whose
    conversion of a [float64] out of range gives the smallest [int]:
    half way, beyond the end, and for the percentage 0/0 of an empty
    family. *)
Example ProgressBar_samples :
  ProgressBar (λ _, - 2 ^ 63) 50 30
    = "[" +:+ cells fullCell 15 +:+ cells emptyCell 15 +:+ "]"
  ∧ ProgressBar (λ _, - 2 ^ 63) 250 30 = "[" +:+ cells fullCell 30 +:+ "]"
  ∧ ProgressBar (λ _, - 2 ^ 63) (PrimFloat.div 0 0) 30 = "[" +:+ cells emptyCell 30 +:+ "]".
Proof. repeat split; vm_compute; reflexivity. Qed.

(** ** What [LoadConfig] returns *)

(** No setting that has a default is left at its zero value, and
    detailed output is on only together with the strict check.  (A
    negative size or timeout of the file is kept, and [test_url] is
    still empty when the first of the [check_urls] of the file is.) *)
Theorem LoadConfig_fills_every_default ReadFile yaml_Unmarshal path config :
  LoadConfig ReadFile yaml_Unmarshal path = Some config →
  ScraperConfig.Timeout (Scraper config) ≠ 0
  ∧ ScraperConfig.UserAgent (Scraper config) ≠ ""
  ∧ ScraperConfig.UserAgents (Scraper config) ≠ []
  ∧ ScraperConfig.Concurrent (Scraper config) ≠ 0
  ∧ CheckerConfig.Timeout (Checker config) ≠ 0
  ∧ CheckerConfig.ConnectTimeout (Checker config) ≠ 0
  ∧ CheckerConfig.Concurrent (Checker config) ≠ 0
  ∧ CheckerConfig.ConcurrentHTTP (Checker config) ≠ 0
  ∧ CheckerConfig.ConcurrentSOCKS5 (Checker config) ≠ 0
  ∧ CheckerConfig.CheckURLs (Checker config) ≠ []
  ∧ CheckerConfig.UserAgent (Checker config) ≠ ""
  ∧ (CheckerConfig.DetailedOutput (Checker config) = true →
     CheckerConfig.StrictCheck (Checker config) = true).
Proof.
  unfold LoadConfig.
  destruct (ReadFile path) as [data|]; [|done].
  destruct (yaml_Unmarshal data) as [[s k]|]; [|done].
  intros [= <-]. cbn [Scraper Checker ScraperConfig.Timeout ScraperConfig.UserAgent
    ScraperConfig.UserAgents ScraperConfig.Concurrent CheckerConfig.Timeout
    CheckerConfig.ConnectTimeout CheckerConfig.Concurrent CheckerConfig.ConcurrentHTTP
    CheckerConfig.ConcurrentSOCKS5 CheckerConfig.CheckURLs CheckerConfig.UserAgent
    CheckerConfig.StrictCheck CheckerConfig.DetailedOutput].
  assert (Hua : (if String.eqb (ScraperConfig.UserAgent s) "" then defaultUserAgent
                 else ScraperConfig.UserAgent s) ≠ "").
  { destruct (String.eqb_spec (ScraperConfig.UserAgent s) ""); done. }
  assert (Hk : (if CheckerConfig.Concurrent k =? 0 then 100
                else CheckerConfig.Concurrent k) ≠ 0).
  { destruct (Z.eqb_spec (CheckerConfig.Concurrent k) 0); done. }
  repeat split.
  - destruct (Z.eqb_spec (ScraperConfig.Timeout s) 0); done.
  - exact Hua.
  - destruct (ScraperConfig.UserAgents s); done.
  - destruct (Z.eqb_spec (ScraperConfig.Concurrent s) 0); done.
  - destruct (Z.eqb_spec (CheckerConfig.Timeout k) 0); [|done].
    by destruct (CheckerConfig.StrictCheck k).
  - destruct (Z.eqb_spec (CheckerConfig.ConnectTimeout k) 0); [|done].
    by destruct (CheckerConfig.StrictCheck k).
  - exact Hk.
  - destruct (Z.eqb_spec (CheckerConfig.ConcurrentHTTP k) 0); done.
  - destruct (Z.eqb_spec (CheckerConfig.ConcurrentSOCKS5 k) 0); done.
  - destruct (CheckerConfig.CheckURLs k); done.
  - destruct (String.eqb_spec (CheckerConfig.UserAgent k) ""); done.
  - by destruct (CheckerConfig.StrictCheck k).
Qed.

Lemma LoadConfig_fills_every_default_witness :
  ∃ config,
    LoadConfig (λ _, Some "") (λ _, Some zeroConfig) "config.yaml" = Some config
    ∧ ScraperConfig.UserAgents (Scraper config) ≠ []
    ∧ CheckerConfig.ConcurrentHTTP (Checker config) ≠ 0.
Proof.
  eexists. split; [reflexivity|].
  destruct (LoadConfig_fills_every_default (λ _, Some "") (λ _, Some zeroConfig)
              "config.yaml" _ eq_refl)
    as (_ & _ & Hagents & _ & _ & _ & _ & Hhttp & _).
  split; [exact Hagents|exact Hhttp].
Defined.

(** A setting that the file gives (a value other than the zero value of
    its type) is never replaced by [LoadConfig], except [detailed_output]
    without [strict_check]. *)
Theorem LoadConfig_keeps_what_the_file_sets ReadFile yaml_Unmarshal path data parsed :
  ReadFile path = Some data →
  yaml_Unmarshal data = Some parsed →
  ∃ config,
    LoadConfig ReadFile yaml_Unmarshal path = Some config
    ∧ (ScraperConfig.Timeout (Scraper parsed) ≠ 0 →
       ScraperConfig.Timeout (Scraper config) = ScraperConfig.Timeout (Scraper parsed))
    ∧ (ScraperConfig.UserAgent (Scraper parsed) ≠ "" →
       ScraperConfig.UserAgent (Scraper config) = ScraperConfig.UserAgent (Scraper parsed))
    ∧ (ScraperConfig.UserAgents (Scraper parsed) ≠ [] →
       ScraperConfig.UserAgents (Scraper config) = ScraperConfig.UserAgents (Scraper parsed))
    ∧ (ScraperConfig.Concurrent (Scraper parsed) ≠ 0 →
       ScraperConfig.Concurrent (Scraper config) = ScraperConfig.Concurrent (Scraper parsed))
    ∧ (CheckerConfig.Timeout (Checker parsed) ≠ 0 →
       CheckerConfig.Timeout (Checker config) = CheckerConfig.Timeout (Checker parsed))
    ∧ (CheckerConfig.ConnectTimeout (Checker parsed) ≠ 0 →
       CheckerConfig.ConnectTimeout (Checker config)
       = CheckerConfig.ConnectTimeout (Checker parsed))
    ∧ (CheckerConfig.Concurrent (Checker parsed) ≠ 0 →
       CheckerConfig.Concurrent (Checker config) = CheckerConfig.Concurrent (Checker parsed))
    ∧ (CheckerConfig.ConcurrentHTTP (Checker parsed) ≠ 0 →
       CheckerConfig.ConcurrentHTTP (Checker config)
       = CheckerConfig.ConcurrentHTTP (Checker parsed))
    ∧ (CheckerConfig.ConcurrentSOCKS5 (Checker parsed) ≠ 0 →
       CheckerConfig.ConcurrentSOCKS5 (Checker config)
       = CheckerConfig.ConcurrentSOCKS5 (Checker parsed))
    ∧ (CheckerConfig.CheckURLs (Checker parsed) ≠ [] →
       CheckerConfig.CheckURLs (Checker config) = CheckerConfig.CheckURLs (Checker parsed))
    ∧ (CheckerConfig.TestURL (Checker parsed) ≠ "" →
       CheckerConfig.TestURL (Checker config) = CheckerConfig.TestURL (Checker parsed))
    ∧ (CheckerConfig.UserAgent (Checker parsed) ≠ "" →
       CheckerConfig.UserAgent (Checker config) = CheckerConfig.UserAgent (Checker parsed))
    ∧ CheckerConfig.StrictCheck (Checker config) = CheckerConfig.StrictCheck (Checker parsed)
    ∧ (CheckerConfig.StrictCheck (Checker parsed) = true →
       CheckerConfig.DetailedOutput (Checker config)
       = CheckerConfig.DetailedOutput (Checker parsed)).
Proof.
  intros Hread Hyaml. unfold LoadConfig. rewrite Hread, Hyaml.
  destruct parsed as [s k].
  eexists. split; [reflexivity|].
  cbn [Scraper Checker ScraperConfig.Timeout ScraperConfig.UserAgent
    ScraperConfig.UserAgents ScraperConfig.Concurrent CheckerConfig.Timeout
    CheckerConfig.ConnectTimeout CheckerConfig.Concurrent CheckerConfig.ConcurrentHTTP
    CheckerConfig.ConcurrentSOCKS5 CheckerConfig.CheckURLs CheckerConfig.UserAgent
    CheckerConfig.TestURL CheckerConfig.StrictCheck CheckerConfig.DetailedOutput].
  repeat split.
  - intros H. by destruct (Z.eqb_spec (ScraperConfig.Timeout s) 0).
  - intros H. by destruct (String.eqb_spec (ScraperConfig.UserAgent s) "").
  - intros H. by destruct (ScraperConfig.UserAgents s).
  - intros H. by destruct (Z.eqb_spec (ScraperConfig.Concurrent s) 0).
  - intros H. by destruct (Z.eqb_spec (CheckerConfig.Timeout k) 0).
  - intros H. by destruct (Z.eqb_spec (CheckerConfig.ConnectTimeout k) 0).
  - intros H. by destruct (Z.eqb_spec (CheckerConfig.Concurrent k) 0).
  - intros H. by destruct (Z.eqb_spec (CheckerConfig.ConcurrentHTTP k) 0).
  - intros H. by destruct (Z.eqb_spec (CheckerConfig.ConcurrentSOCKS5 k) 0).
  - intros H. by destruct (CheckerConfig.CheckURLs k).
  - intros H. by destruct (String.eqb_spec (CheckerConfig.TestURL k) "").
  - intros H. by destruct (String.eqb_spec (CheckerConfig.UserAgent k) "").
  - intros ->. done.
Qed.

Lemma LoadConfig_keeps_what_the_file_sets_witness :
  ∃ config,
    LoadConfig (λ _, Some "") (λ _, Some strictConfig) "config.yaml" = Some config
    ∧ CheckerConfig.Timeout (Checker config) = 3 * Second
    ∧ CheckerConfig.ConcurrentHTTP (Checker config) = 2.
Proof.
  destruct (LoadConfig_keeps_what_the_file_sets (λ _, Some "") (λ _, Some strictConfig)
              "config.yaml" "" strictConfig eq_refl eq_refl)
    as (config & Hload & _ & _ & _ & _ & Ht & _ & _ & Hhttp & _).
  exists config. split; [exact Hload|].
  split; [apply Ht|apply Hhttp]; discriminate.
Defined.

(** ** The [--detailed] flag without [--strict] *)

(** Without [--strict], the [--detailed] flag changes nothing in what
    [CheckProxies] does, under any schedule: no header row is written,
    and the output lines are the bare candidates. *)
Theorem detailed_without_strict_is_ignored W ReadFile yaml_Unmarshal detailedOutput
    config plain :
  main_config ReadFile yaml_Unmarshal false detailedOutput = Some config →
  main_config ReadFile yaml_Unmarshal false false = Some plain →
  (∀ result, formatProxyOutput W config result = Proxy result)
  ∧ ∀ schedule c files httpProxies socks5Proxies,
      CheckProxies W config schedule c files httpProxies socks5Proxies
      = CheckProxies W plain schedule c files httpProxies socks5Proxies.
Proof.
  unfold main_config.
  destruct (LoadConfig ReadFile yaml_Unmarshal "config.yaml") as [loaded|]; [|done].
  intros [= <-] [= <-]. split; [done|]. intros. reflexivity.
Qed.

Lemma detailed_without_strict_witness :
  ∃ config,
    main_config (λ _, Some "") (λ _, Some zeroConfig) false true = Some config
    ∧ CheckerConfig.DetailedOutput (Checker config) = true
    ∧ formatProxyOutput sampleWorld config
        {| Proxy := "2.2.2.2:8080"; Working := true; Type_ := ProxyTypeHTTP;
           ProxyIP := "2.2.2.2"; Speed := 850 * Millisecond; Anonymous := true;
           Location := None |}
      = "2.2.2.2:8080".
Proof.
  eexists. split; [reflexivity|]. split; [reflexivity|].
  apply (detailed_without_strict_is_ignored sampleWorld (λ _, Some "")
           (λ _, Some zeroConfig) true _ _ eq_refl eq_refl).
Defined.

(** ** The columns of a detailed output line *)

Lemma Split_no_byte c s : no_byte c s = true → Split s c = [s].
Proof.
  induction s as [|x s IH]; [done|]. simpl. intros [Hx Hs]%andb_prop.
  apply negb_true_iff in Hx. by rewrite Hx, IH.
Qed.

Lemma Split_byte c a b :
  no_byte c a = true → Split (a +:+ String c "" +:+ b) c = a :: Split b c.
Proof.
  induction a as [|x a IH]; simpl.
  - intros _. by rewrite Ascii.eqb_refl.
  - intros [Hx Ha]%andb_prop. apply negb_true_iff in Hx. by rewrite Hx, IH.
Qed.

Lemma no_byte_app c s t : no_byte c (s +:+ t) = no_byte c s && no_byte c t.
Proof.
  induction s as [|x s IH]; [done|]. rewrite app_cons. simpl.
  by rewrite IH, andb_assoc.
Qed.

(** In strict mode with detailed output, an output line has the five
    columns of the header row when none of its parts holds a bar: the
    candidate, the egress IP, the location (the city and the country, the
    country alone, or "Unknown"), the rounded response time, and "Yes" or
    "No". *)
Theorem formatProxyOutput_columns W config result :
  CheckerConfig.StrictCheck (Checker config) = true →
  CheckerConfig.DetailedOutput (Checker config) = true →
  no_byte "|" (Proxy result) = true →
  no_byte "|" (ProxyIP result) = true →
  (∀ l, Location result = Some l →
        no_byte "|" (ProxyLocation.City l) = true
        ∧ no_byte "|" (ProxyLocation.Country l) = true) →
  no_byte "|" (RoundMillisecondString W (Speed result)) = true →
  Split header "|" = ["Proxy"; "IP"; "Location"; "Response Time"; "Anonymous"]
  ∧ Split (formatProxyOutput W config result) "|"
    = [Proxy result;
       ProxyIP result;
       match Location result with
       | Some l =>
           if String.eqb (ProxyLocation.City l) "" then ProxyLocation.Country l
           else ProxyLocation.City l +:+ ", " +:+ ProxyLocation.Country l
       | None => "Unknown"
       end;
       RoundMillisecondString W (Speed result);
       if Anonymous result then "Yes" else "No"].
Proof.
  intros Hs Hd Hp Hip Hloc Hspeed. split; [reflexivity|].
  unfold formatProxyOutput. rewrite Hs, Hd. cbn [negb orb].
  rewrite Split_byte by done. rewrite Split_byte by done.
  rewrite Split_byte.
  2:{ destruct (Location result) as [l|]; [|done].
      destruct (Hloc l eq_refl) as [Hcity Hcountry].
      destruct (String.eqb (ProxyLocation.City l) ""); simpl; [done|].
      rewrite !no_byte_app. by rewrite Hcity, Hcountry. }
  rewrite Split_byte by done.
  rewrite Split_no_byte by by destruct (Anonymous result).
  do 2 f_equal. f_equal.
  destruct (Location result) as [l|]; [|done].
  by destruct (String.eqb (ProxyLocation.City l) "").
Qed.

Lemma formatProxyOutput_columns_witness :
  Split (formatProxyOutput sampleWorld detailedConfig
           {| Proxy := "2.2.2.2:8080"; Working := true; Type_ := ProxyTypeHTTP;
              ProxyIP := "2.2.2.2"; Speed := 850 * Millisecond; Anonymous := true;
              Location := Some {| ProxyLocation.Country := "Iceland";
                                  ProxyLocation.CountryCode := "IS";
                                  ProxyLocation.City := "Reykjavik";
                                  ProxyLocation.Region := "" |} |}) "|"
  = ["2.2.2.2:8080"; "2.2.2.2"; "Reykjavik, Iceland"; "850ms"; "Yes"].
Proof.
  apply (formatProxyOutput_columns sampleWorld detailedConfig); try reflexivity.
  intros l [= <-]. split; reflexivity.
Defined.

(** ** The semaphores of [CheckProxies] *)

Lemma sum_list_with_insert {A : Type} (f : A → nat) (l : list A) i x y :
  l !! i = Some x →
  (sum_list_with f (<[i := y]> l) + f x = sum_list_with f l + f y)%nat.
Proof.
  revert i. induction l as [|z l IH]; intros [|i]; simpl; try done.
  - intros [= ->]. lia.
  - intros H. specialize (IH _ H). lia.
Qed.

Lemma inner_no_semaphore t o :
  inner o → is_acquire t o = 0%nat ∧ is_release t o = 0%nat.
Proof. by destruct o. Qed.

Lemma inner_ops_no_semaphore t ops :
  Forall inner ops →
  sum_list_with (is_acquire t) ops = 0%nat ∧ sum_list_with (is_release t) ops = 0%nat.
Proof.
  induction 1 as [|o ops Ho _ [IHa IHr]]; [done|]. simpl.
  destruct (inner_no_semaphore t o Ho) as [-> ->]. by rewrite IHa, IHr.
Qed.

Lemma holds_waiting t t' ops :
  Forall inner ops → holds t (Acquire t' :: ops ++ [Release t']) = false.
Proof.
  intros Hops. unfold holds. simpl. rewrite !sum_list_with_app. simpl.
  destruct (inner_ops_no_semaphore t ops Hops) as [-> ->].
  by destruct (decide (t' = t)).
Qed.

Lemma holds_running t t' ops :
  Forall inner ops → holds t (ops ++ [Release t']) = bool_decide (t' = t).
Proof.
  intros Hops. unfold holds. rewrite !sum_list_with_app. simpl.
  destruct (inner_ops_no_semaphore t ops Hops) as [-> ->].
  by destruct (decide (t' = t)); [rewrite bool_decide_true|rewrite bool_decide_false].
Qed.

(** One step of a goroutine moves it into or out of the flight as it
    takes or gives back the slot. *)
Lemma shaped_step t o rest :
  shaped (o :: rest) →
  shaped rest
  ∧ ((if holds t rest then 1 else 0) + is_release t o
     = (if holds t (o :: rest) then 1 else 0) + is_acquire t o)%nat.
Proof.
  intros [?|(t' & ops & Hops & [E|E])]; [done| |].
  - injection E as -> ->. split.
    + right. exists t', ops. auto.
    + rewrite holds_waiting, holds_running by done. simpl.
      destruct (decide (t' = t)); [by rewrite bool_decide_true|by rewrite bool_decide_false].
  - destruct ops as [|o' ops'].
    + simpl in E. injection E as -> ->. split; [by left|].
      unfold holds. simpl. by destruct (decide (t' = t)).
    + simpl in E. injection E as -> ->. inversion Hops as [|? ? Ho Hops']; subst. split.
      * right. exists t', ops'. auto.
      * change (o' :: ops' ++ [Release t']) with ((o' :: ops') ++ [Release t']).
        rewrite !holds_running by done.
        destruct (inner_no_semaphore t o' Ho) as [-> ->]. done.
Qed.

Section Semaphores.

Variable W : World.
Variable config : Config.

Lemma goroutine_shaped t p : shaped (goroutine W config t p).
Proof.
  destruct (goroutine_shape W config t p) as (ops & -> & Hops).
  right. exists t, ops. auto.
Qed.

Lemma perform_sem t o r r' :
  perform config o r = Some r' →
  sem_of t r' = sem_of t r + Z.of_nat (is_acquire t o) - Z.of_nat (is_release t o)
  ∧ (is_acquire t o = 1%nat → sem_of t r < slots config t).
Proof.
  destruct o as [[]|[result|t' w]|[] line|[]], t; simpl;
    repeat case_match; intros [= <-]; simpl; split; try lia; try done.
Qed.

(** The slots taken are the goroutines in flight, and never more than
    the semaphore has. *)
Lemma step_in_flight t a r r' :
  step config a r = Some r' →
  Forall shaped (goroutines r) →
  sem_of t r = Z.of_nat (in_flight t (goroutines r)) →
  sem_of t r ≤ slots config t →
  Forall shaped (goroutines r')
  ∧ sem_of t r' = Z.of_nat (in_flight t (goroutines r'))
  ∧ sem_of t r' ≤ slots config t.
Proof.
  intros Hstep Hshaped Hsem Hle. destruct a as [i|].
  - apply step_Worker in Hstep as (o & rest & r1 & Hi & Hp & ->).
    destruct (perform_sem t _ _ _ Hp) as [Hs Hroom].
    assert (Hg : shaped (o :: rest)).
    { rewrite Forall_forall in Hshaped. apply Hshaped.
      by eapply list_elem_of_lookup_2. }
    destruct (shaped_step t o rest Hg) as [Hrest Hflight].
    pose proof (sum_list_with_insert (λ g, if holds t g then 1 else 0)%nat
                  (goroutines r) i (o :: rest) rest Hi) as Hsum.
    assert (Hsame : ∀ gs, sem_of t (with_goroutines gs r1) = sem_of t r1) by by destruct t.
    simpl goroutines. rewrite Hsame. unfold in_flight in *.
    split; [by apply Forall_insert|].
    assert (is_acquire t o ≤ 1)%nat by (destruct o; simpl; try case_decide; lia).
    split; [lia|].
    destruct (decide (is_acquire t o = 1%nat)) as [Hacq|Hacq]; [specialize (Hroom Hacq)|]; lia.
  - simpl in Hstep. destruct (ResultChan (checker r)) as [|x q]; [done|].
    injection Hstep as <-. by destruct t.
Qed.

(** At every moment of every run, the checks of a family that are under
    way (the goroutines between their wait on the semaphore and their
    release of it) are at most as many as the semaphore is large:
    [concurrent_http] for HTTP, [concurrent_socks5] for SOCKS5. *)
Theorem CheckProxies_concurrency_bound schedule c files httpProxies socks5Proxies r t :
  0 ≤ slots config t →
  exec config schedule (start W config c files httpProxies socks5Proxies) = Some r →
  Z.of_nat (in_flight t (goroutines r)) ≤ slots config t.
Proof.
  intros Hslots Hexec.
  assert (Hall : ∀ schedule r0 r,
    exec config schedule r0 = Some r →
    Forall shaped (goroutines r0) →
    sem_of t r0 = Z.of_nat (in_flight t (goroutines r0)) →
    sem_of t r0 ≤ slots config t →
    sem_of t r = Z.of_nat (in_flight t (goroutines r)) ∧ sem_of t r ≤ slots config t).
  { clear. intros schedule. induction schedule as [|a schedule IH]; intros r0 r; simpl.
    - by intros [= <-].
    - destruct (step config a r0) as [r1|] eqn:Hstep; [|done]. simpl.
      intros Hexec Hshaped Hsem Hle.
      destruct (step_in_flight t a r0 r1 Hstep Hshaped Hsem Hle) as (? & ? & ?).
      by eapply IH. }
  destruct (Hall _ _ _ Hexec) as [Hsem Hle]; [| | |lia].
  - simpl. apply Forall_app. split; apply Forall_fmap, Forall_true; intros p;
      apply goroutine_shaped.
  - assert (Hnone : ∀ gs, Forall (λ g, ∃ t' p, g = goroutine W config t' p) gs →
              in_flight t gs = 0%nat).
    { induction 1 as [|g gs (t' & p & ->) _ IH]; [done|].
      unfold in_flight in *. simpl. rewrite IH.
      destruct (goroutine_shape W config t' p) as (ops & -> & Hops).
      by rewrite holds_waiting. }
    rewrite Hnone; [by destruct t|].
    simpl. apply Forall_app. split; apply Forall_fmap, Forall_true; intros p; simpl; eauto.
  - by destruct t.
Qed.

(** *** The result channel without a consumer *)

Lemma goroutine_sends_all t p :
  sum_list_with (is_send (λ _, true)) (goroutine W config t p)
  = if constructed W t p then 1%nat else 0%nat.
Proof.
  unfold goroutine, checkHTTPProxy, checkSOCKS5Proxy.
  destruct t; simpl.
  - destruct (url_Parse_ok W p); simpl; [|done].
    destruct (testProxy W config _) as [[[[w i] sp] an] lo]. simpl. by destruct w.
  - destruct (SOCKS5_ok W p); simpl; [|done].
    destruct (testProxy W config _) as [[[[w i] sp] an] lo]. simpl. by destruct w.
Qed.

Lemma start_sends_all c files httpProxies socks5Proxies :
  count_ops (is_send (λ _, true))
    (goroutines (start W config c files httpProxies socks5Proxies))
  = (constructed_among W ProxyTypeHTTP httpProxies
     + constructed_among W ProxyTypeSOCKS5 socks5Proxies)%nat.
Proof.
  simpl. rewrite count_ops_app. unfold count_ops, constructed_among.
  assert (Hone : ∀ t l, sum_list_with (sum_list_with (is_send (λ _, true)))
                          (goroutine W config t <$> l)
                        = sum_list_with (λ p, if constructed W t p then 1 else 0)%nat l).
  { intros t l. induction l as [|p l IH]; [done|].
    rewrite fmap_cons. cbn [sum_list_with]. by rewrite goroutine_sends_all, IH. }
  by rewrite !Hone.
Qed.

Lemma step_unreceived a r r' :
  a ≠ Consumer →
  step config a r = Some r' →
  received r = [] → (length (ResultChan (checker r)) ≤ ResultChan_cap)%nat →
  received r' = [] ∧ (length (ResultChan (checker r')) ≤ ResultChan_cap)%nat.
Proof.
  intros Ha Hstep Hrec Hlen. destruct a as [i|]; [|done].
  apply step_Worker in Hstep as (o & rest & r1 & Hi & Hp & ->).
  destruct o as [[]|[result|t w]|[] line|[]]; simpl in Hp;
    repeat case_match; simplify_eq; simpl; try done.
  - split; [done|]. rewrite length_app. simpl.
    match goal with H : _ && _ = true |- _ => apply andb_prop in H as [_ Hroom] end.
    apply Nat.ltb_lt in Hroom. lia.
  - by destruct t.
Qed.

(** When more than 100 candidates have their transport built and nobody
    receives from [ResultChan], [CheckProxies] does not return, whatever
    the order in which the goroutines run. *)
Lemma blocks_without_consumer schedule files httpProxies socks5Proxies :
  Forall (λ a, a ≠ Consumer) schedule →
  (ResultChan_cap < constructed_among W ProxyTypeHTTP httpProxies
                    + constructed_among W ProxyTypeSOCKS5 socks5Proxies)%nat →
  CheckProxies W config schedule NewProxyChecker files httpProxies socks5Proxies = None.
Proof.
  intros Hschedule Hmany.
  destruct (CheckProxies W config schedule NewProxyChecker files httpProxies socks5Proxies)
    as [r|] eqn:Hret; [exfalso|done].
  apply CheckProxies_returns in Hret as (r0 & Hexec & Hdone & _).
  assert (Hpub : published_inv (λ _, true)
            (constructed_among W ProxyTypeHTTP httpProxies
             + constructed_among W ProxyTypeSOCKS5 socks5Proxies) r0).
  { eapply exec_published; [exact Hexec|].
    unfold published_inv. by rewrite start_sends_all. }
  assert (Hunrec : ∀ schedule r1 r2,
    Forall (λ a, a ≠ Consumer) schedule →
    exec config schedule r1 = Some r2 →
    received r1 = [] → (length (ResultChan (checker r1)) ≤ ResultChan_cap)%nat →
    received r2 = [] ∧ (length (ResultChan (checker r2)) ≤ ResultChan_cap)%nat).
  { clear. intros schedule. induction schedule as [|a schedule IH]; intros r1 r2 Hs; simpl.
    - by intros [= <-].
    - inversion Hs as [|? ? Ha Hs']; subst.
      destruct (step config a r1) as [r'|] eqn:Hstep; [|done]. simpl.
      intros Hexec Hrec Hlen.
      destruct (step_unreceived a r1 r' Ha Hstep Hrec Hlen). by eapply IH. }
  destruct (Hunrec _ _ _ Hschedule Hexec) as [Hrec Hlen]; [done|simpl; lia|].
  unfold published_inv, published in Hpub. rewrite Hrec in Hpub. simpl in Hpub.
  rewrite (count_ops_all_done _ _ Hdone) in Hpub.
  assert (Hcount : ∀ l, count_results (λ _, true) l = length l).
  { intros l. unfold count_results. induction l; simpl; lia. }
  rewrite Hcount in Hpub. lia.
Qed.

End Semaphores.

Lemma CheckProxies_concurrency_bound_witness :
  Z.of_nat
    (in_flight ProxyTypeHTTP
       (<[1%nat := [Release ProxyTypeHTTP]]>
          (<[0%nat := [Release ProxyTypeHTTP]]>
             (goroutine sampleWorld basicConfig ProxyTypeHTTP
              <$> ["1.1.1.1:80"; "3.3.3.3:8080"; "4.4.4.4:80"])))) ≤ 2.
Proof.
  assert (∃ r,
    exec basicConfig [Worker 0; Worker 1; Worker 0; Consumer; Worker 1; Worker 0; Worker 1]
      (start sampleWorld basicConfig NewProxyChecker ([], [])
         ["1.1.1.1:80"; "3.3.3.3:8080"; "4.4.4.4:80"] []) = Some r
    ∧ goroutines r
      = <[1%nat := [Release ProxyTypeHTTP]]>
          (<[0%nat := [Release ProxyTypeHTTP]]>
             (goroutine sampleWorld basicConfig ProxyTypeHTTP
              <$> ["1.1.1.1:80"; "3.3.3.3:8080"; "4.4.4.4:80"]))) as (r & Hexec & <-).
  { eexists. split; [vm_compute; reflexivity|vm_compute; reflexivity]. }
  apply (CheckProxies_concurrency_bound sampleWorld basicConfig _ _ _ _ _ r ProxyTypeHTTP
           ltac:(simpl; lia) Hexec).
Defined.

(** ** The normalizer: what it rejects, and what it leaves as it is *)

Lemma jsonBranch_nonempty U text r : jsonBranch U text = Some r → r ≠ "".
Proof.
  unfold jsonBranch. repeat case_match; try done; intros [= <-]; unfold Sprintf_colon.
  all: match goal with |- ?ip +:+ _ ≠ _ => by destruct ip end.
Qed.

Lemma Sprintf_colon_nonempty a b : Sprintf_colon a b ≠ "".
Proof. unfold Sprintf_colon. by destruct a. Qed.

(** [normalizeProxy] returns the empty string, and [isValidProxy]
    rejects the line, exactly when the JSON branch does not handle the
    scheme-stripped line and no dotted quad (four groups of one to three
    digits, separated by dots) occurs in it. *)
Theorem normalizeProxy_empty_iff U line :
  (normalizeProxy U line = ""
   ↔ jsonBranch U (stripScheme line) = None
     ∧ ¬ ∃ w, is_quad w ∧ occurs_in w (stripScheme line))
  ∧ (normalizeProxy U line = "" → isValidProxy U line = ("", false)).
Proof.
  split.
  2:{ intros H. unfold isValidProxy. rewrite H. by destruct (String.eqb line ""). }
  unfold normalizeProxy. split.
  - intros H.
    destruct (jsonBranch U (stripScheme line)) as [r|] eqn:Hjson.
    { by apply jsonBranch_nonempty in Hjson. }
    split; [done|]. intros Hquad.
    destruct (FindStringSubmatch re (stripScheme line)) as [l|] eqn:Hre.
    { by apply Sprintf_colon_nonempty in H. }
    destruct (FindString_ipRe _ Hquad) as [Hip _].
    destruct (is_quad_nonempty _ Hip) as (c & ip' & Eip & Hc).
    destruct Hquad as (w & Hw & pre & post & E).
    apply is_quad_nonempty in Hw as (x & w' & -> & Hx).
    pose proof (first_digits_nonempty pre x (w' +:+ post) Hx) as Hport.
    rewrite <- app_cons, <- E in Hport.
    rewrite FindString_portRe, Eip in H. cbn [String.eqb negb andb] in H.
    destruct (first_digits (stripScheme line)); [simpl in Hport; lia|].
    by apply Sprintf_colon_nonempty in H.
  - intros [-> Hnone].
    destruct (FindStringSubmatch re (stripScheme line)) as [l|] eqn:Hre.
    { apply FindStringSubmatch_re in Hre as (ip & port & _ & Hip & _ & _ & pre & post & E).
      destruct Hnone. exists ip. split; [done|].
      exists pre, (":" +:+ port +:+ post). rewrite E. by rewrite !app_assoc'. }
    unfold FindString at 1.
    destruct (FindStringSubmatch ipRe (stripScheme line)) as [m|] eqn:Hip; [|done].
    apply FindStringSubmatch_sound in Hip as (pre & ip & post & caps & E & Hq & ->).
    destruct Hnone. exists ip. split; [by apply matches_quad|]. by exists pre, post.
Qed.

Lemma take_whole s : take (String.length s) s = s.
Proof. induction s as [|c s IH]; [done|]. simpl. by rewrite IH. Qed.

Lemma digit_first_no_scheme c s :
  is_digit c = true →
  stripScheme (String c s) = String c s ∧ HasPrefix (String c s) "{" = false.
Proof.
  destruct c as [[] [] [] [] [] [] [] []]; try discriminate; intros _; split; reflexivity.
Qed.

Lemma colon_split_unique a b a' b' :
  no_colon a = true → no_colon a' = true →
  a +:+ ":" +:+ b = a' +:+ ":" +:+ b' → a = a' ∧ b = b'.
Proof.
  intros Ha Ha' E.
  pose proof (Split_colon a b Ha) as H. rewrite E, (Split_colon a' b' Ha') in H.
  injection H as -> Hb. split; [done|].
  by rewrite <- (concat_Split b), <- (concat_Split b'), Hb.
Qed.

Lemma rep_Digit_unbounded {A : Type} lo s (g : string → A) :
  all_digits s = true →
  rep Digit lo None s (λ s', Some (g s')) =
  if decide (lo ≤ String.length s)%nat then Some (g "") else None.
Proof.
  revert lo. induction s as [|c s IH]; intros lo Hs.
  - by destruct lo.
  - simpl in Hs. apply andb_prop in Hs as [Hc Hs].
    cbn [rep]. cbn [cmatch]. rewrite Hc. rewrite bool_decide_false by done.
    cbn [negb andb fmap option_fmap option_map]. rewrite (IH _ Hs).
    destruct lo as [|lo]; simpl; repeat case_decide; try done; lia.
Qed.

(** The strict pattern on a candidate in canonical form finds the whole
    candidate, with its quad and its port as the groups. *)
Lemma FindStringSubmatch_canonical ip port :
  is_quad ip → all_digits port = true → (1 ≤ String.length port)%nat →
  FindStringSubmatch re (ip +:+ ":" +:+ port)
  = Some [ip +:+ ":" +:+ port; ip; port].
Proof.
  intros Hip Hd Hlen.
  assert (Hm : matches re (ip +:+ ":" +:+ port)).
  { unfold re. apply matches_Cat; [by apply matches_Group, matches_quad|].
    apply (matches_Cat _ _ ":" port); [by constructor|].
    apply matches_Group. constructor; [by rewrite all_in_Digit|done|done]. }
  destruct (match_here_complete re _ "" Hm) as [l Hl]. rewrite app_empty_r in Hl.
  assert (Hfind : FindStringSubmatch re (ip +:+ ":" +:+ port) = Some l).
  { destruct (ip +:+ ":" +:+ port); cbn [FindStringSubmatch]; by rewrite Hl. }
  rewrite Hfind. f_equal.
  unfold match_here, re in Hl. cbn [run] in Hl.
  apply run_captures in Hl as (w & rest & c & E & Hw & Hl).
  pose proof (captures_length _ _ _ Hw) as Hc. destruct c; [|done]. clear Hc.
  apply captures_matches, matches_quad in Hw.
  destruct rest as [|x rest]; [done|]. cbn [cmatch] in Hl.
  destruct (Ascii.eqb x ":") eqn:Hx; [|done].
  apply Ascii.eqb_eq in Hx as ->.
  change (String ":" rest) with (":" +:+ rest) in E.
  apply colon_split_unique in E as [<- <-]; [|by apply is_quad_no_colon..].
  rewrite (rep_Digit_unbounded 1 port
             (λ s3, take (String.length (ip +:+ ":" +:+ port) - String.length s3)
                      (ip +:+ ":" +:+ port)
                    :: (([] ++ []) ++ [take (String.length (ip +:+ ":" +:+ port)
                                     - String.length (String ":" port))
                                 (ip +:+ ":" +:+ port)])
                       ++ [take (String.length port - String.length s3) port]) Hd) in Hl.
  rewrite decide_True in Hl by done. injection Hl as <-.
  rewrite (take_consumed_eq ip (String ":" port)) by done.
  simpl String.length. rewrite !Nat.sub_0_r.
  by rewrite !take_whole.
Qed.

(** A candidate in canonical form is accepted as it is. *)
Lemma canonical_accepted U ip port :
  is_quad ip → all_digits port = true → (1 ≤ String.length port ≤ 5)%nat →
  isValidProxy U (ip +:+ ":" +:+ port) = (ip +:+ ":" +:+ port, true).
Proof.
  intros Hip Hd Hlen.
  destruct (is_quad_nonempty _ Hip) as (c & ip' & Eip & Hc).
  assert (Hnorm : normalizeProxy U (ip +:+ ":" +:+ port) = ip +:+ ":" +:+ port).
  { unfold normalizeProxy, jsonBranch.
    destruct (digit_first_no_scheme c (ip' +:+ ":" +:+ port) Hc) as [Hs Hj].
    rewrite <- app_cons, <- Eip in Hs, Hj. rewrite Hs, Hj.
    rewrite FindStringSubmatch_canonical by (done || lia). done. }
  assert (Hne : String.eqb (ip +:+ ":" +:+ port) "" = false).
  { rewrite Eip. reflexivity. }
  unfold isValidProxy. rewrite Hnorm, !Hne.
  rewrite Split_colon by by apply is_quad_no_colon.
  rewrite Split_no_colon by by apply all_digits_no_colon.
  simpl.
  destruct (String.length port =? 0)%nat eqn:H0; [apply Nat.eqb_eq in H0; lia|].
  destruct (5 <? String.length port)%nat eqn:H5; [apply Nat.ltb_lt in H5; lia|].
  simpl. by rewrite Hd.
Qed.

(** Validation is stable on plain lines: what [isValidProxy] returns for
    an accepted line that the JSON branch does not handle is accepted
    again, unchanged, when it is validated once more. *)
Theorem accepted_plain_line_stable U line normalized :
  jsonBranch U (stripScheme line) = None →
  isValidProxy U line = (normalized, true) →
  isValidProxy U normalized = (normalized, true)
  ∧ normalizeProxy U normalized = normalized.
Proof.
  intros Hjson Hvalid.
  destruct (plain_line_canonical U line normalized Hjson Hvalid)
    as (ip & port & -> & Hip & _ & Hd & Hlen).
  pose proof (canonical_accepted U ip port Hip Hd Hlen) as Hagain.
  split; [done|]. by apply isValidProxy_accepted in Hagain as [<- _].
Qed.

Lemma accepted_plain_line_stable_witness :
  isValidProxy GoJSON.Unmarshal_ProxyData "12.34.56.78:12" = ("12.34.56.78:12", true)
  ∧ normalizeProxy GoJSON.Unmarshal_ProxyData "12.34.56.78:12" = "12.34.56.78:12".
Proof.
  apply (accepted_plain_line_stable GoJSON.Unmarshal_ProxyData
           "socks4://host 12.34.56.78 port 8080" "12.34.56.78:12"); reflexivity.
Defined.

(** A line from the JSON branch is not stable in this way: the candidate
    [":8080"] that an entry without [ip] gives is rejected when it is
    validated again. *)
Example accepted_JSON_line_not_stable :
  isValidProxy GoJSON.Unmarshal_ProxyData
    (jq "{'data':[{'host':'1.2.3.4','port':'8080'}]}") = (":8080", true)
  ∧ isValidProxy GoJSON.Unmarshal_ProxyData ":8080" = ("", false).
Proof. split; vm_compute; reflexivity. Qed.

(** ** White space and lines *)

Lemma graphic_spec c :
  graphic c = true → asciiSpace c = false ∧ (N_of_ascii c < 128)%N.
Proof.
  unfold graphic. intros [Hlow Hs]%andb_prop.
  apply N.ltb_lt in Hlow. apply negb_true_iff in Hs. done.
Qed.

Lemma space2_ascii c0 c1 :
  (N_of_ascii c0 < 128)%N ∨ (N_of_ascii c1 < 128)%N → space2 c0 c1 = false.
Proof.
  unfold space2. intros [H|H].
  - destruct (N.eqb_spec (N_of_ascii c0) 194); [lia|done].
  - destruct (N.eqb_spec (N_of_ascii c1) 133); [lia|].
    destruct (N.eqb_spec (N_of_ascii c1) 160); [lia|]. apply andb_false_r.
Qed.

Lemma space3_ascii c0 c1 c2 :
  (N_of_ascii c0 < 128)%N ∨ (N_of_ascii c2 < 128)%N → space3 c0 c1 c2 = false.
Proof.
  unfold space3. intros [H|H].
  - destruct (N.eqb_spec (N_of_ascii c0) 225); [lia|].
    destruct (N.eqb_spec (N_of_ascii c0) 226); [lia|].
    destruct (N.eqb_spec (N_of_ascii c0) 227); [lia|]. done.
  - destruct (N.eqb_spec (N_of_ascii c2) 128); [lia|].
    destruct (N.leb_spec 128 (N_of_ascii c2)); [lia|].
    destruct (N.eqb_spec (N_of_ascii c2) 168); [lia|].
    destruct (N.eqb_spec (N_of_ascii c2) 169); [lia|].
    destruct (N.eqb_spec (N_of_ascii c2) 175); [lia|].
    destruct (N.eqb_spec (N_of_ascii c2) 159); [lia|].
    by rewrite !andb_false_r.
Qed.

Lemma skipSpace_graphic backwards c l :
  graphic c = true → skipSpace backwards (c :: l) = c :: l.
Proof.
  intros [Hs Hlow]%graphic_spec. cbn [skipSpace]. rewrite Hs.
  destruct l as [|c1 [|c2 l]]; [done| |].
  - destruct backwards; by rewrite space2_ascii by auto.
  - destruct backwards; rewrite space2_ascii, space3_ascii by auto; done.
Qed.

Lemma last_cons {A : Type} (x d : A) l : List.last (x :: l) d = List.last l x.
Proof.
  revert x d. induction l as [|y l IH]; intros x d; [done|].
  change (List.last (x :: y :: l) d) with (List.last (y :: l) d).
  by rewrite !IH.
Qed.

Lemma last_nonempty_app {A : Type} (l1 l2 : list A) d :
  l2 ≠ [] → List.last (l1 ++ l2) d = List.last l2 d.
Proof.
  intros Hne. revert d. induction l1 as [|x l1 IH]; intros d; [done|].
  rewrite <- app_comm_cons, last_cons, IH.
  destruct l2 as [|y l2]; [done|]. by rewrite !last_cons.
Qed.

Lemma snoc_last {A : Type} (x : A) l :
  ∃ m, x :: l = m ++ [List.last l x].
Proof.
  exists (removelast (x :: l)).
  rewrite (app_removelast_last x (l := x :: l)) at 1 by done.
  by rewrite last_cons.
Qed.

(** [TrimSpace] leaves a text alone that starts and ends with ASCII
    bytes that are no white space. *)
Lemma TrimSpace_graphic_ends s c l :
  list_ascii_of_string s = c :: l →
  graphic c = true → graphic (List.last l c) = true →
  TrimSpace s = s.
Proof.
  intros Hs Hc Hd. unfold TrimSpace. rewrite Hs.
  rewrite skipSpace_graphic by done.
  destruct (snoc_last c l) as [m Em]. rewrite Em.
  rewrite reverse_snoc, skipSpace_graphic by done.
  rewrite <- reverse_snoc, reverse_involutive. rewrite <- Em, <- Hs.
  apply string_of_list_ascii_of_string.
Qed.

Lemma dropCR_not_CR s c l :
  list_ascii_of_string s = c :: l →
  Ascii.eqb (List.last l c) "013" = false →
  dropCR s = s.
Proof.
  revert c l. induction s as [|x s IH]; intros c l; [done|].
  simpl. intros [= <- <-]. destruct s as [|y s].
  - simpl. by intros ->.
  - intros Hlast. f_equal. apply (IH y (list_ascii_of_string s)); [done|].
    change (list_ascii_of_string (String y s)) with (y :: list_ascii_of_string s) in Hlast.
    by rewrite last_cons in Hlast.
Qed.

Lemma graphic_not_CR c : graphic c = true → Ascii.eqb c "013" = false.
Proof.
  intros [Hs _]%graphic_spec. destruct (Ascii.eqb_spec c "013") as [->|]; [|done].
  discriminate Hs.
Qed.

(** What makes a line plain. *)
Lemma plain_line_spec line :
  plain_line line = true →
  line ≠ "" ∧ TrimSpace line = line ∧ dropCR line = line
  ∧ HasPrefix line "#" = false ∧ no_byte LF line = true
  ∧ Z.of_nat (String.length line) < MaxScanTokenSize.
Proof.
  unfold plain_line.
  destruct (list_ascii_of_string line) as [|c l] eqn:E; [done|].
  intros [[[[Hc Hd]%andb_prop Hhash]%andb_prop Hlf]%andb_prop Hlen]%andb_prop.
  apply Z.ltb_lt in Hlen. apply negb_true_iff in Hhash.
  repeat split; try done.
  - by intros ->.
  - by eapply TrimSpace_graphic_ends.
  - eapply dropCR_not_CR; [done|]. by apply graphic_not_CR.
  - destruct line as [|x line]; [done|]. simpl in E. injection E as -> _.
    unfold HasPrefix. cbn [String.prefix].
    destruct (Ascii.ascii_dec "#" c) as [<-|]; [done|]. done.
Qed.

Lemma Split_app c a b : Split (a +:+ String c "" +:+ b) c = Split a c ++ Split b c.
Proof.
  induction a as [|x a IH]; simpl.
  - by rewrite Ascii.eqb_refl.
  - rewrite IH. destruct (Ascii.eqb x c); [done|].
    assert (Split a c ≠ []) as Hne.
    { clear. destruct a as [|y a]; simpl; [done|].
      destruct (Ascii.eqb y c); [done|]. by destruct (Split a c). }
    by destruct (Split a c).
Qed.

Lemma Split_unlines lines :
  Forall (λ line, no_byte LF line = true) lines →
  Split (unlines lines) LF = lines ++ [""].
Proof.
  induction 1 as [|line lines Hline _ IH]; [done|]. simpl.
  unfold newline. by rewrite Split_byte, IH.
Qed.

Lemma rawLines_unlines lines :
  Forall (λ line, no_byte LF line = true) lines → rawLines (unlines lines) = lines.
Proof.
  intros H. unfold rawLines. rewrite (Split_unlines _ H).
  rewrite last_last. simpl. apply removelast_last.
Qed.

(** Scanning the text of plain lines gives them back. *)
Lemma Scan_unlines lines :
  Forall (λ line, plain_line line = true) lines → Scan (unlines lines) = Some lines.
Proof.
  intros H. unfold Scan. rewrite rawLines_unlines.
  2:{ eapply Forall_impl; [exact H|]. intros line Hl.
      by apply plain_line_spec in Hl as (_ & _ & _ & _ & Hl & _). }
  rewrite (proj2 (forallb_forall _ _)).
  2:{ intros line Hin%list_elem_of_In. rewrite Forall_forall in H.
      apply Z.ltb_lt. by destruct (plain_line_spec line (H line Hin)) as (_ & _ & _ & _ & _ & ?). }
  f_equal. induction H as [|line lines Hl _ IH]; [done|].
  rewrite fmap_cons, IH. f_equal.
  by apply plain_line_spec in Hl as (_ & _ & Hl & _).
Qed.

(** ** The file helpers *)

Lemma ReadLines_loop_app (lines texts : list string) :
  foldl (λ lines text,
           let line := TrimSpace text in
           if negb (String.eqb line "") && negb (HasPrefix line "#")
           then lines ++ [line] else lines) lines texts
  = lines ++ foldl (λ lines text,
                      let line := TrimSpace text in
                      if negb (String.eqb line "") && negb (HasPrefix line "#")
                      then lines ++ [line] else lines) [] texts.
Proof.
  revert lines. induction texts as [|text texts IH]; intros lines; simpl.
  - by rewrite app_nil_r.
  - rewrite IH. symmetry. rewrite IH.
    destruct (negb _ && negb _); [by rewrite app_assoc|done].
Qed.

Lemma ReadLines_loop_plain (texts : list string) :
  Forall (λ line, plain_line line = true) texts →
  foldl (λ lines text,
           let line := TrimSpace text in
           if negb (String.eqb line "") && negb (HasPrefix line "#")
           then lines ++ [line] else lines) [] texts
  = texts.
Proof.
  induction 1 as [|text texts Ht _ IH]; [done|]. simpl.
  rewrite ReadLines_loop_app, IH.
  apply plain_line_spec in Ht as (Hne & -> & _ & -> & _).
  destruct (String.eqb_spec text ""); done.
Qed.

(** [ReadLines] never returns an empty line or a line that starts with
    [#], and it returns an error for a file that cannot be opened. *)
Theorem ReadLines_skips_blank_and_comment fs path :
  (∀ lines, Files.ReadLines fs path = Some lines →
            Forall (λ line, line ≠ "" ∧ HasPrefix line "#" = false) lines)
  ∧ (Open fs path = None → Files.ReadLines fs path = None).
Proof.
  split; [|by unfold Files.ReadLines; intros ->].
  intros lines. unfold Files.ReadLines.
  destruct (Open fs path) as [text|]; [|done].
  destruct (Scan text) as [texts|]; [|done]. intros [= <-].
  assert (Hall : ∀ acc, Forall (λ line, line ≠ "" ∧ HasPrefix line "#" = false) acc →
    Forall (λ line, line ≠ "" ∧ HasPrefix line "#" = false)
      (foldl (λ lines text,
                let line := TrimSpace text in
                if negb (String.eqb line "") && negb (HasPrefix line "#")
                then lines ++ [line] else lines) acc texts)).
  { induction texts as [|t texts IH]; intros acc Hacc; [done|]. simpl. apply IH.
    destruct (String.eqb_spec (TrimSpace t) ""); [done|].
    destruct (HasPrefix (TrimSpace t) "#") eqn:Hp; [done|]. simpl.
    apply Forall_app. split; [done|]. by repeat constructor. }
  by apply Hall.
Qed.

Lemma ReadLines_unlines fs path lines :
  Open fs path = Some (unlines lines) →
  Forall (λ line, plain_line line = true) lines →
  Files.ReadLines fs path = Some lines.
Proof.
  intros Hopen Hplain. unfold Files.ReadLines.
  rewrite Hopen, (Scan_unlines _ Hplain). by rewrite ReadLines_loop_plain.
Qed.

Lemma take_app_ge n a b :
  (String.length a ≤ n)%nat → take n (a +:+ b) = a +:+ take (n - String.length a) b.
Proof.
  revert n. induction a as [|c a IH]; intros n Hn; simpl in *.
  - by rewrite Nat.sub_0_r.
  - destruct n as [|n]; [lia|]. simpl. rewrite IH by lia. done.
Qed.

Lemma take_app_lt n a b :
  (n ≤ String.length a)%nat → take n (a +:+ b) = take n a.
Proof.
  revert n. induction a as [|c a IH]; intros n Hn; simpl in *.
  - by replace n with 0%nat by lia.
  - destruct n as [|n]; [done|]. simpl. rewrite IH by lia. done.
Qed.

Lemma take_ge n s : (String.length s ≤ n)%nat → take n s = s.
Proof.
  revert n. induction s as [|c s IH]; intros n Hn; simpl in *; [by destruct n|].
  destruct n as [|n]; [lia|]. simpl. rewrite IH by lia. done.
Qed.

Lemma unlines_app a b : unlines (a ++ b) = unlines a +:+ unlines b.
Proof.
  induction a as [|line a IH]; [done|]. simpl. by rewrite IH, !app_assoc'.
Qed.

(** A write on an open file: what fits is written. *)
Lemma WriteString_spec fs path old s :
  files fs !! path = Some old →
  ∃ fs',
    WriteString fs path s = (fs', bool_decide (String.length s ≤ room fs)%nat)
    ∧ files fs' !! path = Some (old +:+ take (room fs) s)
    ∧ (∀ other, other ≠ path → files fs' !! other = files fs !! other)
    ∧ denied fs' = denied fs
    ∧ room fs' = (room fs - String.length s)%nat.
Proof.
  intros Hold. unfold WriteString. rewrite Hold. simpl.
  destruct (Nat.leb_spec (String.length s) (room fs)) as [Hfit|Hfull].
  - eexists. rewrite bool_decide_true by done. split; [reflexivity|]. simpl.
    rewrite lookup_insert_eq, take_ge by done.
    repeat split; try done. intros other Hne. by rewrite lookup_insert_ne.
  - eexists. rewrite bool_decide_false by lia. split; [reflexivity|]. simpl.
    rewrite lookup_insert_eq.
    repeat split; try done; [|lia]. intros other Hne. by rewrite lookup_insert_ne.
Qed.

(** The loop of [WriteLines] writes as much of the text of the lines as
    the device has room for, and fails when that is not all of it. *)
Lemma WriteLines_loop_spec fs path old lines :
  files fs !! path = Some old →
  ∃ fs',
    Files.WriteLines_loop fs path lines
      = (fs', bool_decide (String.length (unlines lines) ≤ room fs)%nat)
    ∧ files fs' !! path = Some (old +:+ take (room fs) (unlines lines))
    ∧ (∀ other, other ≠ path → files fs' !! other = files fs !! other)
    ∧ denied fs' = denied fs.
Proof.
  revert fs old. induction lines as [|line lines IH]; intros fs old Hold.
  - exists fs. cbn [Files.WriteLines_loop unlines].
    rewrite bool_decide_true by (simpl; lia).
    repeat split; try done. rewrite Hold. by destruct (room fs); rewrite app_empty_r.
  - cbn [Files.WriteLines_loop unlines].
    destruct (WriteString_spec fs path old (line +:+ newline) Hold)
      as (fs1 & -> & Hfile & Hother & Hdenied & Hroom).
    case_bool_decide as Hfit.
    + rewrite take_ge in Hfile by done.
      destruct (IH fs1 _ Hfile) as (fs' & -> & Hfile' & Hother' & Hdenied').
      exists fs'. rewrite Hroom in *. repeat split.
      * f_equal. rewrite <- app_assoc'. rewrite !length_app' in *.
        apply bool_decide_ext. lia.
      * rewrite Hfile'. f_equal. rewrite <- (app_assoc' line newline).
        rewrite (take_app_ge (room fs) (line +:+ newline)) by done. by rewrite app_assoc'.
      * intros other Hne. by rewrite Hother', Hother.
      * congruence.
    + exists fs1. repeat split.
      * f_equal. rewrite <- app_assoc'. rewrite !length_app' in *.
        rewrite bool_decide_false; [done|lia].
      * rewrite Hfile. f_equal. rewrite <- (app_assoc' line newline).
        rewrite (take_app_lt (room fs) (line +:+ newline)) by lia. done.
      * done.
      * done.
Qed.

Lemma WriteLines_spec fs path lines :
  path ∉ denied fs →
  ∃ fs',
    Files.WriteLines fs path lines
      = (fs', bool_decide (String.length (unlines lines)
                           ≤ room fs + String.length (text_of fs path))%nat)
    ∧ files fs' !! path
      = Some (take (room fs + String.length (text_of fs path)) (unlines lines))
    ∧ (∀ other, other ≠ path → files fs' !! other = files fs !! other)
    ∧ denied fs' = denied fs.
Proof.
  intros Hpath. unfold Files.WriteLines, Create. rewrite decide_False by done.
  edestruct (WriteLines_loop_spec) as (fs' & -> & Hfile & Hother & Hdenied).
  { simpl. apply lookup_insert_eq. }
  exists fs'. simpl in *. repeat split; try done.
  intros other Hne. rewrite Hother by done. by rewrite lookup_insert_ne.
Qed.

(** [WriteLines] replaces the file by as much of the text of the lines
    (each followed by a line feed) as the device has room for, counting
    the room that the old file gives back, and returns an error when
    that is not the whole text; other files are not touched.  A file
    that cannot be opened is left as it is, with an error. *)
Theorem WriteLines_writes_what_fits fs path lines :
  (path ∈ denied fs → Files.WriteLines fs path lines = (fs, false))
  ∧ (path ∉ denied fs →
     ∃ fs',
       Files.WriteLines fs path lines
         = (fs', bool_decide (String.length (unlines lines)
                              ≤ room fs + String.length (text_of fs path))%nat)
       ∧ files fs' !! path
         = Some (take (room fs + String.length (text_of fs path)) (unlines lines))
       ∧ ∀ other, other ≠ path → files fs' !! other = files fs !! other).
Proof.
  split; intros Hpath.
  - unfold Files.WriteLines, Create. by rewrite decide_True.
  - destruct (WriteLines_spec fs path lines Hpath) as (fs' & ? & ? & ? & _). eauto.
Qed.

(** What [WriteLines] writes, [ReadLines] reads: plain lines that fit on
    the device come back as they are. *)
Theorem WriteLines_then_ReadLines fs path lines :
  path ∉ denied fs →
  Forall (λ line, plain_line line = true) lines →
  (String.length (unlines lines) ≤ room fs + String.length (text_of fs path))%nat →
  ∃ fs',
    Files.WriteLines fs path lines = (fs', true)
    ∧ Files.ReadLines fs' path = Some lines.
Proof.
  intros Hpath Hplain Hfit.
  destruct (WriteLines_spec fs path lines Hpath) as (fs' & Hw & Hfile & _ & Hdenied).
  rewrite bool_decide_true in Hw by done. rewrite take_ge in Hfile by done.
  exists fs'. split; [done|].
  apply ReadLines_unlines; [|done].
  unfold Open. rewrite Hdenied. by rewrite decide_False.
Qed.

Lemma WriteLines_then_ReadLines_witness :
  ∃ fs',
    Files.WriteLines {| files := {["out/http.txt" := "old"]}; denied := ∅; room := 30 |}
      "out/http.txt" ["1.1.1.1:80"; "22.22.22.22:8080"] = (fs', true)
    ∧ Files.ReadLines fs' "out/http.txt" = Some ["1.1.1.1:80"; "22.22.22.22:8080"].
Proof.
  apply WriteLines_then_ReadLines.
  - apply not_elem_of_empty.
  - repeat constructor.
  - vm_compute. lia.
Defined.

(** [AppendLine] creates the file when it is missing and writes at its
    end what fits of the line and its line feed. *)
Lemma AppendLine_spec fs path line :
  path ∉ denied fs →
  ∃ fs',
    Files.AppendLine fs path line
      = (fs', bool_decide (String.length (line +:+ newline) ≤ room fs)%nat)
    ∧ files fs' !! path = Some (text_of fs path +:+ take (room fs) (line +:+ newline))
    ∧ (∀ other, other ≠ path → files fs' !! other = files fs !! other)
    ∧ denied fs' = denied fs
    ∧ room fs' = (room fs - String.length (line +:+ newline))%nat.
Proof.
  intros Hpath. unfold Files.AppendLine, OpenFile_append. rewrite decide_False by done.
  edestruct (WriteString_spec) as (fs' & -> & Hfile & Hother & Hdenied & Hroom).
  { simpl. apply lookup_insert_eq. }
  exists fs'. simpl in *. repeat split; try done.
  intros other Hne. rewrite Hother by done. by rewrite lookup_insert_ne.
Qed.

Lemma length_line_newline line :
  String.length (line +:+ newline) = S (String.length line).
Proof. rewrite length_app'. simpl. lia. Qed.

Lemma AppendLines_spec fs path lines ok :
  path ∉ denied fs →
  ∃ fs',
    foldl (λ st line,
             let '(fs', ok) := Files.AppendLine st.1 path line in (fs', st.2 && ok))
          (fs, ok) lines
      = (fs', ok && bool_decide (String.length (unlines lines) ≤ room fs)%nat)
    ∧ text_of fs' path = text_of fs path +:+ take (room fs) (unlines lines)
    ∧ (is_Some (files fs !! path) ∨ lines ≠ [] → is_Some (files fs' !! path))
    ∧ (∀ other, other ≠ path → files fs' !! other = files fs !! other)
    ∧ denied fs' = denied fs.
Proof.
  revert fs ok. induction lines as [|line lines IH]; intros fs ok Hpath.
  - exists fs. cbn [foldl unlines]. rewrite bool_decide_true by (simpl; lia).
    rewrite andb_true_r. repeat split; try done.
    + by destruct (room fs); rewrite app_empty_r.
    + by intros [?|?].
  - cbn [foldl unlines fst snd].
    destruct (AppendLine_spec fs path line Hpath)
      as (fs1 & -> & Hfile & Hother & Hdenied & Hroom).
    destruct (IH fs1 (ok && bool_decide (String.length (line +:+ newline) ≤ room fs)%nat))
      as (fs' & -> & Htext & Hsome & Hother' & Hdenied'); [by rewrite Hdenied|].
    exists fs'. unfold text_of in Htext at 2. rewrite Hfile in Htext. simpl in Htext.
    rewrite Hroom in *. repeat split.
    + f_equal. rewrite <- andb_assoc. f_equal.
      rewrite <- (app_assoc' line newline), (length_app' (line +:+ newline)).
      repeat case_bool_decide; try done; try lia.
    + rewrite Htext. rewrite app_assoc'. f_equal.
      rewrite <- (app_assoc' line newline).
      destruct (Nat.le_gt_cases (String.length (line +:+ newline)) (room fs)) as [Hfit|Hfull].
      * rewrite (take_ge _ (line +:+ newline)) by done.
        by rewrite (take_app_ge (room fs) (line +:+ newline)) by done.
      * replace (room fs - String.length (line +:+ newline))%nat with 0%nat by lia.
        rewrite (take_app_lt (room fs) (line +:+ newline)) by lia.
        destruct (unlines lines); by rewrite app_empty_r.
    + intros _. apply Hsome. left. by rewrite Hfile.
    + intros other Hne. by rewrite Hother', Hother.
    + congruence.
Qed.

(** What a run of [AppendLine] calls leaves in a file that was missing
    or held the lines [before], [ReadLines] reads back: plain lines that
    fit on the device come back as they are, after the old ones. *)
Theorem AppendLine_then_ReadLines fs path before line lines :
  path ∉ denied fs →
  text_of fs path = unlines before →
  Forall (λ line, plain_line line = true) (before ++ line :: lines) →
  (String.length (unlines (line :: lines)) ≤ room fs)%nat →
  ∃ fs',
    AppendLines fs path (line :: lines) = (fs', true)
    ∧ Files.ReadLines fs' path = Some (before ++ line :: lines).
Proof.
  intros Hpath Hbefore Hplain Hfit. unfold AppendLines.
  destruct (AppendLines_spec fs path (line :: lines) true Hpath)
    as (fs' & -> & Htext & Hsome & _ & Hdenied).
  rewrite bool_decide_true by done. exists fs'. split; [done|].
  apply ReadLines_unlines; [|done].
  unfold Open. rewrite Hdenied, decide_False by done.
  destruct Hsome as [text Hfile]; [by right|].
  unfold text_of in Htext at 1. rewrite Hfile in Htext. simpl in Htext.
  rewrite Hfile, Htext, Hbefore, take_ge by done. by rewrite unlines_app.
Qed.

Lemma AppendLine_then_ReadLines_witness :
  ∃ fs',
    AppendLines {| files := ∅; denied := ∅; room := 100 |} "out/socks5.txt"
      ["5.6.7.8:1080"; "9.9.9.9:3128"] = (fs', true)
    ∧ Files.ReadLines fs' "out/socks5.txt" = Some ["5.6.7.8:1080"; "9.9.9.9:3128"].
Proof.
  apply (AppendLine_then_ReadLines {| files := ∅; denied := ∅; room := 100 |}
           "out/socks5.txt" [] "5.6.7.8:1080" ["9.9.9.9:3128"]).
  - apply not_elem_of_empty.
  - reflexivity.
  - repeat constructor.
  - vm_compute. lia.
Defined.

(** ** The scraper *)

Section ScrapeFacts.

Variable U : string → option ProxyData.
Variable web : Web.

(** The valid lines of a body: every one is what [isValidProxy] returned
    for a line that it accepted. *)
Lemma localProxies_valid body :
  Forall (λ p, ∃ line, isValidProxy U line = (p, true)) (localProxies U body).
Proof.
  unfold localProxies.
  assert (Hall : ∀ lines acc,
    Forall (λ p, ∃ line, isValidProxy U line = (p, true)) acc →
    Forall (λ p, ∃ line, isValidProxy U line = (p, true))
      (foldl (λ localProxies line,
                let proxy := TrimSpace line in
                let '(normalized, ok) := isValidProxy U proxy in
                if ok then localProxies ++ [normalized] else localProxies) acc lines)).
  { induction lines as [|line lines IH]; intros acc Hacc; [done|]. simpl. apply IH.
    destruct (isValidProxy U (TrimSpace line)) as [normalized [|]] eqn:E; [|done].
    apply Forall_app. split; [done|]. repeat constructor. eauto. }
  by apply Hall.
Qed.

Lemma collected_scraper userAgents timeout i url :
  collected (scraper U web userAgents timeout i url)
  = harvest U web userAgents timeout i url.
Proof.
  unfold scraper, harvest, collected.
  destruct (Request_ok web url); simpl; [|done].
  destruct (length userAgents =? 0)%nat; simpl; [done|].
  destruct (Get web timeout url _) as [|code [|body]]; simpl; try done.
  by rewrite app_nil_r.
Qed.

Lemma harvest_valid userAgents timeout i url :
  Forall (λ p, ∃ line, isValidProxy U line = (p, true))
    (harvest U web userAgents timeout i url).
Proof.
  unfold harvest. repeat case_match; try done. apply localProxies_valid.
Qed.

Lemma scrape_perform_scrapers concurrent o st st' :
  scrape_perform concurrent o st = Some st' → scrapers st' = scrapers st.
Proof. destruct o; simpl; repeat case_match; intros [= <-]; done. Qed.

Lemma scrape_step_inv concurrent i st st' :
  scrape_step concurrent i st = Some st' →
  ∃ o rest st1,
    scrapers st !! i = Some (o :: rest)
    ∧ scrape_perform concurrent o st = Some st1
    ∧ scrapers st' = <[i := rest]> (scrapers st)
    ∧ proxies st' = proxies st1 ∧ semaphore st' = semaphore st1.
Proof.
  unfold scrape_step.
  destruct (scrapers st !! i) as [[|o rest]|] eqn:Hi; try done.
  destruct (scrape_perform concurrent o st) as [st1|] eqn:Hp; [|done]. simpl.
  intros [= <-]. exists o, rest, st1. simpl.
  by rewrite (scrape_perform_scrapers _ _ _ _ Hp).
Qed.

Lemma collected_insert (gs : list (list scrape_op)) i o rest :
  gs !! i = Some (o :: rest) →
  concat (collected <$> gs) ≡ₚ collected [o] ++ concat (collected <$> <[i := rest]> gs).
Proof.
  revert i. induction gs as [|g gs IH]; intros [|i]; simpl; try done.
  - intros [= ->]. unfold collected. simpl. by rewrite app_nil_r, app_assoc.
  - intros H. rewrite (IH _ H). apply Permutation_app_swap_app.
Qed.

(** The proxies gathered and the proxies still to be gathered are, in
    some order, all the proxies of the run. *)
Lemma scrape_step_gathers concurrent i st st' total :
  scrape_step concurrent i st = Some st' →
  proxies st ++ concat (collected <$> scrapers st) ≡ₚ total →
  proxies st' ++ concat (collected <$> scrapers st') ≡ₚ total.
Proof.
  intros (o & rest & st1 & Hi & Hp & -> & -> & _)%scrape_step_inv <-.
  rewrite (collected_insert _ _ _ _ Hi).
  destruct o; simpl in Hp; repeat case_match; simplify_eq; simpl; try done.
  by rewrite app_nil_r, <- app_assoc.
Qed.

Lemma scrape_exec_gathers concurrent schedule st st' total :
  scrape_exec concurrent schedule st = Some st' →
  proxies st ++ concat (collected <$> scrapers st) ≡ₚ total →
  proxies st' ++ concat (collected <$> scrapers st') ≡ₚ total.
Proof.
  revert st. induction schedule as [|i schedule IH]; intros st; simpl.
  - by intros [= <-].
  - destruct (scrape_step concurrent i st) as [st1|] eqn:Hstep; [|done]. simpl.
    intros Hexec Hinv. eapply IH; [done|]. by eapply scrape_step_gathers.
Qed.

Lemma collected_all_done (gs : list (list scrape_op)) :
  forallb (λ g, bool_decide (g = [])) gs = true → concat (collected <$> gs) = [].
Proof.
  induction gs as [|g gs IH]; simpl; [done|].
  intros [Hg Hgs]%andb_prop. apply bool_decide_eq_true in Hg as ->. by apply IH.
Qed.

Lemma ScrapeProxies_gathered schedule urls userAgents timeout concurrent result :
  ScrapeProxies U web schedule urls userAgents timeout concurrent = Some result →
  result ≡ₚ concat (imap (harvest U web userAgents timeout) urls).
Proof.
  unfold ScrapeProxies. case_match; [done|].
  destruct (scrape_exec concurrent schedule _) as [st|] eqn:Hexec; [|done].
  destruct (forallb _ (scrapers st)) eqn:Hdone; [|done]. intros [= <-].
  eapply scrape_exec_gathers in Hexec; [|reflexivity].
  rewrite (collected_all_done _ Hdone), app_nil_r in Hexec. rewrite Hexec. simpl.
  rewrite fmap_imap.
  by rewrite (imap_ext _ (harvest U web userAgents timeout))
    by (intros; apply collected_scraper).
Qed.

(** When [ScrapeProxies] returns, under whatever schedule of its
    goroutines, the proxies it returns are, in some order, the valid
    lines of the bodies of all URLs that could be fetched: no line is
    lost, invented or merged with an equal one. *)
Theorem ScrapeProxies_gathers_all schedule urls userAgents timeout concurrent result :
  ScrapeProxies U web schedule urls userAgents timeout concurrent = Some result →
  result ≡ₚ concat (imap (harvest U web userAgents timeout) urls).
Proof. apply ScrapeProxies_gathered. Qed.

(** Every proxy that [ScrapeProxies] returns is what [isValidProxy]
    made of a line that it accepted: a host, a colon, and a port of one
    to five digits. *)
Theorem ScrapeProxies_returns_valid schedule urls userAgents timeout concurrent result :
  ScrapeProxies U web schedule urls userAgents timeout concurrent = Some result →
  Forall (λ p,
            (∃ line, isValidProxy U line = (p, true))
            ∧ ∃ host port,
                p = host +:+ ":" +:+ port ∧ no_colon host = true
                ∧ all_digits port = true ∧ (1 ≤ String.length port ≤ 5)%nat)
         result.
Proof.
  intros Hret%ScrapeProxies_gathered. rewrite Hret.
  apply Forall_concat, Forall_forall. intros block Hblock.
  apply list_elem_of_lookup in Hblock as [i Hblock].
  rewrite list_lookup_imap in Hblock.
  destruct (urls !! i) as [url|]; [|done]. injection Hblock as <-.
  eapply Forall_impl; [apply harvest_valid|]. simpl.
  intros p [line Hline]. split; [eauto|].
  apply isValidProxy_accepted in Hline as (_ & Hlen & Hport & Hd).
  destruct (Split p ":") as [|host [|port [|]]] eqn:E; try done.
  exists host, port. simpl in *.
  apply Split_two in E as (-> & Hhost & _). done.
Qed.

(** *** The goroutines one after the other *)

Lemma scraper_shape userAgents timeout i url :
  userAgents ≠ [] →
  (scraper U web userAgents timeout i url = [Take; Give]
   ∧ harvest U web userAgents timeout i url = [])
  ∨ (scraper U web userAgents timeout i url
     = [Take; Collect (harvest U web userAgents timeout i url); Give]).
Proof.
  intros Hua. unfold scraper, harvest.
  destruct (Request_ok web url); simpl; [|by left].
  destruct userAgents as [|ua agents]; [done|]. simpl.
  destruct (Get web timeout url _) as [|code [|body]]; simpl; auto.
Qed.

Lemma scrape_exec_app concurrent s1 s2 st :
  scrape_exec concurrent (s1 ++ s2) st
  = scrape_exec concurrent s1 st ≫= scrape_exec concurrent s2.
Proof.
  revert st. induction s1 as [|i s1 IH]; intros st; simpl; [done|].
  destruct (scrape_step concurrent i st); simpl; [apply IH|done].
Qed.

Lemma scrape_step_eq concurrent i st o rest st1 :
  scrapers st !! i = Some (o :: rest) →
  scrape_perform concurrent o st = Some st1 →
  scrape_step concurrent i st
  = Some {| proxies := proxies st1; completedURLs := completedURLs st1;
            totalFound := totalFound st1; semaphore := semaphore st1;
            scrapers := <[i := rest]> (scrapers st1) |}.
Proof. intros Hi Hp. unfold scrape_step. by rewrite Hi, Hp. Qed.

(** One goroutine from its start to its end, with the semaphore free. *)
Lemma scrape_exec_one concurrent userAgents timeout i url st :
  1 ≤ concurrent →
  userAgents ≠ [] →
  semaphore st = 0 →
  scrapers st !! i = Some (scraper U web userAgents timeout i url) →
  ∃ st',
    scrape_exec concurrent
      (replicate (length (scraper U web userAgents timeout i url)) i) st = Some st'
    ∧ proxies st' = proxies st ++ harvest U web userAgents timeout i url
    ∧ semaphore st' = 0
    ∧ scrapers st' = <[i := []]> (scrapers st).
Proof.
  intros Hc Hua Hsem Hi.
  assert (Hlt : (i < length (scrapers st))%nat) by by eapply lookup_lt_Some.
  assert (Htake : scrape_perform concurrent Take st
            = Some {| proxies := proxies st; completedURLs := completedURLs st;
                      totalFound := totalFound st; semaphore := 1;
                      scrapers := scrapers st |}).
  { simpl. rewrite Hsem. by destruct (Z.ltb_spec 0 concurrent); [|lia]. }
  destruct (scraper_shape userAgents timeout i url Hua) as [[Hg ->]|Hg];
    rewrite Hg in *; cbn [length replicate scrape_exec].
  - rewrite (scrape_step_eq _ _ _ _ _ _ Hi Htake). cbn [mbind option_bind].
    erewrite scrape_step_eq;
      [|simpl; by apply list_lookup_insert_eq|reflexivity].
    cbn [mbind option_bind].
    eexists. split; [reflexivity|]. simpl.
    by rewrite list_insert_insert_eq, app_nil_r.
  - rewrite (scrape_step_eq _ _ _ _ _ _ Hi Htake). cbn [mbind option_bind].
    erewrite scrape_step_eq;
      [|simpl; by apply list_lookup_insert_eq|reflexivity].
    cbn [mbind option_bind].
    erewrite scrape_step_eq;
      [|simpl; rewrite list_insert_insert_eq; by apply list_lookup_insert_eq|reflexivity].
    cbn [mbind option_bind].
    eexists. split; [reflexivity|]. simpl.
    by rewrite !list_insert_insert_eq.
Qed.

Lemma scrape_exec_one_by_one concurrent userAgents timeout done urls st :
  1 ≤ concurrent →
  userAgents ≠ [] →
  semaphore st = 0 →
  Forall (λ g, g = []) done →
  scrapers st
  = done ++ imap (λ j, scraper U web userAgents timeout (length done + j)) urls →
  ∃ st',
    scrape_exec concurrent
      (one_by_one (length done)
         (imap (λ j, scraper U web userAgents timeout (length done + j)) urls)) st
      = Some st'
    ∧ proxies st'
      = proxies st
        ++ concat (imap (λ j, harvest U web userAgents timeout (length done + j)) urls)
    ∧ forallb (λ g, bool_decide (g = [])) (scrapers st') = true.
Proof.
  intros Hc Hua. revert done st.
  induction urls as [|url urls IH]; intros done st Hsem Hdone Hgs.
  - exists st. simpl in *. rewrite !app_nil_r in *. split; [done|]. split; [done|].
    rewrite Hgs. apply forallb_forall. intros g Hin%list_elem_of_In.
    rewrite Forall_forall in Hdone. apply bool_decide_eq_true. by apply Hdone.
  - cbn [imap one_by_one concat]. rewrite Nat.add_0_r in *.
    rewrite scrape_exec_app.
    destruct (scrape_exec_one concurrent userAgents timeout (length done) url st Hc Hua Hsem)
      as (st1 & -> & Hp1 & Hsem1 & Hgs1).
    { rewrite Hgs. cbn [imap]. rewrite Nat.add_0_r.
      by rewrite lookup_app_r, Nat.sub_diag by lia. }
    simpl.
    destruct (IH (done ++ [[]]) st1 Hsem1) as (st' & Hexec & Hp' & Hdone').
    + apply Forall_app. split; [done|]. by repeat constructor.
    + rewrite Hgs1, Hgs. cbn [imap]. rewrite Nat.add_0_r.
      rewrite insert_app_r_alt, Nat.sub_diag by lia. simpl.
      rewrite <- app_assoc. simpl. f_equal. f_equal.
      apply imap_ext. intros j x _. simpl. rewrite length_app. simpl. f_equal. lia.
    + rewrite length_app in Hexec, Hp'. simpl in Hexec, Hp'.
      exists st'. split; [|split; [|done]].
      * rewrite <- Hexec. f_equal. rewrite Nat.add_1_r. f_equal.
        apply imap_ext. intros j x _. simpl. f_equal. lia.
      * rewrite Hp', Hp1, <- app_assoc. f_equal. f_equal. f_equal.
        apply imap_ext. intros j x _. simpl. f_equal. lia.
Qed.

(** With room for one goroutine in the semaphore and at least one user
    agent, [ScrapeProxies] returns: when its goroutines run one after
    the other, it returns the valid lines of the first URL, then those
    of the second, and so on. *)
Theorem ScrapeProxies_one_by_one urls userAgents timeout concurrent :
  1 ≤ concurrent →
  userAgents ≠ [] →
  ScrapeProxies U web
    (one_by_one 0 (imap (scraper U web userAgents timeout) urls))
    urls userAgents timeout concurrent
  = Some (concat (imap (harvest U web userAgents timeout) urls)).
Proof.
  intros Hc Hua. unfold ScrapeProxies.
  destruct (Z.ltb_spec concurrent 0); [lia|].
  destruct (scrape_exec_one_by_one concurrent userAgents timeout [] urls
              {| proxies := []; completedURLs := 0; totalFound := 0; semaphore := 0;
                 scrapers := imap (scraper U web userAgents timeout) urls |} Hc Hua)
    as (st' & Hexec & Hp & Hdone); try done.
  simpl in Hexec, Hp.
  change (λ j : nat, scraper U web userAgents timeout j)
    with (scraper U web userAgents timeout) in Hexec.
  change (λ j : nat, harvest U web userAgents timeout j)
    with (harvest U web userAgents timeout) in Hp.
  rewrite Hexec, Hdone. by rewrite Hp.
Qed.

(** *** No user agent *)

Lemma scrape_step_panics concurrent i st st' :
  scrape_step concurrent i st = Some st' →
  sum_list_with (sum_list_with is_panic) (scrapers st')
  = sum_list_with (sum_list_with is_panic) (scrapers st).
Proof.
  intros (o & rest & st1 & Hi & Hp & -> & _)%scrape_step_inv.
  pose proof (sum_list_with_insert (sum_list_with is_panic) (scrapers st) i
                (o :: rest) rest Hi) as Hsum.
  destruct o; simpl in *; try done; lia.
Qed.

(** With an empty list of user agents, [ScrapeProxies] does not return
    once a request can be built: the goroutine of that URL divides by
    zero when it picks its user agent.  ([LoadConfig] never returns an
    empty list.) *)
Theorem ScrapeProxies_without_user_agents schedule urls timeout concurrent url :
  url ∈ urls →
  Request_ok web url = true →
  ScrapeProxies U web schedule urls [] timeout concurrent = None.
Proof.
  intros Hurl Hok. unfold ScrapeProxies. case_match; [done|].
  destruct (scrape_exec concurrent schedule _) as [st|] eqn:Hexec; [|done].
  destruct (forallb _ (scrapers st)) eqn:Hdone; [exfalso|done].
  assert (Hkeep : ∀ schedule st0 st1,
    scrape_exec concurrent schedule st0 = Some st1 →
    sum_list_with (sum_list_with is_panic) (scrapers st1)
    = sum_list_with (sum_list_with is_panic) (scrapers st0)).
  { clear. intros schedule. induction schedule as [|i schedule IH]; intros st0 st1; simpl.
    - by intros [= <-].
    - destruct (scrape_step concurrent i st0) as [st'|] eqn:Hstep; [|done]. simpl.
      intros Hexec. rewrite (IH _ _ Hexec). by eapply scrape_step_panics. }
  apply Hkeep in Hexec. simpl in Hexec.
  assert (Hnone : sum_list_with (sum_list_with is_panic) (scrapers st) = 0%nat).
  { clear -Hdone. induction (scrapers st) as [|g gs IH]; simpl in *; [done|].
    apply andb_prop in Hdone as [Hg Hgs]. apply bool_decide_eq_true in Hg as ->.
    by rewrite IH. }
  apply list_elem_of_lookup in Hurl as [i Hi].
  assert (Hin : scraper U web [] timeout i url ∈ imap (scraper U web [] timeout) urls).
  { apply list_elem_of_lookup. exists i. by rewrite list_lookup_imap, Hi. }
  pose proof (sum_list_with_in _ (sum_list_with is_panic) _ Hin) as Hge.
  unfold scraper in Hge at 1. rewrite Hok in Hge. simpl in Hge. lia.
Qed.

End ScrapeFacts.

Lemma ScrapeProxies_gathers_all_witness :
  ["1.2.3.4:80"; "5.6.7.8:3128"; "1.2.3.4:80"; "5.6.7.8:3128"]
  ≡ₚ concat (imap (harvest GoJSON.Unmarshal_ProxyData sampleWeb ["agent"] (10 * Second))
               ["http://a.example/list"; "bad url"; "down"; "http://b.example/list"]).
Proof.
  apply (ScrapeProxies_gathers_all GoJSON.Unmarshal_ProxyData sampleWeb
           [3; 0; 0; 3; 0; 1; 3; 2; 1; 2]%nat
           ["http://a.example/list"; "bad url"; "down"; "http://b.example/list"]
           ["agent"] (10 * Second) 2).
  vm_compute. reflexivity.
Defined.

Lemma ScrapeProxies_returns_valid_witness :
  Forall (λ p,
            (∃ line, isValidProxy GoJSON.Unmarshal_ProxyData line = (p, true))
            ∧ ∃ host port,
                p = host +:+ ":" +:+ port ∧ no_colon host = true
                ∧ all_digits port = true ∧ (1 ≤ String.length port ≤ 5)%nat)
         ["1.2.3.4:80"; "5.6.7.8:3128"].
Proof.
  apply (ScrapeProxies_returns_valid GoJSON.Unmarshal_ProxyData sampleWeb
           [0; 0; 0]%nat ["http://a.example/list"] ["agent"] (10 * Second) 1).
  vm_compute. reflexivity.
Defined.

Lemma ScrapeProxies_one_by_one_witness :
  ScrapeProxies GoJSON.Unmarshal_ProxyData sampleWeb
    (one_by_one 0 (imap (scraper GoJSON.Unmarshal_ProxyData sampleWeb ["agent"] (10 * Second))
                     ["down"; "http://a.example/list"]))
    ["down"; "http://a.example/list"] ["agent"] (10 * Second) 1
  = Some (concat (imap (harvest GoJSON.Unmarshal_ProxyData sampleWeb ["agent"] (10 * Second))
                    ["down"; "http://a.example/list"])).
Proof.
  apply ScrapeProxies_one_by_one; [lia|done].
Defined.

Lemma ScrapeProxies_without_user_agents_witness :
  ScrapeProxies GoJSON.Unmarshal_ProxyData sampleWeb [0; 0; 0]%nat
    ["http://a.example/list"] [] (10 * Second) 1 = None.
Proof.
  apply (ScrapeProxies_without_user_agents GoJSON.Unmarshal_ProxyData sampleWeb
           _ _ _ _ "http://a.example/list").
  - apply list_elem_of_here.
  - reflexivity.
Defined.

(** ** From one run to the next *)

Lemma WriteFile_spec fs path content :
  path ∉ denied fs →
  ∃ fs',
    Files.WriteFile fs path content
      = (fs', bool_decide (String.length (content +:+ newline)
                           ≤ room fs + String.length (text_of fs path))%nat)
    ∧ files fs' !! path
      = Some (take (room fs + String.length (text_of fs path)) (content +:+ newline))
    ∧ denied fs' = denied fs.
Proof.
  intros Hpath. unfold Files.WriteFile, Create. rewrite decide_False by done.
  edestruct (WriteString_spec) as (fs' & -> & Hfile & _ & Hdenied & _).
  { simpl. apply lookup_insert_eq. }
  exists fs'. simpl in *. done.
Qed.

(** What [ReadLines] returns for a text that starts with the header
    row. *)
Lemma ReadLines_header fs path rest lines :
  Open fs path = Some (unlines (header :: rest)) →
  Files.ReadLines fs path = Some lines →
  ∃ lines', lines = header :: lines'.
Proof.
  intros Hopen. unfold Files.ReadLines. rewrite Hopen.
  destruct (Scan (unlines (header :: rest))) as [texts|] eqn:Hscan; [|done].
  intros [= <-]. unfold Scan in Hscan.
  destruct (forallb _ _); [|done]. injection Hscan as <-.
  assert (Hraw : ∃ raw, rawLines (unlines (header :: rest)) = header :: raw).
  { unfold rawLines. cbn [unlines]. unfold newline.
    rewrite Split_byte by reflexivity.
    assert (Split (unlines rest) LF ≠ []) as Hne.
    { clear. destruct (unlines rest) as [|y a]; simpl; [done|].
      destruct (Ascii.eqb y LF); [done|]. by destruct (Split a LF). }
    destruct (Split (unlines rest) LF) as [|h t] eqn:E; [done|].
    destruct (String.eqb _ ""); [|by eexists].
    change (removelast (header :: h :: t)) with (header :: removelast (h :: t)).
    by eexists. }
  destruct Hraw as [raw Hraw]. cbn [unlines] in Hraw. rewrite Hraw.
  rewrite fmap_cons. cbn [foldl].
  change (dropCR header) with header.
  replace (TrimSpace header) with header by (vm_compute; reflexivity).
  change (negb (String.eqb header "") && negb (HasPrefix header "#")) with true.
  cbv iota. rewrite ReadLines_loop_app. by eexists.
Qed.

Lemma out_of_grows config t a r r' :
  step config a r = Some r' → ∃ more, out_of t r' = out_of t r ++ more.
Proof.
  intros Hstep. destruct a as [i|].
  - apply step_Worker in Hstep as (o & rest & r1 & Hi & Hp & ->).
    destruct o as [[]|[result|t' w]|[] line|[]]; simpl in Hp;
      repeat case_match; simplify_eq; destruct t; simpl;
      (by exists []; rewrite app_nil_r) || (by eexists).
  - simpl in Hstep. destruct (ResultChan (checker r)) as [|x q]; [done|].
    injection Hstep as <-. exists []. rewrite app_nil_r. by destruct t.
Qed.

Lemma exec_out_of_grows config t schedule r r' :
  exec config schedule r = Some r' → ∃ more, out_of t r' = out_of t r ++ more.
Proof.
  revert r. induction schedule as [|a schedule IH]; intros r; simpl.
  - intros [= <-]. exists []. by rewrite app_nil_r.
  - destruct (step config a r) as [r1|] eqn:Hstep; [|done]. simpl.
    intros Hexec. apply IH in Hexec as [more' ->].
    apply (out_of_grows config t) in Hstep as [more ->].
    exists (more ++ more'). by rewrite app_assoc.
Qed.

(** *** The candidates of a run *)

(** The candidates that [main] hands to [CheckProxies] are, without
    duplicates, the scraped proxies followed by the lines of the output
    file of the run before; an output file that cannot be read counts
    as empty.  So every candidate is a line that [isValidProxy]
    accepted or a line of the old output file, and the latter are not
    validated. *)
Theorem main_candidates_origin U web fs path schedule urls userAgents timeout concurrent
    scraped :
  ScrapeProxies U web schedule urls userAgents timeout concurrent = Some scraped →
  main_candidates fs path scraped
  = RemoveDuplicates (scraped ++ default [] (Files.ReadLines fs path))
  ∧ NoDup (main_candidates fs path scraped)
  ∧ ∀ p, p ∈ main_candidates fs path scraped ↔
         (p ∈ scraped ∧ ∃ line, isValidProxy U line = (p, true))
         ∨ p ∈ default [] (Files.ReadLines fs path).
Proof.
  intros Hscrape.
  assert (Heq : main_candidates fs path scraped
                = RemoveDuplicates (scraped ++ default [] (Files.ReadLines fs path))).
  { unfold main_candidates.
    destruct (default [] (Files.ReadLines fs path)) as [|x l]; simpl; [|done].
    by rewrite app_nil_r. }
  split; [done|]. rewrite Heq. split; [apply RemoveDuplicates_NoDup|].
  intros p. rewrite RemoveDuplicates_elem_of, elem_of_app.
  split; [|by intros [[? _]|?]; auto]. intros [Hp|Hp]; [left|by right].
  split; [done|].
  apply ScrapeProxies_gathered in Hscrape. rewrite Hscrape in Hp.
  apply list_elem_of_In, in_concat in Hp as (block & Hblock & Hp).
  apply list_elem_of_In in Hblock, Hp.
  apply list_elem_of_lookup in Hblock as [i Hblock].
  rewrite list_lookup_imap in Hblock.
  destruct (urls !! i) as [url|]; [|done]. injection Hblock as <-.
  pose proof (harvest_valid U web userAgents timeout i url) as Hvalid.
  rewrite Forall_forall in Hvalid. by apply Hvalid.
Qed.

Lemma main_candidates_origin_witness :
  main_candidates
    {| files := {["out/http.txt" := unlines ["9.9.9.9:1080"; "1.2.3.4:80"]]};
       denied := ∅; room := 0 |}
    "out/http.txt" ["1.2.3.4:80"; "5.6.7.8:3128"]
  = ["1.2.3.4:80"; "5.6.7.8:3128"; "9.9.9.9:1080"].
Proof.
  destruct (main_candidates_origin GoJSON.Unmarshal_ProxyData sampleWeb
              {| files := {["out/http.txt" := unlines ["9.9.9.9:1080"; "1.2.3.4:80"]]};
                 denied := ∅; room := 0 |}
              "out/http.txt" [0; 0; 0]%nat ["http://a.example/list"] ["agent"]
              (10 * Second) 1 ["1.2.3.4:80"; "5.6.7.8:3128"])
    as [Heq _]; [vm_compute; reflexivity|].
  rewrite Heq. vm_compute. reflexivity.
Defined.

(** *** Working proxies are checked again *)

Lemma check_Proxy W config t p : Proxy (check W config t p) = p.
Proof.
  unfold check, checkHTTPProxy, checkSOCKS5Proxy.
  destruct t; simpl; case_match; simpl; try done;
    by destruct (testProxy W config _) as [[[[w i] sp] an] lo].
Qed.

Lemma count_lines_pos Q l : (0 < count_lines Q l)%nat ↔ ∃ x, x ∈ l ∧ Q x = true.
Proof.
  unfold count_lines. induction l as [|y l IH]; simpl.
  - split; [lia|]. by intros (x & Hx%elem_of_nil & _).
  - split.
    + destruct (Q y) eqn:Hy.
      * intros _. exists y. split; [apply list_elem_of_here|done].
      * intros H. apply IH in H as (x & Hx & HQ). exists x. split; [by constructor|done].
    + intros (x & Hx & HQ). apply elem_of_cons in Hx as [->|Hx].
      * rewrite HQ. lia.
      * assert (0 < sum_list_with (λ x, if Q x then 1 else 0) l)%nat by (apply IH; eauto).
        lia.
Qed.

Lemma working_lines_pos W config t Q l :
  (0 < working_lines W config t Q l)%nat
  ↔ ∃ p, p ∈ l ∧ Working (check W config t p) = true
         ∧ Q (formatProxyOutput W config (check W config t p)) = true.
Proof.
  unfold working_lines. induction l as [|y l IH]; simpl.
  - split; [lia|]. by intros (x & Hx%elem_of_nil & _).
  - split.
    + destruct (Working (check W config t y)
                && Q (formatProxyOutput W config (check W config t y))) eqn:Hy.
      * intros _. apply andb_prop in Hy as [? ?].
        exists y. split; [apply list_elem_of_here|done].
      * intros H. apply IH in H as (x & Hx & HQ). exists x. split; [by constructor|done].
    + intros (x & Hx & Hw & HQ). apply elem_of_cons in Hx as [->|Hx].
      * rewrite Hw, HQ. simpl. lia.
      * assert (0 < sum_list_with
                      (λ p, if Working (check W config t p)
                               && Q (formatProxyOutput W config (check W config t p))
                            then 1 else 0) l)%nat by (apply IH; eauto).
        lia.
Qed.

Lemma list_ascii_of_string_app a b :
  list_ascii_of_string (a +:+ b) = list_ascii_of_string a ++ list_ascii_of_string b.
Proof. induction a as [|c a IH]; [done|]. rewrite app_cons. simpl. by rewrite IH. Qed.

Lemma digit_graphic c : is_digit c = true → graphic c = true ∧ Ascii.eqb c "#" = false.
Proof. destruct c as [[] [] [] [] [] [] [] []]; try discriminate; by intros _. Qed.

Lemma all_digits_no_LF s : all_digits s = true → no_byte LF s = true.
Proof.
  induction s as [|c s IH]; [done|]. simpl. intros [Hc Hs]%andb_prop.
  rewrite IH by done. rewrite andb_true_r. apply negb_true_iff.
  destruct (Ascii.eqb_spec c LF) as [->|]; [discriminate Hc|done].
Qed.

Lemma all_digits_last s c :
  all_digits s = true → is_digit c = true →
  is_digit (List.last (list_ascii_of_string s) c) = true.
Proof.
  revert c. induction s as [|x s IH]; intros c; [done|]. cbn [all_digits].
  intros [Hx Hs]%andb_prop _.
  change (list_ascii_of_string (String x s)) with (x :: list_ascii_of_string s).
  rewrite last_cons. by apply IH.
Qed.

(** A candidate in canonical form is a plain line. *)
Lemma canonical_plain ip port :
  is_quad ip → all_digits port = true → (1 ≤ String.length port ≤ 5)%nat →
  plain_line (ip +:+ ":" +:+ port) = true.
Proof.
  intros Hip Hd Hlen.
  destruct (is_quad_nonempty _ Hip) as (c & ip' & Eip & Hc).
  destruct Hip as (g1 & g2 & g3 & g4 & E & [H1 L1] & [H2 L2] & [H3 L3] & [H4 L4]).
  unfold plain_line. rewrite Eip at 1. rewrite app_cons.
  change (list_ascii_of_string (String c (ip' +:+ ":" +:+ port)))
    with (c :: list_ascii_of_string (ip' +:+ ":" +:+ port)).
  destruct (digit_graphic c Hc) as [Hg Hhash]. rewrite Hg, Hhash.
  assert (Hlast : graphic (List.last (list_ascii_of_string (ip' +:+ ":" +:+ port)) c) = true).
  { rewrite list_ascii_of_string_app.
    destruct port as [|y port]; [simpl in Hlen; lia|].
    change (list_ascii_of_string (":" +:+ String y port))
      with ([":"%char] ++ y :: list_ascii_of_string port).
    rewrite app_assoc, last_nonempty_app by done. rewrite last_cons.
    simpl in Hd. apply andb_prop in Hd as [Hy Hd].
    by apply digit_graphic, all_digits_last. }
  rewrite Hlast. simpl.
  assert (Hlf : no_byte LF (ip +:+ ":" +:+ port) = true).
  { rewrite E, !no_byte_app.
    rewrite (all_digits_no_LF g1), (all_digits_no_LF g2), (all_digits_no_LF g3),
      (all_digits_no_LF g4), (all_digits_no_LF port) by done.
    reflexivity. }
  rewrite Hlf. simpl. apply Z.ltb_lt.
  rewrite E, !length_app'. simpl. unfold MaxScanTokenSize. lia.
Qed.

(** A sequence of [AppendLine] calls that all succeed puts the lines at
    the end of the file. *)
Lemma AppendLines_flag path lines st :
  (foldl (λ st line,
            let '(fs', ok) := Files.AppendLine st.1 path line in (fs', st.2 && ok))
         st lines).2 = true →
  st.2 = true.
Proof.
  revert st. induction lines as [|line lines IH]; intros st; cbn [foldl]; [done|].
  intros H%IH. destruct (Files.AppendLine st.1 path line) as [fs' ok]. simpl in H.
  by apply andb_prop in H as [? _].
Qed.

Lemma AppendLines_true fs0 fs path lines :
  AppendLines fs0 path lines = (fs, true) →
  text_of fs path = text_of fs0 path +:+ unlines lines.
Proof.
  intros Happend. destruct (decide (path ∈ denied fs0)) as [Hin|Hpath].
  - destruct lines as [|line lines].
    + injection Happend as <-. simpl. by rewrite app_empty_r.
    + unfold AppendLines in Happend. cbn [foldl] in Happend.
      assert (Hflag := AppendLines_flag path lines
                         (let '(fs', ok) := Files.AppendLine (fs0, true).1 path line in
                          (fs', (fs0, true).2 && ok))).
      rewrite Happend in Hflag. specialize (Hflag eq_refl).
      unfold Files.AppendLine, OpenFile_append in Hflag. simpl in Hflag.
      by rewrite decide_True in Hflag.
  - unfold AppendLines in Happend.
    destruct (AppendLines_spec fs0 path lines true Hpath) as (fs' & Ha & Htext & _).
    rewrite Happend in Ha. injection Ha as <- Hfit.
    symmetry in Hfit. apply bool_decide_eq_true in Hfit.
    by rewrite take_ge in Htext.
Qed.

Section NextRun.

Variable W : World.
Variable config : Config.

(** Outside detailed mode, what a run found working the next run checks
    again: when the candidates of a family are plain lines (as the
    candidates in canonical form are) and the appends of the run to the
    cleared output file succeeded, [ReadLines] returns from that file
    exactly the lines that the run appended, each of them a candidate
    that the check found working, and every working candidate is among
    the candidates that [main] hands to the next [CheckProxies]. *)
Theorem working_proxies_are_checked_again schedule httpProxies socks5Proxies r t
    fs0 fs path scraped :
  Z.of_nat (length httpProxies) < 2 ^ 63 →
  Z.of_nat (length socks5Proxies) < 2 ^ 63 →
  CheckerConfig.StrictCheck (Checker config)
    && CheckerConfig.DetailedOutput (Checker config) = false →
  CheckProxies W config schedule NewProxyChecker ([], []) httpProxies socks5Proxies
    = Some r →
  Forall (λ p, plain_line p = true)
    (match t with ProxyTypeHTTP => httpProxies | ProxyTypeSOCKS5 => socks5Proxies end) →
  files fs0 !! path = Some "" →
  path ∉ denied fs0 →
  AppendLines fs0 path (out_of t r) = (fs, true) →
  Files.ReadLines fs path = Some (out_of t r)
  ∧ (∀ line, line ∈ out_of t r ↔
       line ∈ match t with ProxyTypeHTTP => httpProxies | ProxyTypeSOCKS5 => socks5Proxies end
       ∧ Working (check W config t line) = true)
  ∧ ∀ p, p ∈ match t with ProxyTypeHTTP => httpProxies | ProxyTypeSOCKS5 => socks5Proxies end →
         Working (check W config t p) = true →
         p ∈ main_candidates fs path scraped.
Proof.
  intros HnH HnS Hmode Hret Hplain Hempty Hpath Happend.
  set (candidates := match t with
                     | ProxyTypeHTTP => httpProxies
                     | ProxyTypeSOCKS5 => socks5Proxies
                     end) in *.
  assert (Hformat : ∀ result, formatProxyOutput W config result = Proxy result).
  { intros result. unfold formatProxyOutput.
    destruct (CheckerConfig.StrictCheck (Checker config)); simpl in *; [|done].
    by rewrite Hmode. }
  assert (Hlines : ∀ line, line ∈ out_of t r ↔
                     line ∈ candidates ∧ Working (check W config t line) = true).
  { intros line.
    destruct (run_working_lines W config schedule ([], []) httpProxies socks5Proxies r t
                (String.eqb line) HnH HnS Hmode Hret) as [_ Hcount].
    fold candidates in Hcount.
    assert (Hzero : count_lines (String.eqb line)
                      (match t with
                       | ProxyTypeHTTP => (@nil string, @nil string).1
                       | ProxyTypeSOCKS5 => (@nil string, @nil string).2
                       end)
                    = 0%nat) by by destruct t.
    rewrite Hzero in Hcount. simpl in Hcount. split.
    - intros Hin.
      assert (0 < count_lines (String.eqb line) (out_of t r))%nat as Hpos.
      { apply count_lines_pos. exists line. split; [done|]. apply String.eqb_refl. }
      rewrite Hcount in Hpos. apply working_lines_pos in Hpos as (p & Hp & Hw & HQ).
      rewrite Hformat, check_Proxy in HQ. apply String.eqb_eq in HQ as ->. done.
    - intros [Hin Hw].
      assert (0 < working_lines W config t (String.eqb line) candidates)%nat as Hpos.
      { apply working_lines_pos. exists line. split; [done|]. split; [done|].
        rewrite Hformat, check_Proxy. apply String.eqb_refl. }
      rewrite <- Hcount in Hpos. apply count_lines_pos in Hpos as (x & Hx & HQ).
      by apply String.eqb_eq in HQ as ->. }
  assert (Hread : Files.ReadLines fs path = Some (out_of t r)).
  { unfold AppendLines in Happend.
    destruct (AppendLines_spec fs0 path (out_of t r) true Hpath)
      as (fs' & Ha & Htext & Hsome & _ & Hdenied).
    rewrite Happend in Ha. injection Ha as <- Hfit.
    symmetry in Hfit. apply bool_decide_eq_true in Hfit.
    destruct Hsome as [text Hfile]; [left; by rewrite Hempty|].
    unfold text_of in Htext. rewrite Hfile, Hempty, take_ge in Htext by done.
    simpl in Htext. subst text.
    apply ReadLines_unlines.
    - unfold Open. by rewrite Hdenied, decide_False.
    - apply Forall_forall. intros line [Hin _]%Hlines.
      rewrite Forall_forall in Hplain. by apply Hplain. }
  split; [done|]. split; [done|].
  intros p Hp Hw. unfold main_candidates. rewrite Hread. simpl.
  assert (p ∈ out_of t r) as Hin by by apply Hlines.
  destruct (out_of t r) as [|x l] eqn:E; [by apply elem_of_nil in Hin|].
  simpl. apply RemoveDuplicates_elem_of, elem_of_app. by right.
Qed.

(** When [CheckProxies], called on a new checker outside detailed mode
    with the output files cleared, returns, the working counter of a
    family is the number of its candidates whose check finds them
    working; and when the [AppendLine] calls of the run for the family's
    output file have all succeeded, the file has gained exactly the
    lines of these calls, one for each such candidate, the candidate's
    formatted line ([Q] ranges over the properties of lines). *)
Theorem CheckProxies_working_lines schedule httpProxies socks5Proxies r t fs0 fs path Q :
  Z.of_nat (length httpProxies) < 2 ^ 63 →
  Z.of_nat (length socks5Proxies) < 2 ^ 63 →
  CheckerConfig.StrictCheck (Checker config)
    && CheckerConfig.DetailedOutput (Checker config) = false →
  CheckProxies W config schedule NewProxyChecker ([], []) httpProxies socks5Proxies
    = Some r →
  AppendLines fs0 path (out_of t r) = (fs, true) →
  working_count t (checker r)
    = Z.of_nat (working_lines W config t (λ _, true)
                  (match t with
                   | ProxyTypeHTTP => httpProxies
                   | ProxyTypeSOCKS5 => socks5Proxies
                   end))
  ∧ text_of fs path = text_of fs0 path +:+ unlines (out_of t r)
  ∧ count_lines Q (out_of t r)
    = working_lines W config t Q
        (match t with
         | ProxyTypeHTTP => httpProxies
         | ProxyTypeSOCKS5 => socks5Proxies
         end).
Proof.
  intros HnH HnS Hmode Hret Happend.
  destruct (run_working_lines W config schedule ([], []) httpProxies socks5Proxies r t
              Q HnH HnS Hmode Hret) as [Hcount Hlines].
  split; [exact Hcount|]. split; [by apply AppendLines_true|].
  rewrite Hlines. by destruct t.
Qed.

End NextRun.

Lemma CheckProxies_working_lines_witness :
  ∃ r fs,
    CheckProxies sampleWorld basicConfig sampleSchedule NewProxyChecker ([], [])
      [header; "2.2.2.2:8080"] ["3.3.3.3:1080"] = Some r
    ∧ working_count ProxyTypeHTTP (checker r) = 1
    ∧ text_of fs "out/http.txt" = "2.2.2.2:8080" +:+ newline
    ∧ count_lines (String.eqb "2.2.2.2:8080") (out_of ProxyTypeHTTP r) = 1%nat.
Proof.
  assert (∃ r, CheckProxies sampleWorld basicConfig sampleSchedule NewProxyChecker ([], [])
                 [header; "2.2.2.2:8080"] ["3.3.3.3:1080"] = Some r
               ∧ out_of ProxyTypeHTTP r = ["2.2.2.2:8080"]) as (r & Hr & Hout).
  { eexists. split; vm_compute; reflexivity. }
  assert (∃ fs, AppendLines {| files := {["out/http.txt" := ""]}; denied := ∅; room := 64 |}
                  "out/http.txt" (out_of ProxyTypeHTTP r) = (fs, true)) as [fs Hfs].
  { rewrite Hout. eexists. vm_compute. reflexivity. }
  destruct (CheckProxies_working_lines sampleWorld basicConfig sampleSchedule
              [header; "2.2.2.2:8080"] ["3.3.3.3:1080"] r ProxyTypeHTTP
              {| files := {["out/http.txt" := ""]}; denied := ∅; room := 64 |}
              fs "out/http.txt" (String.eqb "2.2.2.2:8080")
              ltac:(simpl; lia) ltac:(simpl; lia) eq_refl Hr Hfs)
    as (Hcount & Htext & Hlines).
  exists r, fs. split; [exact Hr|]. split; [exact Hcount|].
  split; [|exact Hlines]. rewrite Htext, Hout. reflexivity.
Defined.

(** ** The header row of a detailed run *)

(** After a run in strict mode with detailed output of which the write
    of the header row and the appends to a family's output file have
    all succeeded, the file holds the header row and then the lines
    that the run appended; and when the next run reads it, the header
    row is the first line that [ReadLines] returns and is one of the
    candidates that [main] hands to [CheckProxies]. *)
Theorem detailed_header_becomes_candidate W config schedule c files
    httpProxies socks5Proxies r t fs0 fs1 fs path lines scraped :
  CheckerConfig.StrictCheck (Checker config) = true →
  CheckerConfig.DetailedOutput (Checker config) = true →
  CheckProxies W config schedule c files httpProxies socks5Proxies = Some r →
  Files.WriteFile fs0 path header = (fs1, true) →
  AppendLines fs1 path (tail (out_of t r)) = (fs, true) →
  Files.ReadLines fs path = Some lines →
  text_of fs path = unlines (out_of t r)
  ∧ head (out_of t r) = Some header
  ∧ head lines = Some header
  ∧ header ∈ main_candidates fs path scraped.
Proof.
  intros Hs Hd Hret Hwrite Happend Hread.
  assert (Hout : ∃ rest, out_of t r = header :: rest).
  { unfold CheckProxies in Hret. case_match; [done|].
    destruct (exec config schedule _) as [r0|] eqn:Hexec; [|done].
    case_match; [|done]. injection Hret as <-.
    apply (exec_out_of_grows config t) in Hexec as [more Hmore].
    exists more. destruct t; simpl in *; rewrite Hs, Hd in Hmore; exact Hmore. }
  destruct Hout as [rest Hout]. rewrite Hout in *. simpl in Happend.
  assert (Hpath : path ∉ denied fs0).
  { intros Hin. unfold Files.WriteFile, Create in Hwrite.
    by rewrite decide_True in Hwrite. }
  destruct (WriteFile_spec fs0 path header Hpath) as (fs1' & Hw & Hfile1 & Hdenied1).
  rewrite Hwrite in Hw. injection Hw as <- Hfit1.
  symmetry in Hfit1. apply bool_decide_eq_true in Hfit1.
  rewrite take_ge in Hfile1 by done.
  assert (Htext : text_of fs path = unlines (header :: rest)).
  { rewrite (AppendLines_true fs1 fs path rest Happend).
    unfold text_of at 1. rewrite Hfile1. simpl. by rewrite app_assoc'. }
  assert (Hpath1 : path ∉ denied fs1) by by rewrite Hdenied1.
  assert (Hopen : Open fs path = Some (unlines (header :: rest))).
  { unfold AppendLines in Happend.
    destruct (AppendLines_spec fs1 path rest true Hpath1)
      as (fs' & Ha & _ & Hsome & _ & Hdenied).
    rewrite Happend in Ha. injection Ha as <- _.
    destruct Hsome as [text Hfile]; [left; by rewrite Hfile1|].
    unfold Open. rewrite Hdenied, decide_False by done.
    unfold text_of in Htext. rewrite Hfile in Htext. simpl in Htext.
    by rewrite Hfile, Htext. }
  destruct (ReadLines_header fs path rest lines Hopen Hread) as [lines' ->].
  split; [done|]. split; [done|]. split; [done|].
  unfold main_candidates. rewrite Hread. simpl.
  apply RemoveDuplicates_elem_of, elem_of_app. right. apply list_elem_of_here.
Qed.

Lemma detailed_header_becomes_candidate_witness :
  ∃ r fs lines,
    CheckProxies sampleWorld detailedConfig
      [Worker 0; Worker 0; Consumer; Worker 0; Worker 0; Worker 0]
      NewProxyChecker ([], []) ["2.2.2.2:8080"] [] = Some r
    ∧ text_of fs "out/http.txt"
      = unlines [header; "2.2.2.2:8080|2.2.2.2|Iceland|850ms|Yes"]
    ∧ Files.ReadLines fs "out/http.txt" = Some lines
    ∧ head lines = Some header
    ∧ header ∈ main_candidates fs "out/http.txt" ["7.7.7.7:80"].
Proof.
  assert (∃ r, CheckProxies sampleWorld detailedConfig
                 [Worker 0; Worker 0; Consumer; Worker 0; Worker 0; Worker 0]
                 NewProxyChecker ([], []) ["2.2.2.2:8080"] [] = Some r
               ∧ out_of ProxyTypeHTTP r
                 = [header; "2.2.2.2:8080|2.2.2.2|Iceland|850ms|Yes"])
    as (r & Hr & Hout).
  { eexists. split; vm_compute; reflexivity. }
  assert (∃ fs1, Files.WriteFile
                   {| files := {["out/http.txt" := "9.9.9.9:80"]}; denied := ∅; room := 128 |}
                   "out/http.txt" header = (fs1, true)) as [fs1 Hfs1].
  { eexists. vm_compute. reflexivity. }
  assert (∃ fs, AppendLines fs1 "out/http.txt" (tail (out_of ProxyTypeHTTP r)) = (fs, true))
    as [fs Hfs].
  { rewrite Hout. vm_compute in Hfs1. injection Hfs1 as <-.
    eexists. vm_compute. reflexivity. }
  assert (∃ lines, Files.ReadLines fs "out/http.txt" = Some lines) as [lines Hlines].
  { rewrite Hout in Hfs. vm_compute in Hfs1. injection Hfs1 as <-.
    vm_compute in Hfs. injection Hfs as <-. eexists. vm_compute. reflexivity. }
  destruct (detailed_header_becomes_candidate sampleWorld detailedConfig
              [Worker 0; Worker 0; Consumer; Worker 0; Worker 0; Worker 0]
              NewProxyChecker ([], []) ["2.2.2.2:8080"] [] r ProxyTypeHTTP
              {| files := {["out/http.txt" := "9.9.9.9:80"]}; denied := ∅; room := 128 |}
              fs1 fs "out/http.txt" lines ["7.7.7.7:80"]
              eq_refl eq_refl Hr Hfs1 Hfs Hlines)
    as (Htext & _ & Hhead & Hcandidate).
  exists r, fs, lines. rewrite Hout in Htext. done.
Defined.


Lemma working_proxies_are_checked_again_witness :
  ∃ r fs,
    CheckProxies sampleWorld basicConfig
      [Worker 0; Worker 1; Worker 1; Worker 0; Consumer; Worker 0; Worker 0;
       Consumer; Worker 1; Worker 1; Worker 1]
      NewProxyChecker ([], []) ["1.1.1.1:80"; "2.2.2.2:8080"] [] = Some r
    ∧ Files.ReadLines fs "out/http.txt" = Some ["2.2.2.2:8080"]
    ∧ "2.2.2.2:8080" ∈ main_candidates fs "out/http.txt" ["7.7.7.7:80"].
Proof.
  assert (∃ r, CheckProxies sampleWorld basicConfig
                 [Worker 0; Worker 1; Worker 1; Worker 0; Consumer; Worker 0; Worker 0;
                  Consumer; Worker 1; Worker 1; Worker 1]
                 NewProxyChecker ([], []) ["1.1.1.1:80"; "2.2.2.2:8080"] [] = Some r
               ∧ out_of ProxyTypeHTTP r = ["2.2.2.2:8080"]) as (r & Hr & Hout).
  { eexists. split; vm_compute; reflexivity. }
  assert (∃ fs, AppendLines {| files := {["out/http.txt" := ""]}; denied := ∅; room := 64 |}
                  "out/http.txt" (out_of ProxyTypeHTTP r) = (fs, true)) as [fs Hfs].
  { rewrite Hout. eexists. vm_compute. reflexivity. }
  destruct (working_proxies_are_checked_again sampleWorld basicConfig
              [Worker 0; Worker 1; Worker 1; Worker 0; Consumer; Worker 0; Worker 0;
               Consumer; Worker 1; Worker 1; Worker 1]
              ["1.1.1.1:80"; "2.2.2.2:8080"] [] r ProxyTypeHTTP
              {| files := {["out/http.txt" := ""]}; denied := ∅; room := 64 |}
              fs "out/http.txt" ["7.7.7.7:80"]
              ltac:(simpl; lia) ltac:(simpl; lia) eq_refl Hr
              ltac:(repeat constructor) eq_refl ltac:(apply not_elem_of_empty) Hfs)
    as (Hread & _ & Hnext).
  exists r, fs. split; [exact Hr|]. split; [by rewrite <- Hout|].
  apply Hnext; [|vm_compute; reflexivity].
  apply elem_of_cons. right. apply list_elem_of_here.
Defined.

(** ** More on the runs of [CheckProxies] *)

Section MoreRuns.

Variable W : World.
Variable config : Config.

(** At every moment of a run of [CheckProxies] on a new checker, the
    counters of a family are in order: the working count is at most the
    checked count, which is at most the total, the number of candidates
    of the family; so a progress display never shows more than all. *)
Theorem CheckProxies_progress_in_order schedule files httpProxies socks5Proxies r :
  Z.of_nat (length httpProxies) < 2 ^ 63 →
  Z.of_nat (length socks5Proxies) < 2 ^ 63 →
  exec config schedule (start W config NewProxyChecker files httpProxies socks5Proxies)
    = Some r →
  0 ≤ workingHTTP (checker r) ≤ checkedHTTP (checker r)
  ∧ checkedHTTP (checker r) ≤ totalHTTP (checker r)
  ∧ totalHTTP (checker r) = Z.of_nat (length httpProxies)
  ∧ 0 ≤ workingSOCKS5 (checker r) ≤ checkedSOCKS5 (checker r)
  ∧ checkedSOCKS5 (checker r) ≤ totalSOCKS5 (checker r)
  ∧ totalSOCKS5 (checker r) = Z.of_nat (length socks5Proxies).
Proof.
  intros HnH HnS Hexec.
  assert (Hinit : counters_inv (Z.of_nat (length httpProxies))
                    (Z.of_nat (length socks5Proxies))
                    (start W config NewProxyChecker files httpProxies socks5Proxies)).
  { destruct (start_updates W config NewProxyChecker files httpProxies socks5Proxies)
      as [HH HS].
    unfold counters_inv. rewrite HH, HS. simpl. repeat split; lia. }
  destruct (exec_counters config _ _ _ _ _ HnH HnS Hexec Hinit)
    as (HtH & HtS & HcH & HcS & HwH & HwS).
  repeat split; lia.
Qed.

Lemma step_closed a r r' :
  step config a r = Some r' → closed (checker r') = closed (checker r).
Proof.
  intros Hstep. destruct a as [i|].
  - apply step_Worker in Hstep as (o & rest & r1 & Hi & Hp & ->).
    destruct o as [[]|[result|t w]|[] line|[]]; simpl in Hp;
      repeat case_match; simplify_eq; simpl; try done. by destruct t.
  - simpl in Hstep. destruct (ResultChan (checker r)) as [|x q]; [done|].
    by injection Hstep as <-.
Qed.

Lemma exec_closed schedule r r' :
  exec config schedule r = Some r' → closed (checker r') = closed (checker r).
Proof.
  revert r. induction schedule as [|a schedule IH]; intros r; simpl.
  - by intros [= <-].
  - destruct (step config a r) as [r1|] eqn:Hstep; [|done]. simpl.
    intros Hexec. rewrite (IH _ Hexec). by eapply step_closed.
Qed.

(** [CheckProxies] closes [ResultChan] when it returns, and a checker
    serves for one call only: a second call of [CheckProxies] on the
    same checker does not return, whatever its candidates and schedule
    (it ends in a send on the closed channel or in closing it again,
    both of which panic). *)
Theorem CheckProxies_only_once schedule c files httpProxies socks5Proxies r :
  CheckProxies W config schedule c files httpProxies socks5Proxies = Some r →
  closed (checker r) = true
  ∧ ∀ schedule' files' httpProxies' socks5Proxies',
      CheckProxies W config schedule' (checker r) files' httpProxies' socks5Proxies' = None.
Proof.
  intros Hret.
  assert (Hclosed : closed (checker r) = true).
  { by apply CheckProxies_returns in Hret as (_ & _ & _ & _ & _ & _ & _ & _ & _ & _ & _ & ?). }
  split; [done|]. intros schedule' files' httpProxies' socks5Proxies'.
  unfold CheckProxies. case_match; [done|].
  destruct (exec config schedule' _) as [r'|] eqn:Hexec; [|done].
  apply exec_closed in Hexec. simpl in Hexec. rewrite Hexec, Hclosed.
  by rewrite andb_false_r.
Qed.

End MoreRuns.

Lemma CheckProxies_progress_in_order_witness :
  ∃ r,
    exec basicConfig [Worker 1; Worker 1; Worker 1; Worker 0]
      (start sampleWorld basicConfig NewProxyChecker ([], [])
         ["1.1.1.1:80"; "2.2.2.2:8080"] []) = Some r
    ∧ 0 ≤ workingHTTP (checker r) ≤ checkedHTTP (checker r)
    ∧ checkedHTTP (checker r) ≤ totalHTTP (checker r).
Proof.
  eexists. split; [vm_compute; reflexivity|].
  destruct (CheckProxies_progress_in_order sampleWorld basicConfig
              [Worker 1; Worker 1; Worker 1; Worker 0] ([], [])
              ["1.1.1.1:80"; "2.2.2.2:8080"] [] _
              ltac:(simpl; lia) ltac:(simpl; lia) eq_refl) as (Hw & Hc & _).
  split; [exact Hw|exact Hc].
Defined.

Lemma CheckProxies_only_once_witness :
  ∃ r,
    CheckProxies sampleWorld basicConfig [Worker 0; Worker 0; Consumer; Worker 0; Worker 0]
      NewProxyChecker ([], []) ["1.1.1.1:80"] [] = Some r
    ∧ CheckProxies sampleWorld basicConfig [Worker 0; Worker 0]
        (checker r) ([], []) ["2.2.2.2:8080"] [] = None.
Proof.
  assert (∃ r, CheckProxies sampleWorld basicConfig
                 [Worker 0; Worker 0; Consumer; Worker 0; Worker 0]
                 NewProxyChecker ([], []) ["1.1.1.1:80"] [] = Some r) as [r Hr].
  { eexists. vm_compute. reflexivity. }
  exists r. split; [exact Hr|].
  apply (CheckProxies_only_once sampleWorld basicConfig _ _ _ _ _ r Hr).
Defined.

(** ** The result channel as a buffer *)

Section Buffered.

Variable W : World.
Variable config : Config.

Lemma exec_inner_buffered i ops tail r :
  Forall inner ops →
  closed (checker r) = false →
  (length (ResultChan (checker r)) + sum_list_with (is_send (λ _, true)) ops
   ≤ ResultChan_cap)%nat →
  goroutines r !! i = Some (ops ++ tail) →
  ∃ r',
    exec config (replicate (length ops) (Worker i)) r = Some r'
    ∧ goroutines r' = <[i := tail]> (goroutines r)
    ∧ closed (checker r') = false
    ∧ semHTTP r' = semHTTP r ∧ semSOCKS5 r' = semSOCKS5 r
    ∧ length (ResultChan (checker r'))
      = (length (ResultChan (checker r)) + sum_list_with (is_send (λ _, true)) ops)%nat.
Proof.
  intros Hops. revert r. induction Hops as [|o ops Ho _ IH]; intros r Hc Hroom Hi.
  - exists r. simpl in *. rewrite list_insert_id by done. repeat split; try done; lia.
  - assert (Hlt : (i < length (goroutines r))%nat) by by eapply lookup_lt_Some.
    assert (Hnext : ∀ r1 n,
      goroutines r1 = <[i := ops ++ tail]> (goroutines r) →
      closed (checker r1) = false →
      semHTTP r1 = semHTTP r → semSOCKS5 r1 = semSOCKS5 r →
      length (ResultChan (checker r1)) = (length (ResultChan (checker r)) + n)%nat →
      n = is_send (λ _, true) o →
      ∃ r', exec config (replicate (length ops) (Worker i)) r1 = Some r'
            ∧ goroutines r' = <[i := tail]> (goroutines r)
            ∧ closed (checker r') = false
            ∧ semHTTP r' = semHTTP r ∧ semSOCKS5 r' = semSOCKS5 r
            ∧ length (ResultChan (checker r'))
              = (length (ResultChan (checker r))
                 + sum_list_with (is_send (λ _, true)) (o :: ops))%nat).
    { intros r1 n Hg Hc1 HsH HsS Hlen ->.
      destruct (IH r1 Hc1) as (r' & Hexec & Hg' & ? & ? & ? & Hlen').
      { simpl in Hroom. lia. }
      { rewrite Hg. by apply list_lookup_insert_eq. }
      exists r'. rewrite Hg, list_insert_insert_eq in Hg'.
      repeat split; try done; try congruence. simpl. lia. }
    destruct o as [t|[result|t w]|t line|t]; try done.
    + cbn [length replicate exec step]. simpl in Hi. rewrite Hi.
      cbn [perform]. rewrite Hc. simpl in Hroom.
      destruct (Nat.ltb_spec (length (ResultChan (checker r))) ResultChan_cap); [|lia].
      simpl. apply (Hnext _ 1%nat); simpl; try done.
      rewrite length_app. simpl. lia.
    + cbn [length replicate exec step]. simpl in Hi. rewrite Hi.
      cbn [perform]. simpl.
      apply (Hnext _ 0%nat); simpl; try done; try (by destruct t); destruct t; simpl; lia.
    + cbn [length replicate exec step]. simpl in Hi. rewrite Hi.
      destruct t; cbn [perform]; simpl; apply (Hnext _ 0%nat); simpl; try done; lia.
Qed.

Lemma exec_goroutine_buffered i t p r :
  1 ≤ CheckerConfig.ConcurrentHTTP (Checker config) →
  1 ≤ CheckerConfig.ConcurrentSOCKS5 (Checker config) →
  semHTTP r = 0 → semSOCKS5 r = 0 → closed (checker r) = false →
  (length (ResultChan (checker r))
   + sum_list_with (is_send (λ _, true)) (goroutine W config t p) ≤ ResultChan_cap)%nat →
  goroutines r !! i = Some (goroutine W config t p) →
  ∃ r',
    exec config (replicate (length (goroutine W config t p)) (Worker i)) r = Some r'
    ∧ semHTTP r' = 0 ∧ semSOCKS5 r' = 0 ∧ closed (checker r') = false
    ∧ goroutines r' = <[i := []]> (goroutines r)
    ∧ length (ResultChan (checker r'))
      = (length (ResultChan (checker r))
         + sum_list_with (is_send (λ _, true)) (goroutine W config t p))%nat.
Proof.
  intros HH HS HsH HsS Hc Hroom Hi.
  destruct (goroutine_shape W config t p) as (ops & Hshape & Hops). rewrite Hshape in *.
  assert (Hlt : (i < length (goroutines r))%nat) by by eapply lookup_lt_Some.
  assert (Hsends : sum_list_with (is_send (λ _, true)) (Acquire t :: ops ++ [Release t])
                   = sum_list_with (is_send (λ _, true)) ops).
  { simpl. rewrite sum_list_with_app. simpl. lia. }
  rewrite Hsends in *.
  change (Acquire t :: ops ++ [Release t]) with ([Acquire t] ++ ops ++ [Release t]).
  rewrite !length_app, !replicate_add, !exec_app.
  assert (Hacq : ∃ r1, exec config (replicate (length [Acquire t]) (Worker i)) r = Some r1
            ∧ goroutines r1 = <[i := ops ++ [Release t]]> (goroutines r)
            ∧ ResultChan (checker r1) = ResultChan (checker r)
            ∧ closed (checker r1) = false
            ∧ semHTTP r1 = (if decide (t = ProxyTypeHTTP) then 1 else 0)
            ∧ semSOCKS5 r1 = (if decide (t = ProxyTypeSOCKS5) then 1 else 0)).
  { cbn [length replicate exec step]. rewrite Hi.
    destruct t; cbn [perform]; rewrite ?HsH, ?HsS.
    - destruct (Z.ltb_spec 0 (CheckerConfig.ConcurrentHTTP (Checker config))); [|lia].
      simpl. eexists. split; [reflexivity|]. simpl. done.
    - destruct (Z.ltb_spec 0 (CheckerConfig.ConcurrentSOCKS5 (Checker config))); [|lia].
      simpl. eexists. split; [reflexivity|]. simpl. done. }
  destruct Hacq as (r1 & -> & Hg1 & Hq1 & Hc1 & HsH1 & HsS1). simpl.
  rewrite exec_app.
  destruct (exec_inner_buffered i ops [Release t] r1 Hops Hc1)
    as (r2 & -> & Hg2 & Hc2 & HsH2 & HsS2 & Hlen2).
  { by rewrite Hq1. }
  { rewrite Hg1. by apply list_lookup_insert_eq. }
  simpl. rewrite Hg1, list_insert_insert_eq in Hg2. rewrite Hq1 in Hlen2.
  cbn [length replicate exec step]. rewrite Hg2, list_lookup_insert_eq by done.
  destruct t; cbn [perform]; simpl; eexists; (split; [reflexivity|]); simpl;
    rewrite ?Hg2, ?list_insert_insert_eq; simpl;
    rewrite ?HsH2, ?HsS2, ?HsH1, ?HsS1; simpl; done.
Qed.

Lemma exec_unattended done todo r :
  1 ≤ CheckerConfig.ConcurrentHTTP (Checker config) →
  1 ≤ CheckerConfig.ConcurrentSOCKS5 (Checker config) →
  semHTTP r = 0 → semSOCKS5 r = 0 → closed (checker r) = false →
  (length (ResultChan (checker r)) + count_ops (is_send (λ _, true)) todo
   ≤ ResultChan_cap)%nat →
  Forall (λ g, g = []) done →
  Forall (λ g, ∃ t p, g = goroutine W config t p) todo →
  goroutines r = done ++ todo →
  ∃ r',
    exec config (unattended (length done) todo) r = Some r'
    ∧ all_done r' = true ∧ closed (checker r') = false.
Proof.
  intros HH HS HsH HsS Hc Hroom Hdone Htodo. revert done r HsH HsS Hc Hroom Hdone.
  induction Htodo as [|g todo (t & p & ->) _ IH]; intros done r HsH HsS Hc Hroom Hdone Hg.
  - exists r. simpl. split; [done|]. split; [|done].
    unfold all_done. rewrite Hg, app_nil_r. apply forallb_forall.
    intros g Hin%list_elem_of_In. rewrite Forall_forall in Hdone.
    apply bool_decide_eq_true. by apply Hdone.
  - cbn [unattended]. rewrite exec_app. unfold count_ops in Hroom. simpl in Hroom.
    destruct (exec_goroutine_buffered (length done) t p r HH HS HsH HsS Hc)
      as (r1 & -> & HsH1 & HsS1 & Hc1 & Hg1 & Hlen1).
    { lia. }
    { rewrite Hg. by rewrite lookup_app_r, Nat.sub_diag by lia. }
    simpl.
    destruct (IH (done ++ [[]]) r1 HsH1 HsS1 Hc1) as (r' & Hexec & Hfin).
    + unfold count_ops. lia.
    + apply Forall_app. split; [done|]. by repeat constructor.
    + rewrite Hg1, Hg. rewrite insert_app_r_alt, Nat.sub_diag by lia. simpl.
      by rewrite <- app_assoc.
    + rewrite length_app in Hexec. simpl in Hexec. rewrite Nat.add_1_r in Hexec.
      exists r'. done.
Qed.

(** When at most 100 candidates have their transport built and both
    semaphores have room for one goroutine, [CheckProxies] on a new
    checker returns although nothing receives from [ResultChan], with
    the goroutines running one after the other. *)
Lemma returns_unattended files httpProxies socks5Proxies :
  1 ≤ CheckerConfig.ConcurrentHTTP (Checker config) →
  1 ≤ CheckerConfig.ConcurrentSOCKS5 (Checker config) →
  (constructed_among W ProxyTypeHTTP httpProxies
   + constructed_among W ProxyTypeSOCKS5 socks5Proxies ≤ ResultChan_cap)%nat →
  is_Some
    (CheckProxies W config
       (unattended 0 (goroutines (start W config NewProxyChecker files
                                    httpProxies socks5Proxies)))
       NewProxyChecker files httpProxies socks5Proxies).
Proof.
  intros HH HS Hfew. unfold CheckProxies.
  destruct (Z.ltb_spec (CheckerConfig.ConcurrentHTTP (Checker config)) 0); [lia|].
  destruct (Z.ltb_spec (CheckerConfig.ConcurrentSOCKS5 (Checker config)) 0); [lia|].
  simpl orb. cbv iota.
  destruct (exec_unattended []
              (goroutines (start W config NewProxyChecker files httpProxies socks5Proxies))
              (start W config NewProxyChecker files httpProxies socks5Proxies) HH HS)
    as (r' & Hexec & Hdone & Hclosed); try done.
  - rewrite start_sends_all. simpl. lia.
  - simpl. apply Forall_app. split; apply Forall_fmap, Forall_true; intros p; simpl; eauto.
  - change (length (@nil (list op))) with 0%nat in Hexec.
    rewrite Hexec, Hdone, Hclosed. simpl. by eexists.
Qed.

(** [ResultChan] buffers 100 results, and that is how far
    [CheckProxies] gets when nothing receives from it: with room for one
    goroutine in both semaphores, [CheckProxies] on a new checker can
    return without a consumer when at most 100 candidates have their
    transport built (it does when the goroutines run one after the
    other), and with more than 100 such candidates it does not return
    under any schedule of the goroutines.  ([main] starts a goroutine
    that receives for this reason.) *)
Theorem CheckProxies_without_consumer files httpProxies socks5Proxies :
  1 ≤ CheckerConfig.ConcurrentHTTP (Checker config) →
  1 ≤ CheckerConfig.ConcurrentSOCKS5 (Checker config) →
  ((constructed_among W ProxyTypeHTTP httpProxies
    + constructed_among W ProxyTypeSOCKS5 socks5Proxies ≤ ResultChan_cap)%nat →
   is_Some
     (CheckProxies W config
        (unattended 0 (goroutines (start W config NewProxyChecker files
                                     httpProxies socks5Proxies)))
        NewProxyChecker files httpProxies socks5Proxies))
  ∧ ((ResultChan_cap < constructed_among W ProxyTypeHTTP httpProxies
                       + constructed_among W ProxyTypeSOCKS5 socks5Proxies)%nat →
     ∀ schedule,
       Forall (λ a, a ≠ Consumer) schedule →
       CheckProxies W config schedule NewProxyChecker files httpProxies socks5Proxies
       = None).
Proof.
  intros HH HS. split.
  - by apply returns_unattended.
  - intros Hmany schedule Hschedule. by apply blocks_without_consumer.
Qed.

End Buffered.

Lemma CheckProxies_without_consumer_witness :
  is_Some
    (CheckProxies sampleWorld basicConfig
       (unattended 0 (goroutines (start sampleWorld basicConfig NewProxyChecker ([], [])
                                    ["1.1.1.1:80"; "2.2.2.2:8080"] ["3.3.3.3:1080"])))
       NewProxyChecker ([], []) ["1.1.1.1:80"; "2.2.2.2:8080"] ["3.3.3.3:1080"])
  ∧ CheckProxies sampleWorld basicConfig [Worker 0; Worker 0; Worker 0; Worker 0]
      NewProxyChecker ([], []) (replicate 101 "1.1.1.1:80") [] = None.
Proof.
  split.
  - apply (CheckProxies_without_consumer sampleWorld basicConfig ([], [])
             ["1.1.1.1:80"; "2.2.2.2:8080"] ["3.3.3.3:1080"]); [simpl; lia..|].
    vm_compute. lia.
  - apply (CheckProxies_without_consumer sampleWorld basicConfig ([], [])
             (replicate 101 "1.1.1.1:80") []); [simpl; lia..| |].
    + vm_compute. lia.
    + repeat constructor; discriminate.
Defined.
